(** * Barto-MCP: the generate/evaluate refinement loop

    A shallow embedding of the control loop of the repository (stop
    conditions, orchestrator, response interpreter, retry executor, the
    runners, the snapshot store with its in-process fallback, the queue
    worker and the cancellation request, the in-process rate limiter and
    the [Result] utilities), followed by the properties that the
    specification states about them and by further properties of the
    code.

    Conventions of the embedding

    - A JavaScript [number] that holds a score or a threshold is a binary64
      float ([PrimFloat.float]): comparisons and subtraction are the IEEE
      operations that the engine performs.  Counters (iteration and attempt
      numbers, lengths) are [nat]; instants and HTTP status codes are [Z].
      The delays of the retry executor are computed over an interface of
      the number operations involved ([Retry.JsNumber]).
    - A thrown value is a [JsThrown]; a call that can throw returns an
      [Outcome].  Remote calls, the clock and the random source are
      parameters of the functions that use them.
    - Template-literal messages are kept as structured values ([Message])
      instead of rendered text: [toFixed] plays no role in any decision.
    - Logging is left out. *)

From Stdlib Require Import ZArith List String Ascii Bool Lia Floats QArith Qround.
From stdpp Require Import base option list strings gmap.
Import ListNotations.

Set Warnings "-inexact-float,-register-all".

(* ===================================================================== *)
(** ** Thrown values and outcomes *)
(* ===================================================================== *)

(** What a [catch (error)] clause can receive.  [ThrownObject] carries the
    fields that the code inspects: whether the value is an [Error] instance,
    its [message], and the optional [status] / [statusCode] properties. *)
Inductive JsThrown : Type :=
| ThrownUndefined
| ThrownPrimitive (repr : string)
| ThrownObject (isError : bool) (message : string)
               (status : option Z) (statusCode : option Z).

Inductive Outcome (A : Type) : Type :=
| Returns (a : A)
| Throws (e : JsThrown).
Arguments Returns {A} a.
Arguments Throws {A} e.

(* ===================================================================== *)
(** ** schemas/workflow.schema.ts *)
(* ===================================================================== *)

Module Schema.

Record DiscriminatorFeedback : Type := {
  passed : bool;
  score : float;
  issues : list string;
  suggestions : string;
  reasoning : option string
}.

Record TokensUsed : Type := {
  generator : option nat;
  discriminator : option nat
}.

Record IterationState : Type := {
  number : nat;
  generatorOutput : string;
  feedback : DiscriminatorFeedback;
  durationMs : Z;
  timestamp : string;
  tokensUsed : TokensUsed
}.

(** shared/types: [StopReason].  The literals ["error"] and ["cancelled"]
    are spelled [reason_error] and [reason_cancelled]. *)
Inductive StopReason : Type :=
| threshold_reached
| max_iterations
| stagnation
| reason_error
| reason_cancelled
| early_termination.

Definition StopReason_eqb (a b : StopReason) : bool :=
  match a, b with
  | threshold_reached, threshold_reached
  | max_iterations, max_iterations
  | stagnation, stagnation
  | reason_error, reason_error
  | reason_cancelled, reason_cancelled
  | early_termination, early_termination => true
  | _, _ => false
  end.

(** [z.number().min(0).max(1)] on a double: NaN fails both comparisons. *)
Definition score_in_range (x : float) : bool :=
  PrimFloat.leb 0%float x && PrimFloat.leb x 1%float.

(** The shape that [DiscriminatorFeedbackSchema] accepts; the other fields
    are typed by the record itself. *)
Definition feedback_valid (f : DiscriminatorFeedback) : bool :=
  score_in_range (score f).

End Schema.
Import Schema.

(* ===================================================================== *)
(** ** core/orchestrator/stop-conditions *)
(* ===================================================================== *)

Module StopConditions.

(** The text of a stop decision, before rendering. *)
Inductive Message : Type :=
| MsgThreshold (currentScore scoreThreshold : float)
| MsgMaxIterations (maxIterations : nat)
| MsgStagnation (maxStagnantIterations : nat) (recentScores : list float)
| MsgEarlyTermination (currentScore scoreThreshold : float) (currentIteration : nat)
| MsgText (text : string)
| MsgTagged (conditionName : string) (inner : option Message).

Record StopConditionResult : Type := {
  shouldStop : bool;
  reason : option StopReason;
  message : option Message
}.

Record StopConditionContext : Type := {
  currentIteration : nat;
  maxIterations : nat;
  scoreThreshold : float;
  iterations : list IterationState;
  currentScore : float;
  currentPassed : bool
}.

(** The [StopCondition] interface: a name and an [evaluate] method.  A
    call of the method throws or returns: [raises] is the exception that
    it throws, if any, and [evaluate] is what it returns otherwise.  The
    conditions of the repository never throw; a condition supplied
    through [OrchestratorConfig.stopConditions] may. *)
Record StopCondition : Type := {
  name : string;
  evaluate : StopConditionContext -> StopConditionResult;
  raises : StopConditionContext -> option JsThrown
}.

Definition never : StopConditionContext -> option JsThrown := fun _ => None.

(** [{ shouldStop: false }] *)
Definition continue_ : StopConditionResult :=
  {| shouldStop := false; reason := None; message := None |}.

(** *** threshold.condition.ts *)

Definition Threshold_evaluate (context : StopConditionContext) : StopConditionResult :=
  if currentPassed context
     && PrimFloat.leb (scoreThreshold context) (currentScore context)
  then {| shouldStop := true;
          reason := Some threshold_reached;
          message := Some (MsgThreshold (currentScore context) (scoreThreshold context)) |}
  else continue_.

Definition ThresholdStopCondition : StopCondition :=
  {| name := "threshold"; evaluate := Threshold_evaluate; raises := never |}.

(** *** max-iterations.condition.ts *)

Definition MaxIterations_evaluate (context : StopConditionContext) : StopConditionResult :=
  if (maxIterations context <=? currentIteration context)%nat
  then {| shouldStop := true;
          reason := Some max_iterations;
          message := Some (MsgMaxIterations (maxIterations context)) |}
  else continue_.

Definition MaxIterationsStopCondition : StopCondition :=
  {| name := "max_iterations"; evaluate := MaxIterations_evaluate; raises := never |}.

(** *** stagnation.condition.ts *)

Record StagnationConfig : Type := {
  cfg_maxStagnantIterations : option nat;
  cfg_improvementThreshold : option float
}.

Definition StagnationConfig_empty : StagnationConfig :=
  {| cfg_maxStagnantIterations := None; cfg_improvementThreshold := None |}.

(** The private fields set by the constructor ([?? 3], [?? 0.01]). *)
Record Stagnation : Type := {
  maxStagnantIterations : nat;
  improvementThreshold : float
}.

Definition Stagnation_new (config : StagnationConfig) : Stagnation :=
  {| maxStagnantIterations := default 3 (cfg_maxStagnantIterations config);
     improvementThreshold := default 0.01%float (cfg_improvementThreshold config) |}.

(** [arr.slice(-k)] for [k >= 1]: the last [k] elements, all of them when
    the array is shorter. *)
Definition slice_last {A : Type} (k : nat) (arr : list A) : list A :=
  skipn (length arr - k) arr.

Definition Stagnation_evaluate (this : Stagnation) (context : StopConditionContext)
  : StopConditionResult :=
  let iterations := iterations context in
  if (length iterations <? maxStagnantIterations this + 1)%nat then continue_
  else
    let recentIterations := slice_last (maxStagnantIterations this + 1) iterations in
    let recentScores := map (fun iter => score (feedback iter)) recentIterations in
    match recentScores with
    | [] => continue_
    | baselineScore :: later =>
        let hasImprovement :=
          existsb (fun score =>
                     PrimFloat.ltb (improvementThreshold this)
                                   (PrimFloat.sub score baselineScore))
                  later in
        if negb hasImprovement
        then {| shouldStop := true;
                reason := Some stagnation;
                message := Some (MsgStagnation (maxStagnantIterations this) recentScores) |}
        else continue_
    end.

Definition StagnationStopCondition (config : StagnationConfig) : StopCondition :=
  {| name := "stagnation"; evaluate := Stagnation_evaluate (Stagnation_new config);
     raises := never |}.

(** *** early-termination.condition.ts *)

Record EarlyTerminationConfig : Type := {
  cfg_scoreThreshold : option float;
  cfg_minIterations : option nat
}.

Definition EarlyTerminationConfig_empty : EarlyTerminationConfig :=
  {| cfg_scoreThreshold := None; cfg_minIterations := None |}.

Record EarlyTermination : Type := {
  et_scoreThreshold : float;
  et_minIterations : nat
}.

Definition EarlyTermination_new (config : EarlyTerminationConfig) : EarlyTermination :=
  {| et_scoreThreshold := default 0.1%float (cfg_scoreThreshold config);
     et_minIterations := default 2 (cfg_minIterations config) |}.

Definition EarlyTermination_evaluate (this : EarlyTermination)
  (context : StopConditionContext) : StopConditionResult :=
  if (currentIteration context <? et_minIterations this)%nat then continue_
  else if PrimFloat.ltb (currentScore context) (et_scoreThreshold this)
  then {| shouldStop := true;
          reason := Some early_termination;
          message := Some (MsgEarlyTermination (currentScore context)
                             (et_scoreThreshold this) (currentIteration context)) |}
  else continue_.

Definition EarlyTerminationStopCondition (config : EarlyTerminationConfig) : StopCondition :=
  {| name := "early_termination";
     evaluate := EarlyTermination_evaluate (EarlyTermination_new config);
     raises := never |}.

(** *** composite.condition.ts *)

(** The [for ... of] loop of [CompositeStopCondition.evaluate]: the first
    condition that reports a stop wins; its result is copied and the message
    is prefixed with the condition's name. *)
Fixpoint Composite_evaluate (conditions : list StopCondition)
  (context : StopConditionContext) : StopConditionResult :=
  match conditions with
  | [] => continue_
  | condition :: rest =>
      let result := evaluate condition context in
      if shouldStop result
      then {| shouldStop := shouldStop result;
              reason := reason result;
              message := Some (MsgTagged (name condition) (message result)) |}
      else Composite_evaluate rest context
  end.

(** The same loop when a member throws: the members are asked in order
    until one reports a stop, and an exception of a member that is asked
    leaves the loop. *)
Fixpoint Composite_raises (conditions : list StopCondition)
  (context : StopConditionContext) : option JsThrown :=
  match conditions with
  | [] => None
  | condition :: rest =>
      match raises condition context with
      | Some e => Some e
      | None =>
          if shouldStop (evaluate condition context) then None
          else Composite_raises rest context
      end
  end.

Definition CompositeStopCondition (conditions : list StopCondition) : StopCondition :=
  {| name := "composite";
     evaluate := Composite_evaluate conditions;
     raises := Composite_raises conditions |}.

Definition addCondition (conditions : list StopCondition) (condition : StopCondition)
  : list StopCondition :=
  conditions ++ [condition].

Definition removeCondition (conditions : list StopCondition) (n : string)
  : list StopCondition :=
  filter (fun c => name c ≠ n) conditions.

Record DefaultStopConditionsConfig : Type := {
  dflt_stagnation : StagnationConfig;
  dflt_earlyTermination : EarlyTerminationConfig;
  includeStagnation : option bool;
  includeEarlyTermination : option bool
}.

Definition DefaultStopConditionsConfig_empty : DefaultStopConditionsConfig :=
  {| dflt_stagnation := StagnationConfig_empty;
     dflt_earlyTermination := EarlyTerminationConfig_empty;
     includeStagnation := None;
     includeEarlyTermination := None |}.

(** [x !== false] on an optional boolean. *)
Definition not_false (x : option bool) : bool :=
  match x with Some false => false | _ => true end.

Definition defaultConditions (config : DefaultStopConditionsConfig) : list StopCondition :=
  [ThresholdStopCondition; MaxIterationsStopCondition]
  ++ (if not_false (includeStagnation config)
      then [StagnationStopCondition (dflt_stagnation config)] else [])
  ++ (if not_false (includeEarlyTermination config)
      then [EarlyTerminationStopCondition (dflt_earlyTermination config)] else []).

Definition createDefaultStopConditions (config : DefaultStopConditionsConfig) : StopCondition :=
  CompositeStopCondition (defaultConditions config).

End StopConditions.
Import StopConditions.

(** A history whose feedback scores are the given ones; the other fields
    are placeholders that no stop condition reads. *)
Definition feedback_of_score (passed : bool) (s : float) : DiscriminatorFeedback :=
  {| passed := passed; score := s; issues := []; suggestions := ""; reasoning := None |}.

Definition iteration_of_score (n : nat) (s : float) : IterationState :=
  {| number := n; generatorOutput := ""; feedback := feedback_of_score false s;
     durationMs := 0%Z; timestamp := "";
     tokensUsed := {| generator := None; discriminator := None |} |}.

Definition history_of_scores (scores : list float) : list IterationState :=
  imap (fun i s => iteration_of_score (S i) s) scores.

Definition context_of_scores (maxIter : nat) (threshold : float) (scores : list float)
  : StopConditionContext :=
  {| currentIteration := length scores;
     maxIterations := maxIter;
     scoreThreshold := threshold;
     iterations := history_of_scores scores;
     currentScore := List.last scores 0%float;
     currentPassed := false |}.

(* ===================================================================== *)
(** ** core/orchestrator/ralph.orchestrator.ts *)
(* ===================================================================== *)

Module Orchestrator.

Record ExecuteParams : Type := {
  task : string;
  criteria : list string;
  params_maxIterations : nat;
  params_scoreThreshold : float
}.

(** What the loop reads of [generator.run]'s result. *)
Record GeneratorResult : Type := {
  output : string;
  generator_inputTokens : option nat
}.

(** What the loop reads of [discriminator.run]'s result. *)
Record DiscriminatorResult : Type := {
  result_feedback : DiscriminatorFeedback;
  discriminator_inputTokens : option nat
}.

(** The collaborators of one execution.  The two runners call a remote
    model, so what they answer (or throw) is not determined by their
    arguments alone: the iteration during which the call is made is an
    extra argument of the oracle.  [Date.now()] differences and
    [randomUUID()] are supplied by the environment as well. *)
Record Collaborators : Type := {
  generator_run :
    string -> option DiscriminatorFeedback -> nat -> Outcome GeneratorResult;
  discriminator_run :
    nat -> string -> list string -> string -> Outcome DiscriminatorResult;
  iteration_durationMs : nat -> Z;
  iteration_timestamp : nat -> string;
  randomUUID : string;
  elapsedMs : Z
}.

Record WorkflowResult : Type := {
  success : bool;
  workflowId : string;
  result_output : string;
  result_iterations : nat;
  finalScore : float;
  totalDurationMs : Z;
  result_reason : StopReason;
  iterationHistory : list IterationState
}.

(** [WorkflowExecutionError]: an [Error] with code
    [WORKFLOW_EXECUTION_ERROR] and [statusCode] 500. *)
Record WorkflowExecutionError : Type := {
  error_workflowId : string;
  cause : JsThrown
}.

Definition message_of (e : JsThrown) : string :=
  match e with
  | ThrownObject _ message _ _ => message
  | ThrownPrimitive repr => repr
  | ThrownUndefined => "undefined"
  end.

(** The message that the constructor builds from the cause. *)
Definition error_message (err : WorkflowExecutionError) : string :=
  ("Workflow " ++ error_workflowId err ++ " failed: " ++ message_of (cause err))%string.

(** The error as a thrown value. *)
Definition thrown_error (err : WorkflowExecutionError) : JsThrown :=
  ThrownObject true (error_message err) None (Some 500%Z).

(** How [execute] ends: with a result, or with the error that its [catch]
    block throws; [iterationsCompleted] is the count that this block logs
    first. *)
Inductive ExecuteOutcome : Type :=
| Resolved (result : WorkflowResult)
| Rejected (err : WorkflowExecutionError) (iterationsCompleted : nat).

(** The [let] variables of [execute] that the loop updates. *)
Record LoopState : Type := {
  iterations_ : list IterationState;
  currentOutput : string;
  lastFeedback : option DiscriminatorFeedback;
  stopReason : StopReason
}.

Definition initial_state : LoopState :=
  {| iterations_ := []; currentOutput := ""; lastFeedback := None;
     stopReason := max_iterations |}.

(** How the loop is left: by its guard or by [break], or by an exception
    of a runner or of the stop condition; either way with the variables
    as they are then. *)
Inductive LoopExit : Type :=
| Completed (st : LoopState)
| Failed (e : JsThrown) (st : LoopState).

Definition exit_state (x : LoopExit) : LoopState :=
  match x with Completed st | Failed _ st => st end.

Section Execute.

Variable env : Collaborators.
Variable stopConditions : StopCondition.
Variable params : ExecuteParams.

(** The body of the [for] loop for one value of [iteration]: either a
    runner throws, or the iteration is recorded and the stop conditions
    are asked; they throw, or say whether the loop breaks ([true]) or goes
    on ([false]).  The second component is what the loop variables hold
    then; of these the [catch] block reads the history only. *)
Definition iteration_body (iteration : nat) (st : LoopState)
  : Outcome bool * LoopState :=
  match generator_run env (task params) (lastFeedback st) iteration with
  | Throws e => (Throws e, st)
  | Returns generatorResult =>
      let currentOutput := output generatorResult in
      match discriminator_run env iteration currentOutput (criteria params) (task params) with
      | Throws e => (Throws e, st)
      | Returns discriminatorResult =>
          let lastFeedback := result_feedback discriminatorResult in
          let iterationState :=
            {| number := iteration;
               generatorOutput := currentOutput;
               feedback := lastFeedback;
               durationMs := iteration_durationMs env iteration;
               timestamp := iteration_timestamp env iteration;
               tokensUsed :=
                 {| generator := generator_inputTokens generatorResult;
                    discriminator := discriminator_inputTokens discriminatorResult |} |} in
          let iterations := iterations_ st ++ [iterationState] in
          let stopContext :=
            {| currentIteration := iteration;
               maxIterations := params_maxIterations params;
               scoreThreshold := params_scoreThreshold params;
               iterations := iterations;
               currentScore := score lastFeedback;
               currentPassed := passed lastFeedback |} in
          let st' stopReason :=
            {| iterations_ := iterations;
               currentOutput := currentOutput;
               lastFeedback := Some lastFeedback;
               stopReason := stopReason |} in
          match raises stopConditions stopContext with
          | Some e => (Throws e, st' (stopReason st))
          | None =>
              let stopResult := evaluate stopConditions stopContext in
              if shouldStop stopResult
              then (Returns true, st' (default threshold_reached (reason stopResult)))
              else (Returns false, st' (stopReason st))
          end
      end
  end.

(** [for (let iteration = 1; iteration <= params.maxIterations; iteration++)]
    with [break].  [fuel] bounds the number of passes; [None] means that it
    ran out before the loop guard failed. *)
Fixpoint run_loop (fuel : nat) (iteration : nat) (st : LoopState)
  : option LoopExit :=
  if (iteration <=? params_maxIterations params)%nat then
    match fuel with
    | O => None
    | S fuel' =>
        match iteration_body iteration st with
        | (Throws e, st') => Some (Failed e st')
        | (Returns true, st') => Some (Completed st')
        | (Returns false, st') => run_loop fuel' (S iteration) st'
        end
    end
  else Some (Completed st).

(** [error instanceof Error ? error : new Error(String(error))] *)
Definition as_Error (e : JsThrown) : JsThrown :=
  match e with
  | ThrownObject true _ _ _ => e
  | ThrownObject false _ _ _ => ThrownObject true "[object Object]" None None
  | ThrownPrimitive repr => ThrownObject true repr None None
  | ThrownUndefined => ThrownObject true "undefined" None None
  end.

(** What follows the loop inside the [try] block. *)
Definition finish (st : LoopState) : WorkflowResult :=
  let success := StopReason_eqb (stopReason st) threshold_reached in
  let finalScore := default 0%float (score <$> lastFeedback st) in
  {| success := success;
     workflowId := randomUUID env;
     result_output := currentOutput st;
     result_iterations := length (iterations_ st);
     finalScore := finalScore;
     totalDurationMs := elapsedMs env;
     result_reason := stopReason st;
     iterationHistory := iterations_ st |}.

Definition execute : option ExecuteOutcome :=
  match run_loop (params_maxIterations params) 1 initial_state with
  | None => None
  | Some (Completed st) => Some (Resolved (finish st))
  | Some (Failed e st) =>
      Some (Rejected {| error_workflowId := randomUUID env; cause := as_Error e |}
              (length (iterations_ st)))
  end.

(** The stop context that [execute] built in its last recorded iteration,
    recovered from the result (none when nothing was recorded). *)
Definition final_context (r : WorkflowResult) : option StopConditionContext :=
  match last (iterationHistory r) with
  | None => None
  | Some it =>
      Some {| currentIteration := number it;
              maxIterations := params_maxIterations params;
              scoreThreshold := params_scoreThreshold params;
              iterations := iterationHistory r;
              currentScore := score (feedback it);
              currentPassed := passed (feedback it) |}
  end.

(** The history is numbered 1, 2, ... up to the loop counter minus one. *)
Definition numbered_upto (iteration : nat) (st : LoopState) : Prop :=
  map number (iterations_ st) = seq 1 (iteration - 1).

(** The stop context of the last recorded iteration of a loop state. *)
Definition last_context (st : LoopState) : option StopConditionContext :=
  match last (iterations_ st) with
  | None => None
  | Some it =>
      Some {| currentIteration := number it;
              maxIterations := params_maxIterations params;
              scoreThreshold := params_scoreThreshold params;
              iterations := iterations_ st;
              currentScore := score (feedback it);
              currentPassed := passed (feedback it) |}
  end.

(** At the head of the loop the previous pass, if any, did not stop. *)
Definition head_invariant (st : LoopState) : Prop :=
  forall context, last_context st = Some context ->
    shouldStop (evaluate stopConditions context) = false.

(** After the loop, a stop decision of the last pass is the recorded one. *)
Definition exit_condition (st : LoopState) : Prop :=
  forall context, last_context st = Some context ->
    shouldStop (evaluate stopConditions context) = true ->
    stopReason st = default threshold_reached (reason (evaluate stopConditions context)).

(** The stop context that the loop builds right after [history] has been
    recorded (none when nothing has been recorded). *)
Definition context_of_history (history : list IterationState)
  : option StopConditionContext :=
  match last history with
  | None => None
  | Some it =>
      Some {| currentIteration := number it;
              maxIterations := params_maxIterations params;
              scoreThreshold := params_scoreThreshold params;
              iterations := history;
              currentScore := score (feedback it);
              currentPassed := passed (feedback it) |}
  end.

(** Whether the stop conditions, asked right after [history] has been
    recorded, tell the loop to break. *)
Definition stops_after (history : list IterationState) : bool :=
  match context_of_history history with
  | Some context => shouldStop (evaluate stopConditions context)
  | None => false
  end.

(** The record [it] is what one pass of the loop writes when the record
    before it is [previous]: the generator is given the feedback of
    [previous], the discriminator is given the generator's output. *)
Definition produced (previous : option IterationState) (it : IterationState) : Prop :=
  exists generatorResult discriminatorResult,
    generator_run env (task params) (feedback <$> previous) (number it)
    = Returns generatorResult
    /\ discriminator_run env (number it) (output generatorResult) (criteria params)
         (task params)
       = Returns discriminatorResult
    /\ it = {| number := number it;
               generatorOutput := output generatorResult;
               feedback := result_feedback discriminatorResult;
               durationMs := iteration_durationMs env (number it);
               timestamp := iteration_timestamp env (number it);
               tokensUsed :=
                 {| generator := generator_inputTokens generatorResult;
                    discriminator := discriminator_inputTokens discriminatorResult |} |}.

(** Every record of [history] was produced from the record before it. *)
Definition chained (history : list IterationState) : Prop :=
  forall (k : nat) (it : IterationState),
    history !! k = Some it ->
    number it = S k
    /\ produced (match k with O => None | S j => history !! j end) it.

(** What the loop variables hold while [iteration - 1] passes have been
    recorded and none of them has stopped the loop. *)
Definition recorded (iteration : nat) (st : LoopState) : Prop :=
  length (iterations_ st) = iteration - 1
  /\ lastFeedback st = feedback <$> last (iterations_ st)
  /\ currentOutput st = default "" (generatorOutput <$> last (iterations_ st))
  /\ chained (iterations_ st)
  /\ (forall k, k < length (iterations_ st) ->
        stops_after (take k (iterations_ st)) = false).

(** A runner throws [e] in the pass that follows the state [st]. *)
Definition thrown_in_pass (iteration : nat) (st : LoopState) (e : JsThrown) : Prop :=
  generator_run env (task params) (lastFeedback st) iteration = Throws e
  \/ exists generatorResult,
       generator_run env (task params) (lastFeedback st) iteration
       = Returns generatorResult
       /\ discriminator_run env iteration (output generatorResult) (criteria params)
            (task params)
          = Throws e.

(** How the loop can be left. *)
Definition loop_postcondition (out : LoopExit) : Prop :=
  match out with
  | Completed st =>
      exists N,
        recorded (S N) st
        /\ N <= params_maxIterations params
        /\ (if stops_after (iterations_ st)
            then match context_of_history (iterations_ st) with
                 | Some context =>
                     stopReason st
                     = default threshold_reached (reason (evaluate stopConditions context))
                 | None => False
                 end
            else N = params_maxIterations params /\ stopReason st = max_iterations)
  | Failed e st =>
      exists n,
        recorded (S n) st
        /\ n <= params_maxIterations params
        /\ (n < params_maxIterations params
            /\ stops_after (iterations_ st) = false
            /\ thrown_in_pass (S n) st e
            \/ exists context,
                 context_of_history (iterations_ st) = Some context
                 /\ raises stopConditions context = Some e)
  end.

End Execute.

End Orchestrator.
Import Orchestrator.

(** The scores that the stagnation condition looks at. *)
Definition scores_of (iterations : list IterationState) : list float :=
  map (fun iter => score (feedback iter)) iterations.

(** The stagnation rule in the words of the specification, on the list of
    recorded scores: nothing to decide below [N + 1] scores; otherwise the
    oldest of the last [N + 1] scores is the baseline and the rule fires
    when no later score of the window exceeds it by more than [t]. *)
Definition stagnation_rule (N : nat) (t : float) (scores : list float) : bool :=
  if (length scores <? N + 1)%nat then false
  else match slice_last (N + 1) scores with
       | [] => false
       | baseline :: later =>
           forallb (fun s => negb (PrimFloat.ltb t (PrimFloat.sub s baseline))) later
       end.

(* ===================================================================== *)
(** ** core/runners/discriminator.runner.ts: the response interpreter *)
(* ===================================================================== *)

(** String primitives of the engine.  Strings are sequences of bytes here;
    the white-space class is the ASCII part of the one that [trim] and the
    regular-expression class [\s] use. *)
Module Str.

Definition is_whitespace (c : ascii) : bool :=
  match nat_of_ascii c with
  | 9 | 10 | 11 | 12 | 13 | 32 => true
  | _ => false
  end.

Fixpoint trimStart (s : string) : string :=
  match s with
  | EmptyString => EmptyString
  | String c rest => if is_whitespace c then trimStart rest else s
  end.

Fixpoint rev_onto (s acc : string) : string :=
  match s with
  | EmptyString => acc
  | String c rest => rev_onto rest (String c acc)
  end.

Definition reverse (s : string) : string := rev_onto s EmptyString.

Definition trimEnd (s : string) : string := reverse (trimStart (reverse s)).

Definition trim (s : string) : string := trimEnd (trimStart s).

Fixpoint drop (n : nat) (s : string) : string :=
  match n, s with
  | O, _ => s
  | S n', EmptyString => EmptyString
  | S n', String _ rest => drop n' rest
  end.

(** [s.indexOf(pattern)], with [None] for [-1]. *)
Definition indexOf (pattern s : string) : option nat := String.index 0 pattern s.

(** [s.substring(first, last)] for [first <= last]. *)
Definition substring (first last : nat) (s : string) : string :=
  String.substring first (last - first) s.

Definition is_empty (s : string) : bool :=
  match s with EmptyString => true | _ => false end.

End Str.

Module Json.

(** The values that [JSON.parse] produces. *)
Inductive value : Type :=
| JNull
| JBool (b : bool)
| JNumber (x : float)
| JString (s : string)
| JArray (items : list value)
| JObject (fields : list (string * value)).

(** Property access [obj[key]]: [None] is [undefined]. *)
Fixpoint get (key : string) (fields : list (string * value)) : option value :=
  match fields with
  | [] => None
  | (k, v) :: rest => if String.eqb k key then Some v else get key rest
  end.

End Json.

Module Interpreter.

Import Json.

(** [z.array(z.string())] *)
Fixpoint parse_string_array (items : list value) : option (list string) :=
  match items with
  | [] => Some []
  | JString s :: rest =>
      match parse_string_array rest with
      | Some l => Some (s :: l)
      | None => None
      end
  | _ :: _ => None
  end.

(** [DiscriminatorFeedbackSchema.parse]: [None] stands for the [ZodError]
    that it throws.  Unknown keys are stripped; [reasoning] may be absent. *)
Definition DiscriminatorFeedbackSchema_parse (v : value) : option DiscriminatorFeedback :=
  match v with
  | JObject fields =>
      match get "passed" fields, get "score" fields,
            get "issues" fields, get "suggestions" fields with
      | Some (JBool p), Some (JNumber x), Some (JArray items), Some (JString sugg) =>
          if score_in_range x then
            match parse_string_array items with
            | Some iss =>
                match get "reasoning" fields with
                | None =>
                    Some {| passed := p; score := x; issues := iss;
                            suggestions := sugg; reasoning := None |}
                | Some (JString r) =>
                    Some {| passed := p; score := x; issues := iss;
                            suggestions := sugg; reasoning := Some r |}
                | Some _ => None
                end
            | None => None
            end
          else None
      | _, _, _, _ => None
      end
  | _ => None
  end.

Section Parse.

(** [JSON.parse]; [None] stands for the [SyntaxError] that it throws. *)
Variable JSON_parse : string -> option value.

(** [JSON.parse] followed by the schema, inside one [try] block. *)
Definition parse_and_validate (text : string) : option DiscriminatorFeedback :=
  match JSON_parse text with
  | Some parsed => DiscriminatorFeedbackSchema_parse parsed
  | None => None
  end.

(** Strategy 1 *)
Definition tryParseDirectJson (response : string) : option DiscriminatorFeedback :=
  let trimmed := Str.trim response in
  parse_and_validate trimmed.

(** Capture group 1 of the leftmost match of [opening\s*([\s\S]*?)```]:
    the match starts at the first occurrence of [opening], the greedy [\s*]
    takes the whole run of white space, and the lazy group ends at the next
    fence. *)
Definition match_fence (opening : string) (response : string) : option string :=
  match Str.indexOf opening response with
  | None => None
  | Some start =>
      let body := Str.trimStart (Str.drop (start + String.length opening) response) in
      match Str.indexOf "```" body with
      | None => None
      | Some stop => Some (Str.substring 0 stop body)
      end
  end.

(** [if (match?.[1]) { try { ... } catch { } }] *)
Definition try_block (m : option string) : option DiscriminatorFeedback :=
  match m with
  | Some captured =>
      if Str.is_empty captured then None
      else parse_and_validate (Str.trim captured)
  | None => None
  end.

(** Strategy 2 *)
Definition tryParseCodeBlock (response : string) : option DiscriminatorFeedback :=
  let jsonBlockMatch := match_fence "```json" response in
  match try_block jsonBlockMatch with
  | Some validated => Some validated
  | None =>
      let genericBlockMatch := match_fence "```" response in
      try_block genericBlockMatch
  end.

(** The depth-counting loop of strategy 3, started at index [i] with the
    characters that remain: the index at which [depth] returns to zero. *)
Fixpoint find_closing (remaining : string) (i : nat) (depth : Z) : option nat :=
  match remaining with
  | EmptyString => None
  | String char rest =>
      if Ascii.eqb char "{" then find_closing rest (S i) (depth + 1)
      else if Ascii.eqb char "}" then
        let depth := (depth - 1)%Z in
        if (depth =? 0)%Z then Some i else find_closing rest (S i) depth
      else find_closing rest (S i) depth
  end.

(** Strategy 3 *)
Definition tryExtractBalancedJson (response : string) : option DiscriminatorFeedback :=
  match Str.indexOf "{" response with
  | None => None
  | Some startIndex =>
      match find_closing (Str.drop startIndex response) startIndex 0 with
      | None => None
      | Some endIndex =>
          let jsonString := Str.substring startIndex (endIndex + 1) response in
          parse_and_validate jsonString
      end
  end.

Definition createFallbackFeedback (rawResponse : string) : DiscriminatorFeedback :=
  {| passed := false;
     score := 0.3%float;
     issues := [ "Evaluation response could not be parsed";
                 "The evaluator did not return valid JSON feedback" ];
     suggestions :=
       "The system will retry the evaluation. If this persists, the workflow may need manual review.";
     reasoning :=
       Some ("Parse error occurred while processing the discriminator response. "
             ++ "This is a system issue, not a reflection of the content quality.")%string |}.

Definition strategies (response : string) : list (unit -> option DiscriminatorFeedback) :=
  [ fun _ => tryParseDirectJson response;
    fun _ => tryParseCodeBlock response;
    fun _ => tryExtractBalancedJson response ].

(** [for (const strategy of strategies) { ... if (result) return result; }] *)
Fixpoint first_result (l : list (unit -> option DiscriminatorFeedback))
  : option DiscriminatorFeedback :=
  match l with
  | [] => None
  | strategy :: rest =>
      match strategy tt with
      | Some result => Some result
      | None => first_result rest
      end
  end.

Definition parseResponse (response : string) : DiscriminatorFeedback :=
  match first_result (strategies response) with
  | Some result => result
  | None => createFallbackFeedback response
  end.

End Parse.

End Interpreter.
Import Interpreter.

(** The nesting depth at the end of [s], as strategy 3 counts it: opening
    braces minus closing braces, whether or not they stand inside a JSON
    string. *)
Fixpoint brace_depth (s : string) : Z :=
  match s with
  | EmptyString => 0%Z
  | String char rest =>
      ((if Ascii.eqb char "{" then 1
        else if Ascii.eqb char "}" then -1
        else 0)
       + brace_depth rest)%Z
  end.

(* ===================================================================== *)
(** ** shared/utils/retry.ts: the retry executor *)
(* ===================================================================== *)

Module Retry.

(** The arithmetic of JavaScript numbers that [calculateDelay] uses.  The
    development is generic in it: the binary64 operations of the engine are
    one instance, the exact rationals below are another. *)
Class JsNumber (Num : Type) : Type := {
  of_Z : Z -> Num;
  num_mul : Num -> Num -> Num;
  num_add : Num -> Num -> Num;
  (** [Math.pow(base, attempt - 1)] for an attempt number [attempt >= 1] *)
  Math_pow : Num -> nat -> Num;
  Math_min : Num -> Num -> Num;
  Math_floor : Num -> Num
}.

#[export] Instance Q_JsNumber : JsNumber Q := {|
  of_Z := inject_Z;
  num_mul := Qmult;
  num_add := Qplus;
  Math_pow := fun base n => Qpower base (Z.of_nat n);
  Math_min := fun a b => if Qle_bool a b then a else b;
  Math_floor := fun q => inject_Z (Qfloor q)
|}.

(** [String.prototype.toLowerCase] on ASCII letters. *)
Definition lower_ascii (c : ascii) : ascii :=
  let n := nat_of_ascii c in
  if (65 <=? n)%nat && (n <=? 90)%nat then ascii_of_nat (n + 32) else c.

Fixpoint toLowerCase (s : string) : string :=
  match s with
  | EmptyString => EmptyString
  | String c rest => String (lower_ascii c) (toLowerCase rest)
  end.

Definition includes (s pattern : string) : bool :=
  match Str.indexOf pattern s with Some _ => true | None => false end.

(** [status ?? statusCode] *)
Definition nullish_or {A : Type} (a b : option A) : option A :=
  match a with Some x => Some x | None => b end.

Definition defaultShouldRetry (error : JsThrown) (_attempt : nat) : bool :=
  let by_message :=
    match error with
    | ThrownObject true message _ _ =>
        let message := toLowerCase message in
        if includes message "econnrefused"
           || includes message "etimedout"
           || includes message "enotfound"
           || includes message "network"
           || includes message "socket"
        then true
        else if includes message "rate limit" || includes message "429" then true
        else if includes message "500" || includes message "502" || includes message "503"
        then true
        else if includes message "timeout" then true
        else false
    | _ => false
    end in
  if by_message then true
  else
    match error with
    | ThrownObject _ _ status statusCode =>
        match nullish_or status statusCode with
        | Some statusCode => (statusCode =? 429)%Z || (500 <=? statusCode)%Z
        | None => false
        end
    | _ => false
    end.

(** What the retry executor does that a caller can observe, in order. *)
Inductive Event (Num : Type) : Type :=
| EvAttempt (attempt : nat)
| EvOnRetry (error : JsThrown) (attempt : nat) (delayMs : Num)
| EvSleep (delayMs : Num).
Arguments EvAttempt {Num} attempt.
Arguments EvOnRetry {Num} error attempt delayMs.
Arguments EvSleep {Num} delayMs.

Section Executor.

Context {Num : Type} `{JsNumber Num}.

(** [RetryOptions].  [shouldRetry] is a predicate that returns, as its type
    [(error, attempt) => boolean] declares: [retry] calls it outside any
    [try], so a predicate that throws would end the run with its own
    exception, a case this record does not represent.  [onRetry] may throw.
    [maxAttempts] is a natural number. *)
Record RetryOptions : Type := {
  maxAttempts : option nat;
  initialDelayMs : option Num;
  maxDelayMs : option Num;
  backoffMultiplier : option Num;
  jitter : option bool;
  shouldRetry : option (JsThrown -> nat -> bool);
  onRetry : option (JsThrown -> nat -> Num -> Outcome unit)
}.

(** [Required<Omit<RetryOptions, "shouldRetry" | "onRetry">>] *)
Record DelayOptions : Type := {
  opt_maxAttempts : nat;
  opt_initialDelayMs : Num;
  opt_maxDelayMs : Num;
  opt_backoffMultiplier : Num;
  opt_jitter : bool
}.

Definition DEFAULT_OPTIONS : DelayOptions :=
  {| opt_maxAttempts := 3;
     opt_initialDelayMs := of_Z 1000;
     opt_maxDelayMs := of_Z 30000;
     opt_backoffMultiplier := of_Z 2;
     opt_jitter := true |}.

(** [{ ...DEFAULT_OPTIONS, ...options }] *)
Definition merge_options (options : RetryOptions) : DelayOptions :=
  {| opt_maxAttempts := default (opt_maxAttempts DEFAULT_OPTIONS) (maxAttempts options);
     opt_initialDelayMs := default (opt_initialDelayMs DEFAULT_OPTIONS) (initialDelayMs options);
     opt_maxDelayMs := default (opt_maxDelayMs DEFAULT_OPTIONS) (maxDelayMs options);
     opt_backoffMultiplier :=
       default (opt_backoffMultiplier DEFAULT_OPTIONS) (backoffMultiplier options);
     opt_jitter := default (opt_jitter DEFAULT_OPTIONS) (jitter options) |}.

Definition no_options : RetryOptions :=
  {| maxAttempts := None; initialDelayMs := None; maxDelayMs := None;
     backoffMultiplier := None; jitter := None; shouldRetry := None; onRetry := None |}.

(** The state that a run threads: how many values [Math.random] has
    produced so far, and the events so far (oldest first). *)
Record RetryState : Type := {
  draws : nat;
  trace : list (Event Num)
}.

Definition fresh_state : RetryState := {| draws := 0; trace := [] |}.

Definition log_event (ev : Event Num) (st : RetryState) : RetryState :=
  {| draws := draws st; trace := trace st ++ [ev] |}.

(** The random source: its [n]-th draw. *)
Variable Math_random : nat -> Num.

Definition next_random (st : RetryState) : Num * RetryState :=
  (Math_random (draws st), {| draws := S (draws st); trace := trace st |}).

Definition calculateDelay (attempt : nat) (options : DelayOptions) (st : RetryState)
  : Num * RetryState :=
  let exponentialDelay :=
    num_mul (opt_initialDelayMs options) (Math_pow (opt_backoffMultiplier options) (attempt - 1)) in
  let cappedDelay := Math_min exponentialDelay (opt_maxDelayMs options) in
  if opt_jitter options then
    let '(r, st) := next_random st in
    let jitterRange := num_mul cappedDelay r in
    (Math_floor (num_add cappedDelay jitterRange), st)
  else (Math_floor cappedDelay, st).

Variable T : Type.

(** The wrapped call: what its [attempt]-th invocation does. *)
Variable fn : nat -> Outcome T.

Variable options : RetryOptions.

Definition opts : DelayOptions := merge_options options.

Definition shouldRetry_ : JsThrown -> nat -> bool :=
  default defaultShouldRetry (shouldRetry options).

(** [options.onRetry?.(error, attempt, delayMs)] *)
Definition call_onRetry (error : JsThrown) (attempt : nat) (delayMs : Num)
  (st : RetryState) : Outcome unit * RetryState :=
  match onRetry options with
  | Some callback =>
      (callback error attempt delayMs, log_event (EvOnRetry error attempt delayMs) st)
  | None => (Returns tt, st)
  end.

(** The [for] loop of [retry].  An exception raised inside the [catch]
    block (by [throw error] or by the callback) leaves the function.
    [fuel] bounds the number of passes; [None] means that it ran out. *)
Fixpoint retry_loop (fuel : nat) (attempt : nat) (lastError : JsThrown) (st : RetryState)
  : option (Outcome T * RetryState) :=
  if (attempt <=? opt_maxAttempts opts)%nat then
    match fuel with
    | O => None
    | S fuel' =>
        let st := log_event (EvAttempt attempt) st in
        match fn attempt with
        | Returns value => Some (Returns value, st)
        | Throws error =>
            if (attempt =? opt_maxAttempts opts)%nat then Some (Throws error, st)
            else if negb (shouldRetry_ error attempt) then Some (Throws error, st)
            else
              let '(delayMs, st) := calculateDelay attempt opts st in
              match call_onRetry error attempt delayMs st with
              | (Throws raised, st) => Some (Throws raised, st)
              | (Returns _, st) =>
                  retry_loop fuel' (S attempt) error (log_event (EvSleep delayMs) st)
              end
        end
    end
  else Some (Throws lastError, st).

Definition retry : option (Outcome T * RetryState) :=
  retry_loop (opt_maxAttempts opts) 1 ThrownUndefined fresh_state.

(** The wait that follows a failed attempt: the backoff delay of that
    attempt, jittered (when jitter is on) by the draw that the random
    source produces at that point of a run. *)
Definition scheduled_delay (attempt : nat) : Num :=
  fst (calculateDelay attempt opts {| draws := attempt - 1; trace := [] |}).

End Executor.

Arguments RetryOptions Num : clear implicits.
Arguments DelayOptions Num : clear implicits.
Arguments RetryState Num : clear implicits.

(** Counters over a trace. *)
Definition is_attempt {Num : Type} (ev : Event Num) : bool :=
  match ev with EvAttempt _ => true | _ => false end.
Definition is_onRetry {Num : Type} (ev : Event Num) : bool :=
  match ev with EvOnRetry _ _ _ => true | _ => false end.
Definition is_sleep {Num : Type} (ev : Event Num) : bool :=
  match ev with EvSleep _ => true | _ => false end.

Definition attempts_made {Num : Type} (st : RetryState Num) : nat :=
  length (List.filter is_attempt (trace st)).
Definition onRetry_calls {Num : Type} (st : RetryState Num) : nat :=
  length (List.filter is_onRetry (trace st)).
Definition sleeps {Num : Type} (st : RetryState Num) : list Num :=
  flat_map (fun ev => match ev with EvSleep d => [d] | _ => [] end) (trace st).

(** The delay formula in the words of the specification. *)
Definition capped_delay {Num : Type} `{JsNumber Num}
  (initialDelay backoffMultiplier maxDelay : Num) (a : nat) : Num :=
  Math_min (num_mul initialDelay (Math_pow backoffMultiplier (a - 1))) maxDelay.

(** The retry classes in the words of the specification and of the doc
    comment of [defaultShouldRetry], for an error that carries an HTTP
    status: rate-limit responses (429) and server-side errors (5xx) are
    retried; every other client error (4xx) is fatal, validation and
    authentication failures among them. *)
Inductive RetryClass : Type :=
| Retried
| Fatal.

Definition class_of_status (code : Z) : option RetryClass :=
  if (code =? 429)%Z then Some Retried
  else if (500 <=? code)%Z && (code <=? 599)%Z then Some Retried
  else if (400 <=? code)%Z && (code <=? 499)%Z then Some Fatal
  else None.

Definition documented_class (error : JsThrown) : option RetryClass :=
  match error with
  | ThrownObject _ _ status statusCode =>
      match nullish_or status statusCode with
      | Some code => class_of_status code
      | None => None
      end
  | _ => None
  end.

Section Runs.

Context {Num : Type} `{JsNumber Num}.
Variable T : Type.
Variable fn : nat -> Outcome T.
Variable options : RetryOptions Num.

(** Attempt [a] throws an error that the policy in force retries. *)
Definition retryable_failure (a : nat) : Prop :=
  exists e, fn a = Throws e /\ shouldRetry_ options e a = true.

(** The [onRetry] callback, when there is one, returns normally. *)
Definition callback_returns : Prop :=
  forall callback, onRetry options = Some callback ->
    forall e a d, callback e a d = Returns tt.

(** Attempt [a] ends the run: it succeeds, or it is the last one, or its
    error is not retried. *)
Definition settles (a : nat) (out : Outcome T) : Prop :=
  match out with
  | Returns _ => True
  | Throws e =>
      a = opt_maxAttempts (merge_options options) \/ shouldRetry_ options e a = false
  end.

(** How many callback invocations [k] retries cause. *)
Definition expected_callbacks (k : nat) : nat :=
  match onRetry options with Some _ => k | None => 0 end.

End Runs.

(** Two states agree on what the loop reads and on what a caller sees of
    the control flow. *)
Definition same_flow {Num : Type} (st1 st2 : RetryState Num) : Prop :=
  draws st1 = draws st2
  /\ sleeps st1 = sleeps st2
  /\ attempts_made st1 = attempts_made st2.

(** The same options with the [onRetry] callback left out. *)
Definition without_callback {Num : Type} (options : RetryOptions Num) : RetryOptions Num :=
  {| maxAttempts := maxAttempts options;
     initialDelayMs := initialDelayMs options;
     maxDelayMs := maxDelayMs options;
     backoffMultiplier := backoffMultiplier options;
     jitter := jitter options;
     shouldRetry := shouldRetry options;
     onRetry := None |}.

(** Traces in which every wait directly follows an invocation of the
    callback with the error of the failed attempt, the attempt number and
    the delay of that wait. *)
Inductive announced {Num T : Type} (fn : nat -> Outcome T) : list (Event Num) -> Prop :=
| announced_nil : announced fn []
| announced_attempt (tr : list (Event Num)) (a : nat) :
    announced fn tr -> announced fn (tr ++ [EvAttempt a])
| announced_wait (tr : list (Event Num)) (e : JsThrown) (a : nat) (d : Num) :
    announced fn tr -> fn a = Throws e ->
    announced fn (tr ++ [EvOnRetry e a d; EvSleep d])
| announced_raise (tr : list (Event Num)) (e : JsThrown) (a : nat) (d : Num) :
    announced fn tr -> fn a = Throws e ->
    announced fn (tr ++ [EvOnRetry e a d]).

(** What holds when the loop is about to make attempt [a]. *)
Definition at_attempt {Num : Type} `{JsNumber Num} (Math_random : nat -> Num)
  (options : RetryOptions Num) (a : nat) (st : RetryState Num) : Prop :=
  attempts_made st = a - 1
  /\ sleeps st = map (scheduled_delay Math_random options) (seq 1 (a - 1))
  /\ onRetry_calls st <= a - 1
  /\ (opt_jitter (opts options) = true -> draws st = a - 1).

(** What holds when the run is over after [n] attempts. *)
Definition after_attempts {Num : Type} `{JsNumber Num} (Math_random : nat -> Num)
  (options : RetryOptions Num) (n : nat) (st : RetryState Num) : Prop :=
  attempts_made st = n
  /\ sleeps st = map (scheduled_delay Math_random options) (seq 1 (n - 1))
  /\ onRetry_calls st <= n.

End Retry.
Import Retry.

(* ===================================================================== *)
(** ** core/runners/base.runner.ts *)
(* ===================================================================== *)

Module Runner.

Section BaseRunner.

Context {Num : Type} `{JsNumber Num}.

(** The argument of [provider.complete]. *)
Record CompletionRequest : Type := {
  req_model : string;
  req_systemPrompt : string;
  req_userPrompt : string;
  req_maxTokens : nat;
  req_temperature : option Num
}.

Record Usage : Type := {
  inputTokens : nat;
  outputTokens : nat
}.

(** What [executeCompletion] reads of a [CompletionResponse]. *)
Record CompletionResponse : Type := {
  response_content : string;
  response_usage : option Usage
}.

Record RunnerResult : Type := {
  content : string;
  usage : option Usage;
  runner_durationMs : Z
}.

(** The provider calls a remote model: what it answers is not determined
    by the request alone, so the number of the attempt that makes the call
    is an extra argument. *)
Record BaseRunnerConfig : Type := {
  cfg_provider : CompletionRequest -> nat -> Outcome CompletionResponse;
  cfg_model : string;
  cfg_maxTokens : option nat;
  cfg_temperature : option Num;
  cfg_retryOptions : option (RetryOptions Num)
}.

Record BaseRunner : Type := {
  provider : CompletionRequest -> nat -> Outcome CompletionResponse;
  model : string;
  maxTokens : nat;
  temperature : option Num;
  retryOptions : RetryOptions Num
}.

Definition default_retryOptions : RetryOptions Num :=
  {| maxAttempts := Some 3;
     initialDelayMs := Some (of_Z 1000);
     maxDelayMs := Some (of_Z 10000);
     backoffMultiplier := None; jitter := None; shouldRetry := None; onRetry := None |}.

Definition BaseRunner_new (config : BaseRunnerConfig) : BaseRunner :=
  {| provider := cfg_provider config;
     model := cfg_model config;
     maxTokens := default 4096 (cfg_maxTokens config);
     temperature := cfg_temperature config;
     retryOptions := default default_retryOptions (cfg_retryOptions config) |}.

(** The [onRetry] callback of [executeCompletion]: it logs a warning and
    returns. *)
Definition log_retry (error : JsThrown) (attempt : nat) (delayMs : Num) : Outcome unit :=
  Returns tt.

(** [{ ...options, onRetry: callback }] *)
Definition with_onRetry (options : RetryOptions Num)
  (callback : JsThrown -> nat -> Num -> Outcome unit) : RetryOptions Num :=
  {| maxAttempts := maxAttempts options;
     initialDelayMs := initialDelayMs options;
     maxDelayMs := maxDelayMs options;
     backoffMultiplier := backoffMultiplier options;
     jitter := jitter options;
     shouldRetry := shouldRetry options;
     onRetry := Some callback |}.

Variable Math_random : nat -> Num.

Definition request_of (this : BaseRunner) (systemPrompt userPrompt : string)
  : CompletionRequest :=
  {| req_model := model this;
     req_systemPrompt := systemPrompt;
     req_userPrompt := userPrompt;
     req_maxTokens := maxTokens this;
     req_temperature := temperature this |}.

(** What [executeCompletion] makes of a response; [elapsed] is the
    difference of the two clock readings. *)
Definition result_of (elapsed : Z) (response : CompletionResponse) : RunnerResult :=
  {| content := response_content response;
     usage := response_usage response;
     runner_durationMs := elapsed |}.

Definition executeCompletion (this : BaseRunner) (systemPrompt userPrompt : string)
  (elapsed : Z) : option (Outcome RunnerResult * RetryState Num) :=
  match retry Math_random CompletionResponse
          (provider this (request_of this systemPrompt userPrompt))
          (with_onRetry (retryOptions this) log_retry) with
  | None => None
  | Some (Returns response, st) => Some (Returns (result_of elapsed response), st)
  | Some (Throws error, st) => Some (Throws error, st)
  end.

End BaseRunner.

Arguments CompletionRequest Num : clear implicits.
Arguments BaseRunnerConfig Num : clear implicits.
Arguments BaseRunner Num : clear implicits.

End Runner.

(* ===================================================================== *)
(** ** core/runners: the two runners, and how the orchestrator wires them *)
(* ===================================================================== *)

Module Runners.

Section Runners.

Context {Num : Type} `{JsNumber Num}.

Variable JSON_parse : string -> option Json.value.

(** The prompt builders of [core/runners/prompts]. *)
Variable buildGeneratorSystemPrompt : string.
Variable buildGeneratorUserPrompt : string -> option DiscriminatorFeedback -> nat -> string.
Variable buildDiscriminatorSystemPrompt : string.
Variable buildDiscriminatorUserPrompt : string -> list string -> string -> string.

(** [{ ...config, maxTokens: config.maxTokens ?? n }] *)
Definition with_maxTokens (config : Runner.BaseRunnerConfig Num) (n : nat)
  : Runner.BaseRunnerConfig Num :=
  {| Runner.cfg_provider := Runner.cfg_provider config;
     Runner.cfg_model := Runner.cfg_model config;
     Runner.cfg_maxTokens := Some (default n (Runner.cfg_maxTokens config));
     Runner.cfg_temperature := Runner.cfg_temperature config;
     Runner.cfg_retryOptions := Runner.cfg_retryOptions config |}.

Definition GeneratorRunner_new (config : Runner.BaseRunnerConfig Num) : Runner.BaseRunner Num :=
  Runner.BaseRunner_new (with_maxTokens config 4096).

Definition DiscriminatorRunner_new (config : Runner.BaseRunnerConfig Num)
  : Runner.BaseRunner Num :=
  Runner.BaseRunner_new (with_maxTokens config 2048).

(** [GeneratorRunner.run], as far as the orchestrator reads its result. *)
Definition GeneratorRunner_run (Math_random : nat -> Num) (this : Runner.BaseRunner Num)
  (task : string) (previousFeedback : option DiscriminatorFeedback)
  (iterationNumber : nat) (elapsed : Z)
  : option (Outcome GeneratorResult * RetryState Num) :=
  let systemPrompt := buildGeneratorSystemPrompt in
  let userPrompt := buildGeneratorUserPrompt task previousFeedback iterationNumber in
  match Runner.executeCompletion Math_random this systemPrompt userPrompt elapsed with
  | None => None
  | Some (Throws error, st) => Some (Throws error, st)
  | Some (Returns result, st) =>
      Some (Returns {| output := Runner.content result;
                       generator_inputTokens :=
                         Runner.inputTokens <$> Runner.usage result |}, st)
  end.

(** [DiscriminatorRunner.run], as far as the orchestrator reads its
    result. *)
Definition DiscriminatorRunner_run (Math_random : nat -> Num) (this : Runner.BaseRunner Num)
  (output : string) (criteria : list string) (task : string) (elapsed : Z)
  : option (Outcome DiscriminatorResult * RetryState Num) :=
  let systemPrompt := buildDiscriminatorSystemPrompt in
  let userPrompt := buildDiscriminatorUserPrompt task criteria output in
  match Runner.executeCompletion Math_random this systemPrompt userPrompt elapsed with
  | None => None
  | Some (Throws error, st) => Some (Throws error, st)
  | Some (Returns result, st) =>
      let feedback := parseResponse JSON_parse (Runner.content result) in
      Some (Returns {| result_feedback := feedback;
                       discriminator_inputTokens :=
                         Runner.inputTokens <$> Runner.usage result |}, st)
  end.

(** What is outside the process during one execution.  The model, the
    random source and the clock answer differently from call to call: the
    iteration and the runner that makes the call ([true] for the
    generator) are extra arguments. *)
Record Surroundings : Type := {
  complete :
    nat -> bool -> Runner.CompletionRequest Num -> nat -> Outcome Runner.CompletionResponse;
  random : nat -> bool -> nat -> Num;
  completion_elapsed : nat -> bool -> Z;
  pass_durationMs : nat -> Z;
  pass_timestamp : nat -> string;
  uuid : string;
  total_elapsedMs : Z
}.

(** The part of [OrchestratorConfig] that the constructor passes on. *)
Record OrchestratorConfig : Type := {
  generatorModel : string;
  discriminatorModel : string
}.

(** The runner that the constructor of [RalphOrchestrator] builds, on the
    provider as it answers during one call. *)
Definition runner_config (provider :
    Runner.CompletionRequest Num -> nat -> Outcome Runner.CompletionResponse)
  (model : string) (maxTokens : nat) : Runner.BaseRunnerConfig Num :=
  {| Runner.cfg_provider := provider;
     Runner.cfg_model := model;
     Runner.cfg_maxTokens := Some maxTokens;
     Runner.cfg_temperature := None;
     Runner.cfg_retryOptions := None |}.

(** The outcome of a run of the retry loop.  The loop always settles;
    the second case does not arise. *)
Definition settled {A S : Type} (run : option (Outcome A * S)) : Outcome A :=
  match run with
  | Some (outcome, _) => outcome
  | None => Throws ThrownUndefined
  end.

(** The collaborators of [execute] when the orchestrator is built by its
    constructor. *)
Definition collaborators (config : OrchestratorConfig) (world : Surroundings)
  : Collaborators :=
  {| generator_run := fun task previousFeedback iteration =>
       settled (GeneratorRunner_run (random world iteration true)
                  (GeneratorRunner_new
                     (runner_config (complete world iteration true)
                        (generatorModel config) 4096))
                  task previousFeedback iteration
                  (completion_elapsed world iteration true));
     discriminator_run := fun iteration output criteria task =>
       settled (DiscriminatorRunner_run (random world iteration false)
                  (DiscriminatorRunner_new
                     (runner_config (complete world iteration false)
                        (discriminatorModel config) 2048))
                  output criteria task
                  (completion_elapsed world iteration false));
     iteration_durationMs := pass_durationMs world;
     iteration_timestamp := pass_timestamp world;
     randomUUID := uuid world;
     elapsedMs := total_elapsedMs world |}.

End Runners.

End Runners.

(* ===================================================================== *)
(** ** Sample inputs *)
(* ===================================================================== *)

Module Samples.

Definition rate_limit_error : JsThrown :=
  ThrownObject true "Rate limit exceeded" None None.

Definition callback_error : JsThrown :=
  ThrownObject true "metrics sink unavailable" None None.

(** A validation failure: a client error with status 400. *)
Definition validation_error : JsThrown :=
  ThrownObject true "batch of 5000 items rejected" (Some 400%Z) None.

(** A server-side error that is named in the message only. *)
Definition gateway_error : JsThrown :=
  ThrownObject true "upstream answered 504" None None.

(** A call that meets a rate limit on attempts 1 and 2 and then succeeds. *)
Definition fails_twice_then_succeeds (attempt : nat) : Outcome nat :=
  if (attempt <=? 2)%nat then Throws rate_limit_error else Returns 42.

(** A call that meets a rate limit on attempt 1 and then succeeds. *)
Definition fails_once_then_succeeds (attempt : nat) : Outcome nat :=
  if (attempt <=? 1)%nat then Throws rate_limit_error else Returns 42.

(** A seeded random source: every draw is one half. *)
Definition steady_half (n : nat) : Q := 1 # 2.

Definition observing_callback (e : JsThrown) (attempt : nat) (delayMs : Q) : Outcome unit :=
  Returns tt.

Definition failing_callback (e : JsThrown) (attempt : nat) (delayMs : Q) : Outcome unit :=
  Throws callback_error.

(** A callback that fails when it announces the retry of attempt 2. *)
Definition callback_failing_on_second (e : JsThrown) (attempt : nat) (delayMs : Q)
  : Outcome unit :=
  if (attempt =? 2)%nat then Throws callback_error else Returns tt.

Definition options_with (callback : JsThrown -> nat -> Q -> Outcome unit) : RetryOptions Q :=
  {| maxAttempts := Some 3; initialDelayMs := None; maxDelayMs := None;
     backoffMultiplier := None; jitter := None; shouldRetry := None;
     onRetry := Some callback |}.

(** The default delays, without jitter. *)
Definition no_jitter_options : DelayOptions Q :=
  {| opt_maxAttempts := 3; opt_initialDelayMs := 1000%Q; opt_maxDelayMs := 30000%Q;
     opt_backoffMultiplier := 2%Q; opt_jitter := false |}.

(** Runners that always answer: the feedback of iteration [i] has score
    [scores i] and passed flag [passes i]. *)
Definition collaborators_scoring (scores : nat -> float) (passes : nat -> bool)
  : Collaborators :=
  {| generator_run := fun _ _ _ =>
       Returns {| output := "draft"; generator_inputTokens := None |};
     discriminator_run := fun iteration _ _ _ =>
       Returns {| result_feedback := feedback_of_score (passes iteration) (scores iteration);
                  discriminator_inputTokens := None |};
     iteration_durationMs := fun _ => 0%Z;
     iteration_timestamp := fun _ => "2026-01-01T00:00:00.000Z";
     randomUUID := "00000000-0000-4000-8000-000000000000";
     elapsedMs := 0%Z |}.

(** A custom stop condition that stops at once and gives no reason. *)
Definition stop_without_reason : StopCondition :=
  {| name := "custom";
     evaluate := fun _ => {| shouldStop := true; reason := None; message := None |};
     raises := never |}.

(** A custom stop condition that throws whenever it is asked. *)
Definition throwing_condition : StopCondition :=
  {| name := "custom";
     evaluate := fun _ => continue_;
     raises := fun _ => Some (ThrownObject true "condition failed" None None) |}.

Definition three_iterations : ExecuteParams :=
  {| task := "write a haiku"; criteria := ["three lines"];
     params_maxIterations := 3; params_scoreThreshold := 0.7%float |}.

(** A provider that meets a rate limit on attempt 1 and then answers. *)
Definition provider_failing_once (request : Runner.CompletionRequest Q) (attempt : nat)
  : Outcome Runner.CompletionResponse :=
  if (attempt <=? 1)%nat then Throws rate_limit_error
  else Returns {| Runner.response_content := "an old pond";
                  Runner.response_usage := None |}.

(** A runner on that provider, with a retry callback of its own. *)
Definition runner_config : Runner.BaseRunnerConfig Q :=
  {| Runner.cfg_provider := provider_failing_once;
     Runner.cfg_model := "generator-model";
     Runner.cfg_maxTokens := None;
     Runner.cfg_temperature := None;
     Runner.cfg_retryOptions := Some (options_with failing_callback) |}.

(** Surroundings in which the provider always answers with prose. *)
Definition prose_world : @Runners.Surroundings Q :=
  {| Runners.complete := fun _ _ _ _ =>
       Returns {| Runner.response_content := "Looks good to me.";
                  Runner.response_usage := None |};
     Runners.random := fun _ _ _ => 1 # 2;
     Runners.completion_elapsed := fun _ _ => 0%Z;
     Runners.pass_durationMs := fun _ => 0%Z;
     Runners.pass_timestamp := fun _ => "2026-01-01T00:00:00.000Z";
     Runners.uuid := "00000000-0000-4000-8000-000000000000";
     Runners.total_elapsedMs := 0%Z |}.

Definition models : Runners.OrchestratorConfig :=
  {| Runners.generatorModel := "generator-model";
     Runners.discriminatorModel := "discriminator-model" |}.

End Samples.


(* ===================================================================== *)
(** ** infrastructure/persistence/redis: the snapshot store *)
(* ===================================================================== *)

Module Store.

Inductive WorkflowStatus : Type :=
| pending
| running
| completed
| failed
| cancelled.

(** [WorkflowState].  ISO time stamps are kept as the instant that they
    denote, in milliseconds. *)
Record WorkflowState : Type := {
  id : string;
  status : WorkflowStatus;
  task : string;
  criteria : list string;
  currentIteration : nat;
  maxIterations : nat;
  scoreThreshold : float;
  currentOutput : option string;
  lastFeedback : option DiscriminatorFeedback;
  currentScore : option float;
  iterations : list IterationState;
  startedAt : Z;
  updatedAt : Z;
  completedAt : option Z;
  stopReason : option string;
  errorMessage : option string;
  generatorModel : option string;
  discriminatorModel : option string
}.

(** *** client.ts: [InMemoryStore] *)

Section Backing.

(** The serialised form of a snapshot: a [string] in the source, the JSON
    text of the snapshot.  The store is generic in it; all that it needs,
    besides [JSON.stringify] and [JSON.parse], is the test [!data], which
    holds of the empty text. *)
Context {Text : Type}.

Record StoreEntry : Type := {
  value : Text;
  expireAt : option Z
}.

(** [item.expireAt !== null && Date.now() > item.expireAt] *)
Definition expired (now : Z) (item : StoreEntry) : bool :=
  match expireAt item with
  | Some t => (t <? now)%Z
  | None => false
  end.

Definition InMemoryStore : Type := gmap string StoreEntry.

Definition InMemoryStore_get (now : Z) (key : string) (store : InMemoryStore)
  : option Text * InMemoryStore :=
  match store !! key with
  | None => (None, store)
  | Some item =>
      if expired now item then (None, delete key store)
      else (Some (value item), store)
  end.

Definition InMemoryStore_set (now : Z) (key : string) (v : Text) (ttlSeconds : option Z)
  (store : InMemoryStore) : InMemoryStore :=
  let expireAt := (fun ttl => now + ttl * 1000)%Z <$> ttlSeconds in
  <[key := {| value := v; expireAt := expireAt |}]> store.

(** [this.store.delete(key) ? 1 : 0] *)
Definition InMemoryStore_del (key : string) (store : InMemoryStore) : Z * InMemoryStore :=
  match store !! key with
  | Some _ => (1%Z, delete key store)
  | None => (0%Z, store)
  end.

Definition InMemoryStore_exists (now : Z) (key : string) (store : InMemoryStore)
  : Z * InMemoryStore :=
  match store !! key with
  | None => (0%Z, store)
  | Some item =>
      if expired now item then (0%Z, delete key store)
      else (1%Z, store)
  end.

(** *** The Redis server

    The networked backing is outside the repository.  Its commands are
    modelled after the Redis command reference, on the same clock as the
    process: a key with a time to live is gone for every command once the
    clock has passed its expiry; [DEL] and [EXISTS] count the keys that
    are there; [SETEX] refuses a time to live that is not positive. *)
Definition Redis_db : Type := gmap string StoreEntry.

Definition Redis_live (now : Z) (key : string) (d : Redis_db) : option StoreEntry :=
  match d !! key with
  | Some item => if expired now item then None else Some item
  | None => None
  end.

Definition Redis_GET (now : Z) (key : string) (d : Redis_db) : option Text :=
  value <$> Redis_live now key d.

Definition Redis_SET (key : string) (v : Text) (d : Redis_db) : Redis_db :=
  <[key := {| value := v; expireAt := None |}]> d.

Definition Redis_SETEX (now : Z) (key : string) (seconds : Z) (v : Text) (d : Redis_db)
  : option Redis_db :=
  if (seconds <=? 0)%Z then None
  else Some (<[key := {| value := v; expireAt := Some (now + seconds * 1000)%Z |}]> d).

Definition Redis_DEL (now : Z) (key : string) (d : Redis_db) : Z * Redis_db :=
  match Redis_live now key d with
  | Some _ => (1%Z, delete key d)
  | None => (0%Z, delete key d)
  end.

Definition Redis_EXISTS (now : Z) (key : string) (d : Redis_db) : Z :=
  match Redis_live now key d with Some _ => 1%Z | None => 0%Z end.

(** *** client.ts: [ResilientRedisClient] *)

Record Client : Type := {
  usesFallback : bool;
  server : Redis_db;
  fallback : InMemoryStore
}.

(** A client that uses the server, and one that has switched to the
    fallback. *)
Definition networked : Client :=
  {| usesFallback := false; server := ∅; fallback := ∅ |}.
Definition degraded : Client :=
  {| usesFallback := true; server := ∅; fallback := ∅ |}.

Definition with_fallback (c : Client) (f : InMemoryStore) : Client :=
  {| usesFallback := usesFallback c; server := server c; fallback := f |}.
Definition with_server (c : Client) (d : Redis_db) : Client :=
  {| usesFallback := usesFallback c; server := d; fallback := fallback c |}.

(** Every command takes the instant [now] and whether the server answers
    ([reachable]); a command that does not get an answer rejects, which
    the [catch] blocks of the client turn into a use of the fallback. *)
Definition client_get (now : Z) (reachable : bool) (key : string) (c : Client)
  : option Text * Client :=
  if usesFallback c || negb reachable then
    let '(r, f) := InMemoryStore_get now key (fallback c) in (r, with_fallback c f)
  else (Redis_GET now key (server c), c).

(** [if (ttlSeconds)]: neither absent nor zero. *)
Definition truthy (ttlSeconds : option Z) : option Z :=
  match ttlSeconds with
  | Some ttl => if (ttl =? 0)%Z then None else Some ttl
  | None => None
  end.

Definition client_set (now : Z) (reachable : bool) (key : string) (v : Text)
  (ttlSeconds : option Z) (c : Client) : Client :=
  let to_fallback c := with_fallback c (InMemoryStore_set now key v ttlSeconds (fallback c)) in
  if usesFallback c || negb reachable then to_fallback c
  else
    match truthy ttlSeconds with
    | Some ttl =>
        match Redis_SETEX now key ttl v (server c) with
        | Some d => to_fallback (with_server c d)
        | None => to_fallback c
        end
    | None => to_fallback (with_server c (Redis_SET key v (server c)))
    end.

Definition client_del (now : Z) (reachable : bool) (key : string) (c : Client)
  : Z * Client :=
  if usesFallback c || negb reachable then
    let '(r, f) := InMemoryStore_del key (fallback c) in (r, with_fallback c f)
  else
    let '(result, d) := Redis_DEL now key (server c) in
    let '(_, f) := InMemoryStore_del key (fallback c) in
    (result, {| usesFallback := usesFallback c; server := d; fallback := f |}).

Definition client_exists (now : Z) (reachable : bool) (key : string) (c : Client)
  : bool * Client :=
  if usesFallback c || negb reachable then
    let '(r, f) := InMemoryStore_exists now key (fallback c) in
    ((r =? 1)%Z, with_fallback c f)
  else ((Redis_EXISTS now key (server c) =? 1)%Z, c).

(** *** workflow-state.store.ts: [WorkflowStateStore] *)

Definition DEFAULT_TTL_SECONDS : Z := 24 * 60 * 60.
Definition DEFAULT_KEY_PREFIX : string := "workflow:state:".

Record WorkflowStateStoreOptions : Type := {
  opt_ttlSeconds : option Z;
  opt_keyPrefix : option string
}.

Record WorkflowStateStore : Type := {
  ttlSeconds : Z;
  keyPrefix : string
}.

Definition WorkflowStateStore_new (options : WorkflowStateStoreOptions) : WorkflowStateStore :=
  {| ttlSeconds := default DEFAULT_TTL_SECONDS (opt_ttlSeconds options);
     keyPrefix := default DEFAULT_KEY_PREFIX (opt_keyPrefix options) |}.

Definition default_store : WorkflowStateStore :=
  WorkflowStateStore_new {| opt_ttlSeconds := None; opt_keyPrefix := None |}.

(** The fields that [complete], [fail] and [cancel] pass to [update]. *)
Record Updates : Type := {
  upd_status : option WorkflowStatus;
  upd_currentOutput : option string;
  upd_currentScore : option float;
  upd_stopReason : option string;
  upd_errorMessage : option string;
  upd_completedAt : option Z
}.

(** [{ ...current, ...updates, updatedAt: now }] *)
Definition merge (current : WorkflowState) (updates : Updates) (now : Z) : WorkflowState :=
  {| id := id current;
     status := default (status current) (upd_status updates);
     task := task current;
     criteria := criteria current;
     currentIteration := currentIteration current;
     maxIterations := maxIterations current;
     scoreThreshold := scoreThreshold current;
     currentOutput := nullish_or (upd_currentOutput updates) (currentOutput current);
     lastFeedback := lastFeedback current;
     currentScore := nullish_or (upd_currentScore updates) (currentScore current);
     iterations := iterations current;
     startedAt := startedAt current;
     updatedAt := now;
     completedAt := nullish_or (upd_completedAt updates) (completedAt current);
     stopReason := nullish_or (upd_stopReason updates) (stopReason current);
     errorMessage := nullish_or (upd_errorMessage updates) (errorMessage current);
     generatorModel := generatorModel current;
     discriminatorModel := discriminatorModel current |}.

Section Operations.

(** [JSON.stringify] and [JSON.parse] on snapshots; [None] stands for the
    [SyntaxError] that [get] catches. *)
Variable JSON_stringify : WorkflowState -> Text.
Variable JSON_parse : Text -> option WorkflowState.
Variable is_empty : Text -> bool.

Variable this : WorkflowStateStore.

Definition getKey (workflowId : string) : string :=
  (keyPrefix this ++ workflowId)%string.

Definition save (now : Z) (reachable : bool) (state : WorkflowState) (c : Client) : Client :=
  let key := getKey (id state) in
  let serialized := JSON_stringify state in
  client_set now reachable key serialized (Some (ttlSeconds this)) c.

Definition get (now : Z) (reachable : bool) (workflowId : string) (c : Client)
  : option WorkflowState * Client :=
  let key := getKey workflowId in
  let '(data, c) := client_get now reachable key c in
  match data with
  | None => (None, c)
  | Some data => if is_empty data then (None, c) else (JSON_parse data, c)
  end.

Definition update (now : Z) (reachable : bool) (workflowId : string) (updates : Updates)
  (c : Client) : option WorkflowState * Client :=
  let '(current, c) := get now reachable workflowId c in
  match current with
  | None => (None, c)
  | Some current =>
      let updated := merge current updates now in
      (Some updated, save now reachable updated c)
  end.

Definition complete (now : Z) (reachable : bool) (workflowId output stopReason : string)
  (finalScore : float) (c : Client) : option WorkflowState * Client :=
  update now reachable workflowId
    {| upd_status := Some completed; upd_currentOutput := Some output;
       upd_currentScore := Some finalScore; upd_stopReason := Some stopReason;
       upd_errorMessage := None; upd_completedAt := Some now |} c.

Definition fail (now : Z) (reachable : bool) (workflowId errorMessage : string)
  (c : Client) : option WorkflowState * Client :=
  update now reachable workflowId
    {| upd_status := Some failed; upd_currentOutput := None; upd_currentScore := None;
       upd_stopReason := None; upd_errorMessage := Some errorMessage;
       upd_completedAt := Some now |} c.

Definition cancel (now : Z) (reachable : bool) (workflowId : string) (reason : option string)
  (c : Client) : option WorkflowState * Client :=
  update now reachable workflowId
    {| upd_status := Some cancelled; upd_currentOutput := None; upd_currentScore := None;
       upd_stopReason := Some (default "User cancelled" reason);
       upd_errorMessage := None; upd_completedAt := Some now |} c.

Definition delete_ (now : Z) (reachable : bool) (workflowId : string) (c : Client)
  : bool * Client :=
  let key := getKey workflowId in
  let '(deleted, c) := client_del now reachable key c in
  ((0 <? deleted)%Z, c).

Definition exists_ (now : Z) (reachable : bool) (workflowId : string) (c : Client)
  : bool * Client :=
  client_exists now reachable (getKey workflowId) c.

(** A store operation issued at some instant, and what its caller sees. *)
Inductive Operation : Type :=
| Save (state : WorkflowState)
| Get (workflowId : string)
| Delete (workflowId : string)
| Exists (workflowId : string).

Inductive Observation : Type :=
| Saved
| Got (state : option WorkflowState)
| Deleted (result : bool)
| Existed (result : bool).

Definition perform (now : Z) (reachable : bool) (op : Operation) (c : Client)
  : Observation * Client :=
  match op with
  | Save state => (Saved, save now reachable state c)
  | Get workflowId => let '(r, c) := get now reachable workflowId c in (Got r, c)
  | Delete workflowId => let '(r, c) := delete_ now reachable workflowId c in (Deleted r, c)
  | Exists workflowId => let '(r, c) := exists_ now reachable workflowId c in (Existed r, c)
  end.

(** A sequence of operations, each with the instant at which it runs. *)
Fixpoint observe (reachable : bool) (ops : list (Z * Operation)) (c : Client)
  : list Observation :=
  match ops with
  | [] => []
  | (now, op) :: rest =>
      let '(seen, c) := perform now reachable op c in
      seen :: observe reachable rest c
  end.

(** [addIteration]: the history is extended and the derived fields are
    refreshed from the new record. *)
Definition addIteration (now : Z) (reachable : bool) (workflowId : string)
  (iteration : IterationState) (c : Client) : option WorkflowState * Client :=
  let '(current, c) := get now reachable workflowId c in
  match current with
  | None => (None, c)
  | Some current =>
      let updated :=
        {| id := id current;
           status := status current;
           task := task current;
           criteria := criteria current;
           currentIteration := number iteration;
           maxIterations := maxIterations current;
           scoreThreshold := scoreThreshold current;
           currentOutput := Some (generatorOutput iteration);
           lastFeedback := Some (feedback iteration);
           currentScore := Some (score (feedback iteration));
           iterations := iterations current ++ [iteration];
           startedAt := startedAt current;
           updatedAt := now;
           completedAt := completedAt current;
           stopReason := stopReason current;
           errorMessage := errorMessage current;
           generatorModel := generatorModel current;
           discriminatorModel := discriminatorModel current |} in
      (Some updated, save now reachable updated c)
  end.

(** The instants of a sequence of operations never go back, starting from
    [t]. *)
Fixpoint chronological (t : Z) (ops : list (Z * Operation)) : Prop :=
  match ops with
  | [] => True
  | (now, _) :: rest => (t <= now)%Z /\ chronological now rest
  end.

(** Two observations are the same, up to what a deletion answers. *)
Definition similar (a b : Observation) : Prop :=
  match a, b with
  | Deleted _, Deleted _ => True
  | _, _ => a = b
  end.

Definition is_delete (op : Operation) : bool :=
  match op with Delete _ => true | _ => false end.

(** The server and the fallback map show the same live entries from
    instant [t] on. *)
Definition agree (t : Z) (d : Redis_db) (store : InMemoryStore) : Prop :=
  forall (key : string) (now : Z),
    (t <= now)%Z -> Redis_live now key d = Redis_live now key store.

(** A client on the server and a client on the fallback that hold the
    same live snapshots. *)
Definition backings_agree (t : Z) (onServer onFallback : Client) : Prop :=
  usesFallback onServer = false
  /\ usesFallback onFallback = true
  /\ agree t (server onServer) (fallback onFallback).

(** The serialisation of a snapshot can be read back. *)
Definition readable (state : WorkflowState) : Prop :=
  JSON_parse (JSON_stringify state) = Some state
  /\ is_empty (JSON_stringify state) = false.

End Operations.

End Backing.

Arguments StoreEntry Text : clear implicits.
Arguments InMemoryStore Text : clear implicits.
Arguments Redis_db Text : clear implicits.
Arguments Client Text : clear implicits.

(** [state.status = status] *)
Definition with_status (s : WorkflowStatus) (state : WorkflowState) : WorkflowState :=
  {| id := id state; status := s; task := task state; criteria := criteria state;
     currentIteration := currentIteration state; maxIterations := maxIterations state;
     scoreThreshold := scoreThreshold state; currentOutput := currentOutput state;
     lastFeedback := lastFeedback state; currentScore := currentScore state;
     iterations := iterations state; startedAt := startedAt state;
     updatedAt := updatedAt state; completedAt := completedAt state;
     stopReason := stopReason state; errorMessage := errorMessage state;
     generatorModel := generatorModel state;
     discriminatorModel := discriminatorModel state |}.

Definition createInitialState (now : Z) (workflowId task : string) (criteria : list string)
  (maxIterations : nat) (scoreThreshold : float) (generatorModel discriminatorModel : string)
  : WorkflowState :=
  {| id := workflowId; status := pending; task := task; criteria := criteria;
     currentIteration := 0; maxIterations := maxIterations;
     scoreThreshold := scoreThreshold;
     currentOutput := None; lastFeedback := None; currentScore := None;
     iterations := []; startedAt := now; updatedAt := now;
     completedAt := None; stopReason := None; errorMessage := None;
     generatorModel := if Str.is_empty generatorModel then None else Some generatorModel;
     discriminatorModel :=
       if Str.is_empty discriminatorModel then None else Some discriminatorModel |}.

End Store.

(* ===================================================================== *)
(** ** infrastructure/queue: the worker and the cancellation request *)
(* ===================================================================== *)

Module Worker.

Record WorkflowJobData : Type := {
  workflowId : string;
  task : string;
  criteria : list string;
  maxIterations : nat;
  scoreThreshold : float;
  generatorModel : string;
  discriminatorModel : string
}.

(** [WorkflowJobProgress & { cancelled?: boolean }] *)
Record WorkflowJobProgress : Type := {
  iteration : nat;
  progress_maxIterations : nat;
  progress_status : Store.WorkflowStatus;
  progress_cancelled : option bool
}.

Record WorkflowJobResult : Type := {
  success : bool;
  result_workflowId : string;
  output : string;
  finalScore : float;
  iterations : nat;
  reason : string;
  durationMs : Z
}.

Inductive JobState : Type :=
| waiting
| delayed
| active
| job_completed
| job_failed
| removed.

(** A job of the queue: its state and its progress object. *)
Record Job : Type := {
  state : JobState;
  progress : option WorkflowJobProgress
}.

(** [progress?.cancelled === true] *)
Definition shouldCancelJob (job : Job) : bool :=
  match progress job with
  | Some p => match progress_cancelled p with Some true => true | _ => false end
  | None => false
  end.

(** [WorkflowQueue.cancelJob] on a job that exists. *)
Definition cancelJob (job : Job) : bool * Job :=
  match state job with
  | waiting | delayed => (true, {| state := removed; progress := progress job |})
  | active =>
      let marked :=
        match progress job with
        | Some p =>
            {| iteration := iteration p;
               progress_maxIterations := progress_maxIterations p;
               progress_status := progress_status p;
               progress_cancelled := Some true |}
        | None =>
            {| iteration := 0; progress_maxIterations := 0;
               progress_status := Store.pending; progress_cancelled := Some true |}
        end in
      (true, {| state := active; progress := Some marked |})
  | _ => (false, job)
  end.

(** The literal of a stop reason. *)
Definition StopReason_text (r : StopReason) : string :=
  match r with
  | threshold_reached => "threshold_reached"
  | max_iterations => "max_iterations"
  | stagnation => "stagnation"
  | reason_error => "error"
  | reason_cancelled => "cancelled"
  | early_termination => "early_termination"
  end.

Section Process.

Context {Text : Type}.
Variable JSON_stringify : Store.WorkflowState -> Text.
Variable JSON_parse : Text -> option Store.WorkflowState.
Variable is_empty : Text -> bool.
Variable stateStore : Store.WorkflowStateStore.

(** What the worker and the requests of other callers share: the state
    store and the job. *)
Record World : Type := {
  client : Store.Client Text;
  job : Job
}.

(** What [cancel_workflow] answers when the snapshot is in the store. *)
Record CancelResponse : Type := {
  response_status : Store.WorkflowStatus;
  previousStatus : option Store.WorkflowStatus;
  finalIteration : nat
}.

(** [cancelWorkflowTool.execute], for a workflow whose snapshot is in the
    state store; [None] stands for the errors that it throws (already
    completed, already failed, not found). *)
Definition cancel_workflow (now : Z) (workflowId : string) (reason : option string)
  (w : World) : option CancelResponse * World :=
  let cancelReason := default "User requested cancellation" reason in
  let '(found, c) :=
    Store.get JSON_parse is_empty stateStore now true workflowId (client w) in
  match found with
  | Some st =>
      match Store.status st with
      | Store.completed | Store.failed => (None, {| client := c; job := job w |})
      | Store.cancelled =>
          (Some {| response_status := Store.cancelled; previousStatus := None;
                   finalIteration := Store.currentIteration st |},
           {| client := c; job := job w |})
      | _ =>
          let '(_, c) :=
            Store.cancel JSON_stringify JSON_parse is_empty stateStore now true
              workflowId (Some cancelReason) c in
          let '(_, j) := cancelJob (job w) in
          (Some {| response_status := Store.cancelled;
                   previousStatus := Some (Store.status st);
                   finalIteration := Store.currentIteration st |},
           {| client := c; job := j |})
      end
  | None => (None, {| client := c; job := job w |})
  end.

(** The first statements of [processWorkflowJob]: the initial snapshot,
    marked as running, and the first progress report. *)
Definition start_job (now : Z) (data : WorkflowJobData) (w : World) : World :=
  let initialState :=
    Store.createInitialState now (workflowId data) (task data) (criteria data)
      (maxIterations data) (scoreThreshold data)
      (generatorModel data) (discriminatorModel data) in
  let initialState := Store.with_status Store.running initialState in
  let c := Store.save JSON_stringify stateStore now true initialState (client w) in
  {| client := c;
     job := {| state := state (job w);
               progress := Some {| iteration := 0;
                                   progress_maxIterations := maxIterations data;
                                   progress_status := Store.running;
                                   progress_cancelled := None |} |} |}.

(** What follows [await orchestrator.execute(...)]: the terminal write
    and the job result, or the [catch] block.  The relational store is not
    available here, so [persistToPostgres] returns at once. *)
Definition finish_job (now elapsed : Z) (data : WorkflowJobData)
  (outcome : ExecuteOutcome) (w : World) : Outcome WorkflowJobResult * World :=
  match outcome with
  | Resolved result =>
      let reason := StopReason_text (Orchestrator.result_reason result) in
      let '(_, c) :=
        Store.complete JSON_stringify JSON_parse is_empty stateStore now true
          (workflowId data) (Orchestrator.result_output result) reason
          (Orchestrator.finalScore result) (client w) in
      (Returns {| success := Orchestrator.success result;
                  result_workflowId := workflowId data;
                  output := Orchestrator.result_output result;
                  finalScore := Orchestrator.finalScore result;
                  iterations := Orchestrator.result_iterations result;
                  reason := reason;
                  durationMs := elapsed |},
       {| client := c; job := job w |})
  | Rejected err _ =>
      let errorMessage := Orchestrator.error_message err in
      let '(_, c) :=
        Store.fail JSON_stringify JSON_parse is_empty stateStore now true
          (workflowId data) errorMessage (client w) in
      (Throws (Orchestrator.thrown_error err), {| client := c; job := job w |})
  end.

(** [processWorkflowJob].  While the worker awaits [orchestrator.execute],
    other requests are served; [meanwhile] is what they do to the shared
    world.  The orchestrator is given the task and the limits only: its
    loop has no access to the job or to the state store. *)
Definition processWorkflowJob (env : Collaborators) (started finished : Z)
  (data : WorkflowJobData) (meanwhile : World -> World) (w : World)
  : option (Outcome WorkflowJobResult * World) :=
  let w := start_job started data w in
  let params :=
    {| Orchestrator.task := task data;
       Orchestrator.criteria := criteria data;
       params_maxIterations := maxIterations data;
       params_scoreThreshold := scoreThreshold data |} in
  match execute env (createDefaultStopConditions DefaultStopConditionsConfig_empty) params with
  | None => None
  | Some outcome =>
      Some (finish_job finished (finished - started) data outcome (meanwhile w))
  end.

(** The snapshot that [start_job] saves, the parameters that the worker
    hands to [execute], and the write to the state store that
    [finish_job] makes. *)
Definition initial_snapshot (now : Z) (data : WorkflowJobData) : Store.WorkflowState :=
  Store.with_status Store.running
    (Store.createInitialState now (workflowId data) (task data) (criteria data)
       (maxIterations data) (scoreThreshold data)
       (generatorModel data) (discriminatorModel data)).

Definition job_params (data : WorkflowJobData) : ExecuteParams :=
  {| Orchestrator.task := task data;
     Orchestrator.criteria := criteria data;
     params_maxIterations := maxIterations data;
     params_scoreThreshold := scoreThreshold data |}.

Definition terminal_write (now : Z) (data : WorkflowJobData) (outcome : ExecuteOutcome)
  (c : Store.Client Text) : option Store.WorkflowState * Store.Client Text :=
  match outcome with
  | Resolved result =>
      Store.complete JSON_stringify JSON_parse is_empty stateStore now true
        (workflowId data) (Orchestrator.result_output result)
        (StopReason_text (Orchestrator.result_reason result))
        (Orchestrator.finalScore result) c
  | Rejected err _ =>
      Store.fail JSON_stringify JSON_parse is_empty stateStore now true
        (workflowId data) (Orchestrator.error_message err) c
  end.

(** The status that a status query reads from the state store. *)
Definition stored_status (now : Z) (workflowId : string) (w : World)
  : option Store.WorkflowStatus :=
  Store.status <$> fst (Store.get JSON_parse is_empty stateStore now true workflowId (client w)).

End Process.

End Worker.

Module WorkerSamples.

(** A job of three iterations at most. *)
Definition job_data : Worker.WorkflowJobData :=
  {| Worker.workflowId := "11111111-1111-4111-8111-111111111111";
     Worker.task := "write a haiku";
     Worker.criteria := ["three lines"];
     Worker.maxIterations := 3;
     Worker.scoreThreshold := 0.7%float;
     Worker.generatorModel := "generator-model";
     Worker.discriminatorModel := "discriminator-model" |}.

(** The world before the worker picks the job up, with the state store on
    the server. *)
Definition idle_world : @Worker.World Store.WorkflowState :=
  {| Worker.client := Store.networked;
     Worker.job := {| Worker.state := Worker.active; Worker.progress := None |} |}.

(** A cancellation request for the job, served at instant 1500. *)
Definition cancel_request (w : @Worker.World Store.WorkflowState)
  : @Worker.World Store.WorkflowState :=
  snd (Worker.cancel_workflow (fun s => s) Some (fun _ => false) Store.default_store
         1500 (Worker.workflowId job_data) None w).

End WorkerSamples.


Module StoreSamples.

(** A snapshot as the worker first saves it. *)
Definition snapshot : Store.WorkflowState :=
  Store.with_status Store.running
    (Store.createInitialState 0 "11111111-1111-4111-8111-111111111111" "write a haiku"
       ["three lines"] 3 0.7%float "generator-model" "discriminator-model").

(** A session that saves the snapshot, polls it, and comes back after the
    default time to live of 24 hours. *)
Definition session : list (Z * Store.Operation) :=
  [ (0%Z, Store.Save snapshot);
    (10%Z, Store.Get (Store.id snapshot));
    (20%Z, Store.Exists (Store.id snapshot));
    (86400001%Z, Store.Get (Store.id snapshot));
    (86400002%Z, Store.Exists (Store.id snapshot)) ].

End StoreSamples.

(* ===================================================================== *)
(** ** shared/utils/rate-limiter.ts: the in-process limiter *)
(* ===================================================================== *)

(** Limits, window lengths, counts and instants are whole numbers.  The
    sorted-set commands of the networked path are outside the repository;
    the limiter is modelled where it has no raw client, which is where it
    uses the in-process store. *)
Module RateLimit.

Record RateLimitResult : Type := {
  allowed : bool;
  remaining : Z;
  limit : Z;
  resetInSeconds : Z;
  current : Z
}.

Record Entry : Type := {
  count : Z;
  windowStart : Z
}.

Definition InMemoryRateLimitStore : Type := gmap string Entry.

(** [now - entry.windowStart >= windowMs] *)
Definition window_over (now windowMs : Z) (entry : Entry) : bool :=
  (windowMs <=? now - windowStart entry)%Z.

Definition cleanup (now windowMs : Z) (store : InMemoryRateLimitStore)
  : InMemoryRateLimitStore :=
  filter (fun kv => window_over now windowMs (snd kv) = false) store.

(** [Math.ceil(x / 1000)] on a whole number [x]. *)
Definition ceil_thousandth (x : Z) : Z := (- ((- x) / 1000))%Z.

(** [check].  [now] is the first reading of the clock.  [sweep] tells
    whether [Math.random() < 0.1] held, and then carries the reading of
    the clock that [cleanup] takes.  The entry is looked up before the
    sweep: when the sweep has deleted it from the map, the increment at the
    end changes an object that the map no longer holds. *)
Definition check (now : Z) (sweep : option Z) (key : string)
  (maxRequests windowSeconds : Z) (store : InMemoryRateLimitStore)
  : RateLimitResult * InMemoryRateLimitStore :=
  let windowMs := (windowSeconds * 1000)%Z in
  let entry := store !! key in
  let store :=
    match sweep with
    | Some later => cleanup later windowMs store
    | None => store
    end in
  let new_window :=
    ({| allowed := true;
        remaining := (maxRequests - 1)%Z;
        limit := maxRequests;
        resetInSeconds := windowSeconds;
        current := 1%Z |},
     <[key := {| count := 1%Z; windowStart := now |}]> store) in
  match entry with
  | None => new_window
  | Some entry =>
      if window_over now windowMs entry then new_window
      else
        let remaining := (maxRequests - count entry - 1)%Z in
        let resetInSeconds := ceil_thousandth (windowStart entry + windowMs - now) in
        if (maxRequests <=? count entry)%Z then
          ({| allowed := false;
              remaining := 0%Z;
              limit := maxRequests;
              resetInSeconds := resetInSeconds;
              current := count entry |},
           store)
        else
          let entry' := {| count := (count entry + 1)%Z;
                           windowStart := windowStart entry |} in
          ({| allowed := true;
              remaining := Z.max 0 remaining;
              limit := maxRequests;
              resetInSeconds := resetInSeconds;
              current := count entry' |},
           match store !! key with
           | Some _ => <[key := entry']> store
           | None => store
           end)
  end.

Definition reset (key : string) (store : InMemoryRateLimitStore)
  : InMemoryRateLimitStore :=
  delete key store.

(** [Required<RateLimitConfig>] *)
Record RateLimitConfig : Type := {
  maxRequests : Z;
  windowSeconds : Z;
  keyPrefix : string
}.

(** [RateLimiter.check] and [RateLimiter.peek] without a raw client. *)
Definition RateLimiter_check (this : RateLimitConfig) (now : Z) (sweep : option Z)
  (clientId : string) (fallback : InMemoryRateLimitStore)
  : RateLimitResult * InMemoryRateLimitStore :=
  check now sweep clientId (maxRequests this) (windowSeconds this) fallback.

Definition RateLimiter_peek (this : RateLimitConfig) (now : Z) (sweep : option Z)
  (clientId : string) (fallback : InMemoryRateLimitStore)
  : RateLimitResult * InMemoryRateLimitStore :=
  let '(result, fallback) :=
    check now sweep clientId (maxRequests this) (windowSeconds this) fallback in
  (result, reset clientId fallback).

(** A series of requests of one client, each with its instant and its
    sweep; the answers in order. *)
Fixpoint serve (this : RateLimitConfig) (clientId : string)
  (requests : list (Z * option Z)) (fallback : InMemoryRateLimitStore)
  : list RateLimitResult :=
  match requests with
  | [] => []
  | (now, sweep) :: rest =>
      let '(result, fallback) := RateLimiter_check this now sweep clientId fallback in
      result :: serve this clientId rest fallback
  end.

(** The request and its sweep, if any, fall into the window that was
    opened at [opened]. *)
Definition within_window (this : RateLimitConfig) (opened : Z) (request : Z * option Z)
  : Prop :=
  (fst request - opened < windowSeconds this * 1000)%Z
  /\ match snd request with
     | Some later => (later - opened < windowSeconds this * 1000)%Z
     | None => True
     end.

(** The limiter of workflow executions: 10 per minute. *)
Definition workflowRateLimiter : RateLimitConfig :=
  {| maxRequests := 10; windowSeconds := 60; keyPrefix := "ratelimit:workflow:" |}.

End RateLimit.

(* ===================================================================== *)
(** ** shared/types: the [Result] utilities *)
(* ===================================================================== *)

Module ResultUtil.

(** [{ success: true; data: T } | { success: false; error: E }] *)
Inductive Result (T E : Type) : Type :=
| Success (data : T)
| Failure (error : E).
Arguments Success {T E} data.
Arguments Failure {T E} error.

Definition ok {T E : Type} (data : T) : Result T E := Success data.

Definition err {T E : Type} (error : E) : Result T E := Failure error.

Definition map {T U E : Type} (result : Result T E) (fn : T -> U) : Result U E :=
  match result with
  | Success data => ok (fn data)
  | Failure error => Failure error
  end.

Definition flatMap {T U E : Type} (result : Result T E) (fn : T -> Result U E)
  : Result U E :=
  match result with
  | Success data => fn data
  | Failure error => Failure error
  end.

(** [fromPromise]: the promise is given by how it settles. *)
Definition fromPromise {T : Type} (promise : Outcome T) : Result T JsThrown :=
  match promise with
  | Returns data => ok data
  | Throws error => err (as_Error error)
  end.

Definition unwrap {T : Type} (result : Result T JsThrown) : Outcome T :=
  match result with
  | Success data => Returns data
  | Failure error => Throws error
  end.

Definition unwrapOr {T E : Type} (result : Result T E) (defaultValue : T) : T :=
  match result with
  | Success data => data
  | Failure _ => defaultValue
  end.

Definition isOk {T E : Type} (result : Result T E) : bool :=
  match result with Success _ => true | Failure _ => false end.

Definition isErr {T E : Type} (result : Result T E) : bool := negb (isOk result).

End ResultUtil.

(* ===================================================================== *)
(** * Properties *)
(* ===================================================================== *)

(** ** Stop conditions *)

Lemma Threshold_shouldStop (context : StopConditionContext) :
  shouldStop (Threshold_evaluate context)
  = currentPassed context
    && PrimFloat.leb (scoreThreshold context) (currentScore context).
Proof.
  unfold Threshold_evaluate.
  destruct (currentPassed context && _); reflexivity.
Qed.

(** C1.  The threshold condition stops exactly when the feedback is marked
    as passed and the score is at least the threshold; a context with score
    0.9, passed = false and threshold 0.7 does not stop. *)
Theorem threshold_stops_iff_passed_and_score_reached :
  (forall context : StopConditionContext,
      shouldStop (evaluate ThresholdStopCondition context) = true
      <-> currentPassed context = true
          /\ PrimFloat.leb (scoreThreshold context) (currentScore context) = true)
  /\ (forall context : StopConditionContext,
         shouldStop (evaluate ThresholdStopCondition context) = true ->
         reason (evaluate ThresholdStopCondition context) = Some threshold_reached)
  /\ (forall (currentIteration maxIterations : nat) (iterations : list IterationState),
         shouldStop (evaluate ThresholdStopCondition
                       {| currentIteration := currentIteration;
                          maxIterations := maxIterations;
                          scoreThreshold := 0.7%float;
                          iterations := iterations;
                          currentScore := 0.9%float;
                          currentPassed := false |}) = false).
Proof.
  split; [|split].
  - intros context. simpl. rewrite Threshold_shouldStop.
    apply andb_true_iff.
  - intros context. simpl. unfold Threshold_evaluate.
    destruct (currentPassed context && _); simpl; [reflexivity | discriminate].
  - intros. reflexivity.
Qed.

Lemma slice_last_map {A B : Type} (f : A -> B) (k : nat) (l : list A) :
  slice_last k (map f l) = map f (slice_last k l).
Proof.
  unfold slice_last. rewrite length_map. apply skipn_map.
Qed.

Lemma negb_existsb {A : Type} (p : A -> bool) (l : list A) :
  negb (existsb p l) = forallb (fun x => negb (p x)) l.
Proof.
  induction l as [|x l IH]; simpl; [reflexivity|].
  rewrite negb_orb, IH. reflexivity.
Qed.

Lemma Stagnation_evaluate_rule (this : Stagnation) (context : StopConditionContext) :
  shouldStop (Stagnation_evaluate this context)
  = stagnation_rule (maxStagnantIterations this) (improvementThreshold this)
      (scores_of (iterations context)).
Proof.
  unfold Stagnation_evaluate, stagnation_rule, scores_of.
  rewrite length_map.
  destruct (length (iterations context) <? maxStagnantIterations this + 1)%nat;
    [reflexivity|].
  rewrite slice_last_map.
  destruct (map _ (slice_last _ _)) as [|baseline later]; [reflexivity|].
  rewrite <- negb_existsb.
  destruct (negb _); reflexivity.
Qed.

Lemma slice_last_length {A : Type} (k : nat) (l : list A) :
  k <= length l -> length (slice_last k l) = k.
Proof.
  intros Hk. unfold slice_last. rewrite length_skipn. lia.
Qed.

(** The first list of scores of the specification's example does not make
    the default stagnation condition fire: in binary64 arithmetic
    [0.51 - 0.50] is [0.010000000000000009], which exceeds [0.01]. *)
Lemma stagnation_example_051_does_not_stop :
  shouldStop (evaluate (StagnationStopCondition StagnationConfig_empty)
                (context_of_scores 10 0.9%float [0.50; 0.51; 0.505; 0.509]%float))
  <> true.
Proof. vm_compute. discriminate. Qed.

(** C2 (amended).  With window [N] and improvement threshold [t], the
    stagnation condition does not stop below [N + 1] recorded iterations;
    otherwise the most recent [N + 1] scores split into the oldest one (the
    baseline) and the later ones, and it stops exactly when no later score
    [s] has [s - baseline > t] in double arithmetic.  With the defaults,
    scores 0.50, 0.50, 0.50, 0.62 do not stop, and neither do 0.50, 0.51,
    0.505, 0.509, while 0.50, 0.509, 0.505, 0.509 do. *)
Theorem stagnation_window_rule :
  (forall (this : Stagnation) (context : StopConditionContext),
      let N := maxStagnantIterations this in
      let t := improvementThreshold this in
      let scores := scores_of (iterations context) in
      (length (iterations context) < N + 1 ->
       shouldStop (Stagnation_evaluate this context) = false)
      /\ (N + 1 <= length (iterations context) ->
          exists baseline later,
            slice_last (N + 1) scores = baseline :: later
            /\ length later = N
            /\ (shouldStop (Stagnation_evaluate this context) = true
                <-> forall s, In s later ->
                      PrimFloat.ltb t (PrimFloat.sub s baseline) = false)))
  /\ (forall context : StopConditionContext,
         scores_of (iterations context) = [0.50; 0.50; 0.50; 0.62]%float ->
         shouldStop (evaluate (StagnationStopCondition StagnationConfig_empty) context)
         = false)
  /\ (forall context : StopConditionContext,
         scores_of (iterations context) = [0.50; 0.51; 0.505; 0.509]%float ->
         shouldStop (evaluate (StagnationStopCondition StagnationConfig_empty) context)
         = false)
  /\ (forall context : StopConditionContext,
         scores_of (iterations context) = [0.50; 0.509; 0.505; 0.509]%float ->
         shouldStop (evaluate (StagnationStopCondition StagnationConfig_empty) context)
         = true).
Proof.
  split; [|split; [|split]].
  - intros this context N t scores.
    assert (Hlen : length scores = length (iterations context))
      by (unfold scores, scores_of; apply length_map).
    rewrite Stagnation_evaluate_rule. fold N t scores.
    unfold stagnation_rule. rewrite Hlen.
    split.
    + intros Hshort. apply Nat.ltb_lt in Hshort. rewrite Hshort. reflexivity.
    + intros Hlong.
      assert (Hge : (length (iterations context) <? N + 1)%nat = false)
        by (apply Nat.ltb_ge; lia).
      rewrite Hge.
      pose proof (slice_last_length (N + 1) scores) as Hwin.
      rewrite Hlen in Hwin. specialize (Hwin Hlong).
      destruct (slice_last (N + 1) scores) as [|baseline later]; simpl in Hwin;
        [lia|].
      exists baseline, later. split; [reflexivity|]. split; [lia|].
      rewrite forallb_forall. split.
      * intros H s Hs. apply negb_true_iff. auto.
      * intros H s Hs. apply negb_true_iff. auto.
  - intros context Hs. simpl. rewrite Stagnation_evaluate_rule, Hs.
    vm_compute. reflexivity.
  - intros context Hs. simpl. rewrite Stagnation_evaluate_rule, Hs.
    vm_compute. reflexivity.
  - intros context Hs. simpl. rewrite Stagnation_evaluate_rule, Hs.
    vm_compute. reflexivity.
Qed.

(** ** Orchestrator *)

Section ExecuteFacts.

Variable env : Collaborators.
Variable stopConditions : StopCondition.
Variable params : ExecuteParams.

Local Abbreviation body := (iteration_body env stopConditions params).
Local Abbreviation loop := (run_loop env stopConditions params).
Local Abbreviation maxIter := (params_maxIterations params).

(** One pass of the loop appends exactly one record, numbered with the
    loop counter, unless a runner throws. *)
Lemma iteration_body_history (iteration : nat) (st st' : LoopState) (out : Outcome bool) :
  body iteration st = (out, st') ->
  (st' = st /\ exists e, out = Throws e)
  \/ exists it, iterations_ st' = iterations_ st ++ [it] /\ number it = iteration.
Proof.
  unfold iteration_body.
  destruct (generator_run _ _ _ _) as [g|e]; [|intros [= <- <-]; left; eauto].
  destruct (discriminator_run _ _ _ _ _) as [d|e]; [|intros [= <- <-]; left; eauto].
  destruct (raises _ _);
    [|destruct (shouldStop _)]; intros [= <- <-]; right; eexists; split; reflexivity.
Qed.

Lemma iteration_body_appends (iteration : nat) (st st' : LoopState) (stop : bool) :
  body iteration st = (Returns stop, st') ->
  exists it, iterations_ st' = iterations_ st ++ [it] /\ number it = iteration.
Proof.
  intros Hbody.
  destruct (iteration_body_history _ _ _ _ Hbody) as [(_ & e & He)|Happ];
    [discriminate | exact Happ].
Qed.

Lemma numbered_upto_append (iteration : nat) (st st' : LoopState) (it : IterationState) :
  1 <= iteration ->
  numbered_upto iteration st ->
  iterations_ st' = iterations_ st ++ [it] ->
  number it = iteration ->
  numbered_upto (S iteration) st'.
Proof.
  intros Hpos Hnum Happ Hno.
  unfold numbered_upto in *.
  rewrite Happ, map_app, Hnum. simpl.
  replace (iteration - 0) with (S (iteration - 1)) by lia.
  rewrite seq_S. simpl. rewrite Hno. do 2 f_equal. lia.
Qed.

Lemma numbered_upto_step (iteration : nat) (st st' : LoopState) (stop : bool) :
  1 <= iteration ->
  numbered_upto iteration st ->
  body iteration st = (Returns stop, st') ->
  numbered_upto (S iteration) st'.
Proof.
  intros Hpos Hnum Hbody.
  destruct (iteration_body_appends _ _ _ _ Hbody) as (it & Happ & Hno).
  exact (numbered_upto_append _ _ _ _ Hpos Hnum Happ Hno).
Qed.

(** The loop ends whenever the fuel covers the passes that remain, and
    however it ends it leaves a gap-free history of at most
    [maxIterations] records. *)
Lemma run_loop_numbered (fuel : nat) :
  forall (iteration : nat) (st : LoopState),
    1 <= iteration <= maxIter + 1 ->
    maxIter + 1 <= fuel + iteration ->
    numbered_upto iteration st ->
    exists out N,
      loop fuel iteration st = Some out
      /\ map number (iterations_ (exit_state out)) = seq 1 N
      /\ N <= maxIter.
Proof.
  induction fuel as [|fuel IH]; intros iteration st Hpos Hfuel Hnum; simpl.
  - destruct (iteration <=? maxIter)%nat eqn:Hguard.
    + apply Nat.leb_le in Hguard. lia.
    + apply Nat.leb_gt in Hguard. exists (Completed st), (iteration - 1).
      split; [reflexivity|]. split; [exact Hnum | lia].
  - destruct (iteration <=? maxIter)%nat eqn:Hguard.
    + apply Nat.leb_le in Hguard.
      destruct (body iteration st) as [[[|]|e] st1] eqn:Hbody.
      * exists (Completed st1), iteration. split; [reflexivity|]. split; [|lia].
        pose proof (numbered_upto_step _ _ _ _ (proj1 Hpos) Hnum Hbody) as H.
        unfold numbered_upto in H. simpl in H.
        rewrite Nat.sub_0_r in H. exact H.
      * apply IH; [lia | lia |].
        exact (numbered_upto_step _ _ _ _ (proj1 Hpos) Hnum Hbody).
      * destruct (iteration_body_history _ _ _ _ Hbody)
          as [(-> & _)|(it & Happ & Hno)].
        -- exists (Failed e st), (iteration - 1).
           split; [reflexivity|]. split; [exact Hnum | lia].
        -- exists (Failed e st1), iteration. split; [reflexivity|]. split; [|lia].
           pose proof (numbered_upto_append _ _ _ _ (proj1 Hpos) Hnum Happ Hno) as H.
           unfold numbered_upto in H. simpl in H.
           rewrite Nat.sub_0_r in H. exact H.
    + apply Nat.leb_gt in Hguard. exists (Completed st), (iteration - 1).
      split; [reflexivity|]. split; [exact Hnum | lia].
Qed.

Lemma iteration_body_decides (iteration : nat) (st st' : LoopState) (stop : bool) :
  body iteration st = (Returns stop, st') ->
  exists context,
    last_context params st' = Some context
    /\ shouldStop (evaluate stopConditions context) = stop
    /\ (stop = true ->
        stopReason st' = default threshold_reached (reason (evaluate stopConditions context))).
Proof.
  unfold iteration_body.
  destruct (generator_run _ _ _ _) as [g|]; [|discriminate].
  destruct (discriminator_run _ _ _ _ _) as [d|]; [|discriminate].
  match goal with
  | |- context [evaluate stopConditions ?c] => set (context := c)
  end.
  destruct (raises stopConditions context); [discriminate|].
  destruct (shouldStop (evaluate stopConditions context)) eqn:Hstop;
    intros [= <- <-]; exists context; unfold last_context; simpl;
    rewrite last_snoc; simpl; fold context; repeat split; auto; discriminate.
Qed.

Lemma run_loop_exit (fuel : nat) :
  forall (iteration : nat) (st st' : LoopState),
    head_invariant stopConditions params st ->
    loop fuel iteration st = Some (Completed st') ->
    exit_condition stopConditions params st'.
Proof.
  induction fuel as [|fuel IH]; intros iteration st st' Hinv; simpl.
  - destruct (iteration <=? maxIter)%nat; [discriminate|].
    intros [= <-] context Hctx Hstop. rewrite (Hinv _ Hctx) in Hstop. discriminate.
  - destruct (iteration <=? maxIter)%nat.
    + destruct (body iteration st) as [[[|]|e] st1] eqn:Hbody.
      * intros [= <-] context Hctx Hstop.
        destruct (iteration_body_decides _ _ _ _ Hbody) as (c & Hc & _ & Hreason).
        rewrite Hc in Hctx. injection Hctx as <-. auto.
      * apply IH. intros context Hctx.
        destruct (iteration_body_decides _ _ _ _ Hbody) as (c & Hc & Hno & _).
        rewrite Hc in Hctx. injection Hctx as <-. exact Hno.
      * discriminate.
    + intros [= <-] context Hctx Hstop. rewrite (Hinv _ Hctx) in Hstop. discriminate.
Qed.

End ExecuteFacts.

(** C3.  Whatever the collaborators answer, whatever the stop condition and
    [maxIterations], [execute] ends.  When it returns a result, the
    recorded iteration numbers are exactly 1..N for the N records of the
    history and N is at most [maxIterations]; when it fails, at most
    [maxIterations] iterations were completed.  With [maxIterations = 3]
    no record carries the number 4. *)
Theorem execute_history_is_gap_free_and_bounded :
  forall (env : Collaborators) (stopConditions : StopCondition) (params : ExecuteParams),
  exists outcome,
    execute env stopConditions params = Some outcome
    /\ (forall r, outcome = Resolved r ->
          let N := length (iterationHistory r) in
          map number (iterationHistory r) = seq 1 N
          /\ N <= params_maxIterations params
          /\ result_iterations r = N
          /\ (params_maxIterations params = 3 ->
              N <= 3 /\ forall it, In it (iterationHistory r) -> number it <> 4))
    /\ (forall err n, outcome = Rejected err n -> n <= params_maxIterations params).
Proof.
  intros env sc params. unfold execute.
  destruct (run_loop_numbered env sc params (params_maxIterations params) 1 initial_state)
    as (out & N & Hrun & Hnum & HN); [lia | lia | reflexivity |].
  rewrite Hrun.
  assert (HlenN : length (iterations_ (exit_state out)) = N).
  { rewrite <- (length_map number), Hnum. apply length_seq. }
  destruct out as [st|e st]; simpl in Hnum, HlenN.
  - eexists. split; [reflexivity|]. split; [|intros err n [=]].
    intros r [= <-]. simpl. rewrite HlenN. repeat split; auto.
    + lia.
    + intros it Hin Hfour.
      assert (Hmem : In 4 (seq 1 N)).
      { rewrite <- Hnum, <- Hfour. apply in_map. exact Hin. }
      apply in_seq in Hmem. lia.
  - eexists. split; [reflexivity|]. split; [intros r [=]|].
    intros err n [= <- <-]. lia.
Qed.

(** C10.  When the configured stop condition reports a stop without a
    reason in the last recorded iteration, the result of [execute] carries
    the reason [threshold_reached] and [success = true], whatever the final
    score and passed flag are. *)
Theorem stop_without_reason_is_reported_as_success :
  forall (env : Collaborators) (stopConditions : StopCondition) (params : ExecuteParams)
         (r : WorkflowResult) (context : StopConditionContext),
    execute env stopConditions params = Some (Resolved r) ->
    final_context params r = Some context ->
    shouldStop (evaluate stopConditions context) = true ->
    reason (evaluate stopConditions context) = None ->
    result_reason r = threshold_reached /\ success r = true.
Proof.
  intros env sc params r context Hexec Hctx Hstop Hreason.
  unfold execute in Hexec.
  destruct (run_loop _ _ _ _ _ _) as [[st|e st]|] eqn:Hrun; try discriminate.
  injection Hexec as <-.
  assert (Hexit : exit_condition sc params st).
  { eapply run_loop_exit; [|exact Hrun].
    intros c Hc. discriminate. }
  specialize (Hexit context Hctx Hstop). rewrite Hreason in Hexit. simpl in Hexit.
  simpl. rewrite Hexit. split; reflexivity.
Qed.

(** ** Response interpreter *)

Lemma DiscriminatorFeedbackSchema_parse_valid (v : Json.value) (f : DiscriminatorFeedback) :
  DiscriminatorFeedbackSchema_parse v = Some f -> feedback_valid f = true.
Proof.
  unfold DiscriminatorFeedbackSchema_parse, feedback_valid.
  destruct v as [| | | | |fields]; try discriminate.
  destruct (Json.get "passed" fields) as [[]|]; try discriminate.
  destruct (Json.get "score" fields) as [[]|]; try discriminate.
  destruct (Json.get "issues" fields) as [[]|]; try discriminate.
  destruct (Json.get "suggestions" fields) as [[]|]; try discriminate.
  destruct (score_in_range x) eqn:Hrange; [|discriminate].
  destruct (parse_string_array items); [|discriminate].
  destruct (Json.get "reasoning" fields) as [[]|]; try discriminate;
    intros [= <-]; exact Hrange.
Qed.

Section ParseFacts.

Variable JSON_parse : string -> option Json.value.

Lemma parse_and_validate_valid (text : string) (f : DiscriminatorFeedback) :
  parse_and_validate JSON_parse text = Some f -> feedback_valid f = true.
Proof.
  unfold parse_and_validate. destruct (JSON_parse text); [|discriminate].
  apply DiscriminatorFeedbackSchema_parse_valid.
Qed.

Lemma try_block_valid (m : option string) (f : DiscriminatorFeedback) :
  try_block JSON_parse m = Some f -> feedback_valid f = true.
Proof.
  unfold try_block. destruct m as [captured|]; [|discriminate].
  destruct (Str.is_empty captured); [discriminate|].
  apply parse_and_validate_valid.
Qed.

Lemma strategies_valid (response : string) (f : DiscriminatorFeedback) :
  first_result (strategies JSON_parse response) = Some f -> feedback_valid f = true.
Proof.
  simpl.
  destruct (tryParseDirectJson JSON_parse response) eqn:H1.
  { intros [= <-]. exact (parse_and_validate_valid _ _ H1). }
  destruct (tryParseCodeBlock JSON_parse response) eqn:H2.
  { intros [= <-]. unfold tryParseCodeBlock in H2.
    destruct (try_block JSON_parse (match_fence "```json" response)) eqn:Hjson.
    - injection H2 as <-. exact (try_block_valid _ _ Hjson).
    - exact (try_block_valid _ _ H2). }
  destruct (tryExtractBalancedJson JSON_parse response) eqn:H3; [|discriminate].
  intros [= <-]. unfold tryExtractBalancedJson in H3.
  destruct (Str.indexOf "{" response); [|discriminate].
  destruct (find_closing _ _ _); [|discriminate].
  exact (parse_and_validate_valid _ _ H3).
Qed.

End ParseFacts.

(** C4.  For every response text, and whatever [JSON.parse] makes of each
    candidate, [parseResponse] yields a feedback that satisfies the schema
    (no exception path leaves it); the first strategy that succeeds gives
    the result; and when the three strategies all fail the result is the
    fixed fallback: passed = false, score = 0.3, two issues that describe
    the parse failure, a suggestion that announces a retry, and a reasoning
    that names a system issue. *)
Theorem parseResponse_valid_or_fallback :
  forall (JSON_parse : string -> option Json.value) (response : string),
    feedback_valid (parseResponse JSON_parse response) = true
    /\ (tryParseDirectJson JSON_parse response = None ->
        tryParseCodeBlock JSON_parse response = None ->
        tryExtractBalancedJson JSON_parse response = None ->
        parseResponse JSON_parse response
        = {| passed := false;
             score := 0.3%float;
             issues := [ "Evaluation response could not be parsed";
                         "The evaluator did not return valid JSON feedback" ];
             suggestions :=
               "The system will retry the evaluation. If this persists, the workflow may need manual review.";
             reasoning :=
               Some "Parse error occurred while processing the discriminator response. This is a system issue, not a reflection of the content quality." |}).
Proof.
  intros JSON_parse response. split.
  - unfold parseResponse.
    destruct (first_result _) as [f|] eqn:Hfirst.
    + exact (strategies_valid _ _ _ Hfirst).
    + reflexivity.
  - intros H1 H2 H3. unfold parseResponse. simpl.
    rewrite H1, H2, H3. reflexivity.
Qed.

(** ** Retry executor *)

Section RetryFacts.

Context {Num : Type} `{JsNumber Num}.
Variable Math_random : nat -> Num.
Variable T : Type.
Variable fn : nat -> Outcome T.
Variable options : RetryOptions Num.

Local Abbreviation m := (opt_maxAttempts (merge_options options)).
Local Abbreviation loop := (retry_loop Math_random T fn options).

Lemma attempts_made_log (ev : Event Num) (st : RetryState Num) :
  attempts_made (log_event ev st) = attempts_made st + (if is_attempt ev then 1 else 0).
Proof.
  unfold attempts_made, log_event. simpl. rewrite List.filter_app, length_app. simpl.
  destruct (is_attempt ev); reflexivity.
Qed.

Lemma onRetry_calls_log (ev : Event Num) (st : RetryState Num) :
  onRetry_calls (log_event ev st) = onRetry_calls st + (if is_onRetry ev then 1 else 0).
Proof.
  unfold onRetry_calls, log_event. simpl. rewrite List.filter_app, length_app. simpl.
  destruct (is_onRetry ev); reflexivity.
Qed.

Lemma sleeps_log (ev : Event Num) (st : RetryState Num) :
  sleeps (log_event ev st)
  = sleeps st ++ match ev with EvSleep d => [d] | _ => [] end.
Proof.
  unfold sleeps, log_event. simpl. rewrite flat_map_app. simpl.
  rewrite app_nil_r. reflexivity.
Qed.

Lemma calculateDelay_trace (attempt : nat) (o : DelayOptions Num) (st : RetryState Num) :
  trace (snd (calculateDelay Math_random attempt o st)) = trace st.
Proof.
  unfold calculateDelay. destruct (opt_jitter o); reflexivity.
Qed.

Lemma calculateDelay_counts (attempt : nat) (o : DelayOptions Num) (st : RetryState Num) :
  let st' := snd (calculateDelay Math_random attempt o st) in
  attempts_made st' = attempts_made st
  /\ onRetry_calls st' = onRetry_calls st
  /\ sleeps st' = sleeps st.
Proof.
  unfold attempts_made, onRetry_calls, sleeps. simpl.
  rewrite calculateDelay_trace. auto.
Qed.

(** One pass of the loop. *)
Lemma retry_loop_step (fuel attempt : nat) (lastError : JsThrown) (st : RetryState Num) :
  (attempt <=? m)%nat = true ->
  loop (S fuel) attempt lastError st
  = let st := log_event (EvAttempt attempt) st in
    match fn attempt with
    | Returns value => Some (Returns value, st)
    | Throws error =>
        if (attempt =? m)%nat then Some (Throws error, st)
        else if negb (shouldRetry_ options error attempt) then Some (Throws error, st)
        else
          let '(delayMs, st) := calculateDelay Math_random attempt (opts options) st in
          match call_onRetry options error attempt delayMs st with
          | (Throws raised, st) => Some (Throws raised, st)
          | (Returns _, st) =>
              loop fuel (S attempt) error (log_event (EvSleep delayMs) st)
          end
    end.
Proof.
  intros Hguard. cbn [retry_loop]. unfold opts in *. rewrite Hguard. reflexivity.
Qed.

(** After [k] retried failures, the attempt that settles gives the result
    of the run. *)
Lemma retry_loop_settles (k : nat) :
  forall (fuel attempt : nat) (lastError : JsThrown) (st : RetryState Num),
    callback_returns options ->
    (forall a, attempt <= a < attempt + k -> retryable_failure T fn options a) ->
    attempt + k <= m ->
    k < fuel ->
    settles T options (attempt + k) (fn (attempt + k)) ->
    exists st',
      loop fuel attempt lastError st = Some (fn (attempt + k), st')
      /\ attempts_made st' = attempts_made st + S k
      /\ onRetry_calls st' = onRetry_calls st + expected_callbacks options k
      /\ length (sleeps st') = length (sleeps st) + k.
Proof.
  induction k as [|k IH]; intros fuel attempt lastError st Hcb Hfail Hle Hfuel Hset.
  - rewrite Nat.add_0_r in *.
    destruct fuel as [|fuel]; [lia|].
    assert (Hguard : (attempt <=? m)%nat = true) by (apply Nat.leb_le; lia).
    rewrite (retry_loop_step _ _ _ _ Hguard). cbv zeta.
    assert (Hcount : forall st0 : RetryState Num,
               st0 = log_event (EvAttempt attempt) st ->
               attempts_made st0 = attempts_made st + 1
               /\ onRetry_calls st0 = onRetry_calls st + expected_callbacks options 0
               /\ length (sleeps st0) = length (sleeps st) + 0).
    { intros st0 ->. rewrite attempts_made_log, onRetry_calls_log, sleeps_log. simpl.
      rewrite app_nil_r. unfold expected_callbacks.
      destruct (onRetry options); auto. }
    destruct (fn attempt) as [v|e] eqn:Hfn.
    + eexists. split; [reflexivity|]. apply Hcount. reflexivity.
    + change (attempt = m \/ shouldRetry_ options e attempt = false) in Hset.
      destruct (attempt =? m)%nat eqn:Hlast.
      * eexists. split; [reflexivity|]. apply Hcount. reflexivity.
      * destruct Hset as [Hm|Hno]; [apply Nat.eqb_neq in Hlast; lia|].
        rewrite Hno. simpl.
        eexists. split; [reflexivity|]. apply Hcount. reflexivity.
  - destruct fuel as [|fuel]; [lia|].
    assert (Hguard : (attempt <=? m)%nat = true) by (apply Nat.leb_le; lia).
    rewrite (retry_loop_step _ _ _ _ Hguard). cbv zeta.
    destruct (Hfail attempt) as (e & Hfn & Hretry); [lia|].
    rewrite Hfn.
    assert (Hlast : (attempt =? m)%nat = false) by (apply Nat.eqb_neq; lia).
    rewrite Hlast, Hretry. simpl.
    destruct (calculateDelay Math_random attempt (opts options)
                (log_event (EvAttempt attempt) st)) as [delayMs st1] eqn:Hdelay.
    pose proof (calculateDelay_counts attempt (opts options)
                  (log_event (EvAttempt attempt) st)) as Hc.
    rewrite Hdelay in Hc. simpl in Hc. destruct Hc as (Hc1 & Hc2 & Hc3).
    rewrite attempts_made_log in Hc1. rewrite onRetry_calls_log in Hc2.
    rewrite sleeps_log in Hc3. simpl in Hc1, Hc2, Hc3. rewrite app_nil_r in Hc3.
    unfold call_onRetry.
    replace (attempt + S k) with (S attempt + k) in * by lia.
    destruct (onRetry options) as [callback|] eqn:Hopt.
    + rewrite (Hcb callback Hopt).
      edestruct (IH fuel (S attempt) e
                   (log_event (EvSleep delayMs)
                      (log_event (EvOnRetry e attempt delayMs) st1)))
        as (st' & Hrun & Ha & Hb & Hs); try eassumption; try lia.
      { intros a Ha. apply Hfail. lia. }
      exists st'. split; [exact Hrun|].
      rewrite Ha, Hb, Hs.
      rewrite !attempts_made_log, !onRetry_calls_log, !sleeps_log. simpl.
      rewrite app_nil_r, length_app. simpl.
      unfold expected_callbacks. rewrite Hopt, Hc3. lia.
    + edestruct (IH fuel (S attempt) e (log_event (EvSleep delayMs) st1))
        as (st' & Hrun & Ha & Hb & Hs); try eassumption; try lia.
      { intros a Ha. apply Hfail. lia. }
      exists st'. split; [exact Hrun|].
      rewrite Ha, Hb, Hs.
      rewrite !attempts_made_log, !onRetry_calls_log, !sleeps_log. simpl.
      rewrite length_app. simpl.
      unfold expected_callbacks in *. rewrite Hopt in *. rewrite Hc3. lia.
Qed.

End RetryFacts.

(** C5, at inputs on which the code departs from it.  The default policy
    looks for the digits of three status codes anywhere in the message of
    an [Error] before it looks at the status that the error carries.  A
    validation failure with status 400 whose message mentions a count of
    5000 is therefore retried: the call is made three times, with two
    waits, before the error is rethrown.  And of two server-side errors
    that are named in the message only, the one with code 503 is retried
    and the one with code 504 is rethrown after the first attempt. *)
Theorem default_policy_retries_a_client_error :
  forall (Num : Type) (JS : JsNumber Num) (Math_random : nat -> Num) (T : Type),
    documented_class Samples.validation_error = Some Fatal
    /\ (exists st,
          retry Math_random T (fun _ => Throws Samples.validation_error) no_options
          = Some (Throws Samples.validation_error, st)
          /\ attempts_made st = 3
          /\ length (sleeps st) = 2)
    /\ (forall (message : string) (status statusCode : option Z) (attempt : nat),
          includes (toLowerCase message) "500" = true ->
          defaultShouldRetry (ThrownObject true message status statusCode) attempt = true)
    /\ defaultShouldRetry (ThrownObject true "upstream answered 503" None None) 1 = true
    /\ (exists st,
          retry Math_random T (fun _ => Throws Samples.gateway_error) no_options
          = Some (Throws Samples.gateway_error, st)
          /\ attempts_made st = 1).
Proof.
  intros Num JS Math_random T.
  split; [reflexivity|]. split; [|split; [|split; [vm_compute; reflexivity|]]].
  - destruct (retry_loop_settles Math_random T (fun _ => Throws Samples.validation_error)
                no_options 2 3 1 ThrownUndefined fresh_state)
      as (st & Hrun & Hattempts & _ & Hsleeps).
    + intros callback Hcb. discriminate.
    + intros a Ha. exists Samples.validation_error. split; [reflexivity|].
      vm_compute. reflexivity.
    + simpl. lia.
    + lia.
    + left. reflexivity.
    + exists st. split; [exact Hrun|]. split; [exact Hattempts | exact Hsleeps].
  - intros message status statusCode attempt Hdigits. unfold defaultShouldRetry.
    rewrite Hdigits.
    repeat match goal with
           | |- context [includes (toLowerCase message) ?frag] =>
               destruct (includes (toLowerCase message) frag); simpl; try reflexivity
           end.
  - destruct (retry_loop_settles Math_random T (fun _ => Throws Samples.gateway_error)
                no_options 0 3 1 ThrownUndefined fresh_state)
      as (st & Hrun & Hattempts & _).
    + intros callback Hcb. discriminate.
    + intros a Ha. lia.
    + simpl. lia.
    + lia.
    + right. vm_compute. reflexivity.
    + exists st. split; [exact Hrun | exact Hattempts].
Qed.

Section DelayFacts.

Context {Num : Type} `{JsNumber Num}.

(** The delay depends on the random source only through the draw that the
    state points at. *)
Lemma calculateDelay_ext (r1 r2 : nat -> Num) (a : nat) (o : DelayOptions Num)
  (st : RetryState Num) :
  (forall n, r1 n = r2 n) ->
  calculateDelay r1 a o st = calculateDelay r2 a o st.
Proof.
  intros Hsame. unfold calculateDelay, next_random.
  destruct (opt_jitter o); [rewrite Hsame|]; reflexivity.
Qed.

Lemma retry_loop_ext (r1 r2 : nat -> Num) (T : Type) (fn : nat -> Outcome T)
  (options : RetryOptions Num) (fuel : nat) :
  (forall n, r1 n = r2 n) ->
  forall (attempt : nat) (lastError : JsThrown) (st : RetryState Num),
    retry_loop r1 T fn options fuel attempt lastError st
    = retry_loop r2 T fn options fuel attempt lastError st.
Proof.
  intros Hsame. induction fuel as [|fuel IH]; intros attempt lastError st;
    cbn [retry_loop]; [reflexivity|].
  destruct (attempt <=? _)%nat; [|reflexivity].
  destruct (fn attempt) as [v|e]; [reflexivity|].
  destruct (attempt =? _)%nat; [reflexivity|].
  destruct (negb _); [reflexivity|].
  rewrite (calculateDelay_ext r1 r2 _ _ _ Hsame).
  destruct (calculateDelay r2 _ _ _) as [delayMs st1].
  destruct (call_onRetry _ _ _ _ _) as [[u|raised] st2]; [apply IH | reflexivity].
Qed.

End DelayFacts.

(** C7.  For an attempt number [a >= 1], with [d] the product of the
    initial delay and the multiplier to the power [a - 1], capped at the
    maximal delay: without jitter the delay is the floor of [d] and no
    random value is drawn; with jitter it is the floor of [d + d * r] for
    the next draw [r] of the random source; and two random sources that
    produce the same draws give the same delay and the same run. *)
Theorem calculateDelay_formula :
  forall (Num : Type) (JS : JsNumber Num) (Math_random : nat -> Num)
         (a : nat) (options : DelayOptions Num) (st : RetryState Num),
    1 <= a ->
    let d := capped_delay (opt_initialDelayMs options) (opt_backoffMultiplier options)
               (opt_maxDelayMs options) a in
    (opt_jitter options = false ->
     calculateDelay Math_random a options st = (Math_floor d, st))
    /\ (opt_jitter options = true ->
        let r := Math_random (draws st) in
        calculateDelay Math_random a options st
        = (Math_floor (num_add d (num_mul d r)),
           {| draws := S (draws st); trace := trace st |}))
    /\ (forall seeded : nat -> Num,
          (forall n, seeded n = Math_random n) ->
          calculateDelay seeded a options st = calculateDelay Math_random a options st
          /\ forall (T : Type) (fn : nat -> Outcome T) (o : RetryOptions Num),
               retry seeded T fn o = retry Math_random T fn o).
Proof.
  intros Num JS Math_random a options st Ha d.
  split; [|split].
  - intros Hj. unfold calculateDelay. rewrite Hj. reflexivity.
  - intros Hj r. unfold calculateDelay, next_random. rewrite Hj. reflexivity.
  - intros seeded Hsame. split.
    + apply calculateDelay_ext. exact Hsame.
    + intros T fn o. unfold retry. apply retry_loop_ext. exact Hsame.
Qed.

(** With the default options and the exact rationals, attempt 3 waits
    4000 ms without jitter and 6000 ms when the draw is one half. *)
Lemma calculateDelay_formula_witness :
  calculateDelay Samples.steady_half 3 Samples.no_jitter_options fresh_state
  = (4000%Q, fresh_state)
  /\ calculateDelay Samples.steady_half 3 DEFAULT_OPTIONS fresh_state
     = (6000%Q, {| draws := 1; trace := [] |}).
Proof.
  split.
  - exact (proj1 (calculateDelay_formula Q Q_JsNumber Samples.steady_half 3
                    Samples.no_jitter_options fresh_state
                    (le_S _ _ (le_S _ _ (le_n 1)))) eq_refl).
  - exact (proj1 (proj2 (calculateDelay_formula Q Q_JsNumber Samples.steady_half 3
                           DEFAULT_OPTIONS fresh_state
                           (le_S _ _ (le_S _ _ (le_n 1))))) eq_refl).
Defined.

Section CallbackFacts.

Context {Num : Type} `{JsNumber Num}.
Variable Math_random : nat -> Num.
Variable T : Type.
Variable fn : nat -> Outcome T.
Variable options : RetryOptions Num.

Local Abbreviation m := (opt_maxAttempts (merge_options options)).
Local Abbreviation loop := (retry_loop Math_random T fn options).
Local Abbreviation bare_loop := (retry_loop Math_random T fn (without_callback options)).

(** The loop ends whenever the fuel covers the attempts that remain. *)
Lemma retry_loop_total (fuel : nat) :
  forall (attempt : nat) (lastError : JsThrown) (st : RetryState Num),
    m + 1 <= fuel + attempt ->
    exists r, loop fuel attempt lastError st = Some r.
Proof.
  induction fuel as [|fuel IH]; intros attempt lastError st Hfuel.
  - cbn [retry_loop]. unfold opts.
    destruct (attempt <=? m)%nat eqn:Hguard; [apply Nat.leb_le in Hguard; lia|].
    eexists. reflexivity.
  - destruct (attempt <=? m)%nat eqn:Hguard.
    + rewrite (retry_loop_step _ _ _ _ _ _ _ _ Hguard). cbv zeta.
      destruct (fn attempt) as [v|e]; [eexists; reflexivity|].
      destruct (attempt =? m)%nat; [eexists; reflexivity|].
      destruct (negb _); [eexists; reflexivity|].
      destruct (calculateDelay _ _ _ _) as [delayMs st1].
      destruct (call_onRetry _ _ _ _ _) as [[u|raised] st2];
        [apply IH; lia | eexists; reflexivity].
    + cbn [retry_loop]. unfold opts. rewrite Hguard. eexists. reflexivity.
Qed.

(** With a callback in place, every wait of a run has been announced. *)
Lemma retry_loop_announced (callback : JsThrown -> nat -> Num -> Outcome unit) (fuel : nat) :
  onRetry options = Some callback ->
  forall (attempt : nat) (lastError : JsThrown) (st st' : RetryState Num) (out : Outcome T),
    announced fn (trace st) ->
    loop fuel attempt lastError st = Some (out, st') ->
    announced fn (trace st').
Proof.
  intros Hopt. induction fuel as [|fuel IH]; intros attempt lastError st st' out Hst.
  - cbn [retry_loop]. destruct (attempt <=? _)%nat; [discriminate|].
    intros [= <- <-]. exact Hst.
  - cbn [retry_loop]. destruct (attempt <=? _)%nat.
    2:{ intros [= <- <-]. exact Hst. }
    assert (Hatt : announced fn (trace (log_event (EvAttempt attempt) st)))
      by (apply announced_attempt; exact Hst).
    destruct (fn attempt) as [v|e] eqn:Hfn.
    { intros [= <- <-]. exact Hatt. }
    destruct (attempt =? _)%nat.
    { intros [= <- <-]. exact Hatt. }
    destruct (negb _).
    { intros [= <- <-]. exact Hatt. }
    destruct (calculateDelay _ _ _ _) as [delayMs st1] eqn:Hdelay.
    assert (Htr : trace st1 = trace st ++ [EvAttempt attempt]).
    { pose proof (calculateDelay_trace Math_random attempt (opts options)
                    (log_event (EvAttempt attempt) st)) as Ht.
      rewrite Hdelay in Ht. exact Ht. }
    unfold call_onRetry. rewrite Hopt.
    destruct (callback e attempt delayMs) as [u|raised].
    + apply IH. simpl. rewrite <- app_assoc. simpl.
      apply announced_wait; [|exact Hfn]. rewrite Htr. exact Hatt.
    + intros [= <- <-]. simpl.
      apply announced_raise; [|exact Hfn]. rewrite Htr. exact Hatt.
Qed.

Lemma calculateDelay_draws (a : nat) (o : DelayOptions Num) (st1 st2 : RetryState Num) :
  draws st1 = draws st2 ->
  fst (calculateDelay Math_random a o st1) = fst (calculateDelay Math_random a o st2)
  /\ draws (snd (calculateDelay Math_random a o st1))
     = draws (snd (calculateDelay Math_random a o st2)).
Proof.
  intros Hd. unfold calculateDelay, next_random.
  destruct (opt_jitter o); simpl; rewrite Hd; auto.
Qed.

Lemma same_flow_log (ev1 ev2 : Event Num) (st1 st2 : RetryState Num) :
  same_flow st1 st2 ->
  is_attempt ev1 = is_attempt ev2 ->
  match ev1 with EvSleep d => [d] | _ => [] end
  = match ev2 with EvSleep d => [d] | _ => [] end ->
  same_flow (log_event ev1 st1) (log_event ev2 st2).
Proof.
  intros (Hd & Hs & Ha) Hatt Hsl. unfold same_flow.
  rewrite !sleeps_log, !attempts_made_log, Hs, Ha, Hatt, Hsl. auto.
Qed.

Lemma same_flow_skip (ev : Event Num) (st1 st2 : RetryState Num) :
  same_flow st1 st2 ->
  is_attempt ev = false -> is_sleep ev = false ->
  same_flow (log_event ev st1) st2.
Proof.
  intros (Hd & Hs & Ha) Hatt Hsl. unfold same_flow.
  rewrite sleeps_log, attempts_made_log, Hatt.
  destruct ev; try discriminate. simpl. rewrite app_nil_r, Nat.add_0_r. auto.
Qed.

(** A callback that returns normally leaves the control flow as it is
    without a callback. *)
Lemma retry_loop_callback_irrelevant (fuel : nat) :
  callback_returns options ->
  forall (attempt : nat) (lastError : JsThrown) (st1 st2 : RetryState Num),
    same_flow st1 st2 ->
    match loop fuel attempt lastError st1, bare_loop fuel attempt lastError st2 with
    | Some (out1, st1'), Some (out2, st2') => out1 = out2 /\ same_flow st1' st2'
    | None, None => True
    | _, _ => False
    end.
Proof.
  intros Hcb. induction fuel as [|fuel IH]; intros attempt lastError st1 st2 Hflow;
    cbn [retry_loop]; change (opts (without_callback options)) with (opts options).
  - destruct (attempt <=? _)%nat; auto.
  - destruct (attempt <=? _)%nat; [|auto].
    assert (Hflow1 : same_flow (log_event (EvAttempt attempt) st1)
                               (log_event (EvAttempt attempt) st2))
      by (apply same_flow_log; auto).
    destruct (fn attempt) as [v|e]; [auto|].
    destruct (attempt =? _)%nat; [auto|].
    change (shouldRetry_ (without_callback options)) with (shouldRetry_ options).
    destruct (negb _); [auto|].
    pose proof (calculateDelay_draws attempt (opts options) _ _ (proj1 Hflow1))
      as (Hdelay & Hdraws).
    pose proof (calculateDelay_counts Math_random attempt (opts options)
                  (log_event (EvAttempt attempt) st1)) as (Ha1 & _ & Hs1).
    pose proof (calculateDelay_counts Math_random attempt (opts options)
                  (log_event (EvAttempt attempt) st2)) as (Ha2 & _ & Hs2).
    destruct (calculateDelay Math_random attempt (opts options)
                (log_event (EvAttempt attempt) st1)) as [d1 s1].
    destruct (calculateDelay Math_random attempt (opts options)
                (log_event (EvAttempt attempt) st2)) as [d2 s2].
    simpl in Hdelay, Hdraws, Ha1, Hs1, Ha2, Hs2. subst d2.
    assert (Hflow2 : same_flow s1 s2).
    { destruct Hflow1 as (_ & Hs & Ha). unfold same_flow.
      rewrite Hs1, Hs2, Ha1, Ha2. auto. }
    unfold call_onRetry. simpl.
    destruct (onRetry options) as [callback|] eqn:Hopt.
    + rewrite (Hcb callback Hopt). apply IH.
      apply same_flow_log; auto. apply same_flow_skip; auto.
    + apply IH. apply same_flow_log; auto.
Qed.

(** The first [k] attempts fail with retried errors and the callback
    returns for each of them: the loop reaches attempt [attempt + k]. *)
Lemma retry_loop_skip (k : nat) :
  forall (fuel attempt : nat) (lastError : JsThrown) (st : RetryState Num),
    (forall callback, onRetry options = Some callback ->
       forall e a d, attempt <= a < attempt + k -> callback e a d = Returns tt) ->
    (forall a, attempt <= a < attempt + k -> retryable_failure T fn options a) ->
    attempt + k <= m ->
    exists lastError' st',
      loop (k + fuel) attempt lastError st = loop fuel (attempt + k) lastError' st'
      /\ attempts_made st' = attempts_made st + k
      /\ length (sleeps st') = length (sleeps st) + k.
Proof.
  induction k as [|k IH]; intros fuel attempt lastError st Hcb Hfail Hle.
  - exists lastError, st. rewrite !Nat.add_0_r. auto.
  - assert (Hguard : (attempt <=? m)%nat = true) by (apply Nat.leb_le; lia).
    change (S k + fuel) with (S (k + fuel)).
    rewrite (retry_loop_step _ _ _ _ _ _ _ _ Hguard). cbv zeta.
    destruct (Hfail attempt) as (e & Hfn & Hretry); [lia|].
    rewrite Hfn.
    assert (Hlast : (attempt =? m)%nat = false) by (apply Nat.eqb_neq; lia).
    rewrite Hlast, Hretry. simpl.
    pose proof (calculateDelay_counts Math_random attempt (opts options)
                  (log_event (EvAttempt attempt) st)) as (Hc1 & _ & Hc3).
    destruct (calculateDelay Math_random attempt (opts options)
                (log_event (EvAttempt attempt) st)) as [delayMs st1].
    simpl in Hc1, Hc3.
    rewrite attempts_made_log in Hc1. rewrite sleeps_log in Hc3.
    simpl in Hc1, Hc3. rewrite app_nil_r in Hc3.
    unfold call_onRetry.
    replace (attempt + S k) with (S attempt + k) in * by lia.
    destruct (onRetry options) as [callback|] eqn:Hopt.
    + rewrite (Hcb callback eq_refl e attempt delayMs) by lia.
      edestruct (IH fuel (S attempt) e
                   (log_event (EvSleep delayMs)
                      (log_event (EvOnRetry e attempt delayMs) st1)))
        as (lastError' & st' & Hrun & Ha & Hs).
      * intros cb [= <-] e0 a d Ha. apply (Hcb callback eq_refl). lia.
      * intros a Ha. apply Hfail. lia.
      * lia.
      * exists lastError', st'. split; [exact Hrun|].
        rewrite Ha, Hs, !attempts_made_log, !sleeps_log. simpl.
        rewrite app_nil_r, length_app, Hc3. simpl. lia.
    + edestruct (IH fuel (S attempt) e (log_event (EvSleep delayMs) st1))
        as (lastError' & st' & Hrun & Ha & Hs).
      * intros cb [=].
      * intros a Ha. apply Hfail. lia.
      * lia.
      * exists lastError', st'. split; [exact Hrun|].
        rewrite Ha, Hs, !attempts_made_log, !sleeps_log. simpl.
        rewrite length_app, Hc3. simpl. lia.
Qed.

End CallbackFacts.

(** A callback that throws on its first invocation ends the run with its
    own exception: the call is not attempted again and nothing is waited
    for, whereas the same run with a callback that returns yields the
    value of the second attempt. *)
Lemma throwing_callback_alters_control_flow :
  (fst <$> retry Samples.steady_half nat Samples.fails_once_then_succeeds
             (Samples.options_with Samples.failing_callback))
  = Some (Throws Samples.callback_error)
  /\ (fst <$> retry Samples.steady_half nat Samples.fails_once_then_succeeds
                (Samples.options_with Samples.observing_callback))
     = Some (Returns 42)
  /\ (attempts_made ∘ snd <$> retry Samples.steady_half nat Samples.fails_once_then_succeeds
                                (Samples.options_with Samples.failing_callback))
     = Some 1
  /\ (sleeps ∘ snd <$> retry Samples.steady_half nat Samples.fails_once_then_succeeds
                         (Samples.options_with Samples.failing_callback))
     = Some [].
Proof. vm_compute. repeat split; reflexivity. Qed.

(** C8 (amended).  With an [onRetry] callback supplied: every wait of a
    run directly follows an invocation of the callback with the error of
    the failed attempt, the attempt number and the delay of that wait; a
    callback that returns normally leaves result, waits and attempts as
    they are without a callback; and a callback that throws on the retry
    of attempt [k + 1] ends the run with the exception it raised, after
    [k + 1] attempts and [k] waits. *)
Theorem onRetry_callback_contract :
  forall (Num : Type) (JS : JsNumber Num) (Math_random : nat -> Num) (T : Type)
         (fn : nat -> Outcome T) (options : RetryOptions Num)
         (callback : JsThrown -> nat -> Num -> Outcome unit),
    onRetry options = Some callback ->
    (forall out st, retry Math_random T fn options = Some (out, st) ->
                    announced fn (trace st))
    /\ ((forall e a d, callback e a d = Returns tt) ->
        exists out st st0,
          retry Math_random T fn options = Some (out, st)
          /\ retry Math_random T fn (without_callback options) = Some (out, st0)
          /\ sleeps st = sleeps st0
          /\ attempts_made st = attempts_made st0)
    /\ (forall (k : nat) (raised : JsThrown),
          S k < opt_maxAttempts (merge_options options) ->
          (forall a, 1 <= a <= S k -> retryable_failure T fn options a) ->
          (forall e a d, 1 <= a <= k -> callback e a d = Returns tt) ->
          (forall e d, callback e (S k) d = Throws raised) ->
          exists st,
            retry Math_random T fn options = Some (Throws raised, st)
            /\ attempts_made st = S k
            /\ length (sleeps st) = k).
Proof.
  intros Num JS Math_random T fn options callback Hopt.
  split; [|split].
  - intros out st Hrun. unfold retry in Hrun.
    eapply retry_loop_announced; [exact Hopt | | exact Hrun].
    apply announced_nil.
  - intros Hret.
    assert (Hcb : callback_returns options).
    { intros cb Hcb. rewrite Hopt in Hcb. injection Hcb as <-. exact Hret. }
    pose proof (retry_loop_callback_irrelevant Math_random T fn options
                  (opt_maxAttempts (merge_options options)) Hcb
                  1 ThrownUndefined fresh_state fresh_state) as Hsame.
    destruct (retry_loop_total Math_random T fn options
                (opt_maxAttempts (merge_options options)) 1 ThrownUndefined fresh_state)
      as ([out st] & Hrun); [lia|].
    unfold retry, opts.
    change (merge_options (without_callback options)) with (merge_options options).
    rewrite Hrun in *.
    destruct (retry_loop Math_random T fn (without_callback options) _ _ _ _)
      as [[out0 st0]|].
    + destruct Hsame as (-> & _ & Hs & Ha); [repeat split|].
      exists out0, st, st0. auto.
    + destruct Hsame; repeat split.
  - intros k raised Hk Hfail Hret Hraise.
    set (m := opt_maxAttempts (merge_options options)) in *.
    destruct (retry_loop_skip Math_random T fn options k (m - k) 1
                ThrownUndefined fresh_state)
      as (lastError' & st' & Hrun & Ha & Hs).
    { intros cb Hcb e a d Hrange. rewrite Hopt in Hcb. injection Hcb as <-.
      apply Hret. lia. }
    { intros a Hrange. apply Hfail. lia. }
    { subst m. lia. }
    assert (Hstart : retry Math_random T fn options
                     = retry_loop Math_random T fn options (k + (m - k)) 1
                         ThrownUndefined fresh_state).
    { unfold retry, opts. fold m. replace (k + (m - k)) with m by lia. reflexivity. }
    rewrite Hstart, Hrun. clear Hstart Hrun.
    destruct (m - k) as [|fuel] eqn:Hfuel; [lia|].
    assert (Hguard : (1 + k <=? m)%nat = true) by (apply Nat.leb_le; lia).
    subst m. rewrite (retry_loop_step _ _ _ _ _ _ _ _ Hguard). cbv zeta.
    destruct (Hfail (1 + k)) as (e & Hfn & Hretry); [lia|].
    rewrite Hfn.
    assert (Hlast : (1 + k =? opt_maxAttempts (merge_options options))%nat = false)
      by (apply Nat.eqb_neq; lia).
    rewrite Hlast, Hretry. simpl negb. cbv iota.
    pose proof (calculateDelay_counts Math_random (1 + k) (opts options)
                  (log_event (EvAttempt (1 + k)) st')) as (Hc1 & _ & Hc3).
    destruct (calculateDelay Math_random (1 + k) (opts options)
                (log_event (EvAttempt (1 + k)) st')) as [delayMs st1].
    simpl in Hc1, Hc3.
    rewrite attempts_made_log in Hc1. rewrite sleeps_log in Hc3.
    simpl in Hc1, Hc3. rewrite app_nil_r in Hc3.
    unfold call_onRetry. rewrite Hopt.
    change (1 + k) with (S k). rewrite Hraise.
    eexists. split; [reflexivity|].
    rewrite attempts_made_log, sleeps_log. simpl.
    rewrite app_nil_r, Hc1, Hc3, Ha, Hs. simpl.
    unfold attempts_made, sleeps. simpl. lia.
Qed.

(** The sample call with a callback that returns on the first retry and
    throws on the second: the run ends with the callback's exception after
    two attempts and one wait, and attempt 3 is never made. *)
Lemma onRetry_callback_contract_witness :
  exists st,
    retry Samples.steady_half nat Samples.fails_twice_then_succeeds
      (Samples.options_with Samples.callback_failing_on_second)
    = Some (Throws Samples.callback_error, st)
    /\ attempts_made st = 2
    /\ length (sleeps st) = 1.
Proof.
  refine (proj2 (proj2 (onRetry_callback_contract Q Q_JsNumber Samples.steady_half nat
                          Samples.fails_twice_then_succeeds
                          (Samples.options_with Samples.callback_failing_on_second)
                          Samples.callback_failing_on_second eq_refl))
            1 Samples.callback_error _ _ _ _).
  - vm_compute. lia.
  - intros a Ha. assert (Hcases : a = 1 \/ a = 2) by lia.
    destruct Hcases as [-> | ->];
      exists Samples.rate_limit_error; split; reflexivity.
  - intros e a d Ha. assert (a = 1) as -> by lia. reflexivity.
  - intros e d. reflexivity.
Defined.

(** A run whose only feedback has score 0.2 and passed = false, stopped by
    a condition that gives no reason, is reported as a success. *)
Lemma stop_without_reason_witness :
  exists r,
    execute (Samples.collaborators_scoring (fun _ => 0.2%float) (fun _ => false))
      Samples.stop_without_reason Samples.three_iterations
    = Some (Resolved r)
    /\ finalScore r = 0.2%float
    /\ result_iterations r = 1
    /\ result_reason r = threshold_reached
    /\ success r = true.
Proof.
  eexists. split; [vm_compute; reflexivity|].
  split; [reflexivity|]. split; [reflexivity|].
  eapply (stop_without_reason_is_reported_as_success
            (Samples.collaborators_scoring (fun _ => 0.2%float) (fun _ => false))
            Samples.stop_without_reason Samples.three_iterations);
    vm_compute; reflexivity.
Defined.

(** ** Snapshot store *)

Section StoreFacts.

Context {Text : Type}.
Variable JSON_stringify : Store.WorkflowState -> Text.
Variable JSON_parse : Text -> option Store.WorkflowState.
Variable is_empty : Text -> bool.
Variable this : Store.WorkflowStateStore.

Local Abbreviation observe := (Store.observe JSON_stringify JSON_parse is_empty this).

(** A snapshot that has just been saved is read back as it was saved, by
    a client on the server and by a client on the fallback alike. *)
Lemma save_then_get (now : Z) (state : Store.WorkflowState) (c : Store.Client Text) :
  JSON_parse (JSON_stringify state) = Some state ->
  is_empty (JSON_stringify state) = false ->
  (0 <= Store.ttlSeconds this)%Z ->
  observe true [(now, Store.Save state); (now, Store.Get (Store.id state))] c
  = [Store.Saved; Store.Got (Some state)].
Proof.
  intros Hround Hfull Httl.
  assert (Hlive : forall v : Text,
             Store.expired now
               {| Store.value := v;
                  Store.expireAt := Some (now + Store.ttlSeconds this * 1000)%Z |} = false).
  { intros v. unfold Store.expired. simpl. apply Z.ltb_ge. lia. }
  unfold Store.observe, Store.perform, Store.save, Store.get.
  unfold Store.client_set, Store.client_get.
  destruct c as [uses server fallback]. destruct uses; simpl.
  - unfold Store.InMemoryStore_get, Store.InMemoryStore_set, Store.InMemoryStore in *.
    simpl. rewrite lookup_insert_eq, Hlive. simpl. rewrite Hfull, Hround. reflexivity.
  - destruct (Store.ttlSeconds this =? 0)%Z eqn:Hzero; simpl.
    + unfold Store.Redis_GET, Store.Redis_live, Store.Redis_SET, Store.Redis_db in *.
      rewrite lookup_insert_eq. simpl. rewrite Hfull, Hround. reflexivity.
    + unfold Store.Redis_SETEX.
      assert (Hpos : (Store.ttlSeconds this <=? 0)%Z = false).
      { apply Z.leb_gt. apply Z.eqb_neq in Hzero. lia. }
      rewrite Hpos. simpl.
      unfold Store.Redis_GET, Store.Redis_live, Store.Redis_db in *.
      rewrite lookup_insert_eq, Hlive. simpl. rewrite Hfull, Hround. reflexivity.
Qed.

(** Deleting a snapshot whose time to live has run out: the server
    reports that nothing was deleted, the fallback that the snapshot was,
    although both say at that instant that it does not exist. *)
Lemma delete_after_expiry (state : Store.WorkflowState) (now later : Z) :
  (0 < Store.ttlSeconds this)%Z ->
  (now + Store.ttlSeconds this * 1000 < later)%Z ->
  observe true [(now, Store.Save state); (later, Store.Delete (Store.id state))]
    Store.networked
  = [Store.Saved; Store.Deleted false]
  /\ observe true [(now, Store.Save state); (later, Store.Delete (Store.id state))]
       Store.degraded
     = [Store.Saved; Store.Deleted true]
  /\ observe true [(now, Store.Save state); (later, Store.Exists (Store.id state))]
       Store.networked
     = [Store.Saved; Store.Existed false]
  /\ observe true [(now, Store.Save state); (later, Store.Exists (Store.id state))]
       Store.degraded
     = [Store.Saved; Store.Existed false].
Proof.
  intros Httl Hlater.
  assert (Hgone : forall v : Text,
             Store.expired later
               {| Store.value := v;
                  Store.expireAt := Some (now + Store.ttlSeconds this * 1000)%Z |} = true).
  { intros v. unfold Store.expired. simpl. apply Z.ltb_lt. lia. }
  assert (Hnz : (Store.ttlSeconds this =? 0)%Z = false) by (apply Z.eqb_neq; lia).
  assert (Hpos : (Store.ttlSeconds this <=? 0)%Z = false) by (apply Z.leb_gt; lia).
  unfold Store.observe, Store.perform, Store.save, Store.delete_, Store.exists_.
  unfold Store.client_set, Store.client_del, Store.client_exists. simpl.
  rewrite Hnz. unfold Store.Redis_SETEX. rewrite Hpos. simpl.
  unfold Store.Redis_DEL, Store.Redis_EXISTS, Store.Redis_live,
    Store.InMemoryStore_del, Store.InMemoryStore_exists, Store.InMemoryStore_set,
    Store.InMemoryStore, Store.Redis_db in *.
  simpl. rewrite !lookup_insert_eq, !Hgone. simpl.
  repeat split; reflexivity.
Qed.

End StoreFacts.

(** C9, at the input on which the two backings differ: with the default
    time to live of 24 hours, a snapshot saved at instant 0 and deleted one
    millisecond after its expiry.  The store on the server answers false,
    the store on the fallback answers true. *)
Theorem fallback_delete_differs_after_expiry :
  forall (Text : Type) (JSON_stringify : Store.WorkflowState -> Text)
         (JSON_parse : Text -> option Store.WorkflowState) (is_empty : Text -> bool)
         (state : Store.WorkflowState),
    let ops := [(0%Z, Store.Save state); (86400001%Z, Store.Delete (Store.id state))] in
    Store.observe JSON_stringify JSON_parse is_empty Store.default_store true ops
      Store.networked
    = [Store.Saved; Store.Deleted false]
    /\ Store.observe JSON_stringify JSON_parse is_empty Store.default_store true ops
         Store.degraded
       = [Store.Saved; Store.Deleted true].
Proof.
  intros Text JSON_stringify JSON_parse is_empty state ops.
  destruct (delete_after_expiry JSON_stringify JSON_parse is_empty Store.default_store
              state 0 86400001) as (Hnet & Hmem & _).
  - reflexivity.
  - reflexivity.
  - split; [exact Hnet | exact Hmem].
Qed.

(** ** Worker and cancellation *)

(** C6, at an input on which the code departs from it: a job of at most
    three iterations whose feedback never passes (score 0.5), with a
    cancellation request served while the loop is running.  The request is
    accepted (the snapshot becomes [cancelled] and the job is marked), but
    the loop records all three iterations and the worker then overwrites
    the status with [completed]. *)
Theorem cancellation_request_does_not_stop_the_loop :
  let env := Samples.collaborators_scoring (fun _ => 0.5%float) (fun _ => false) in
  let process :=
    Worker.processWorkflowJob (fun s => s) Some (fun _ => false) Store.default_store in
  let status :=
    Worker.stored_status Some (fun _ => false) Store.default_store in
  let wid := Worker.workflowId WorkerSamples.job_data in
  let requested :=
    WorkerSamples.cancel_request
      (Worker.start_job (fun s => s) Store.default_store 1000 WorkerSamples.job_data
         WorkerSamples.idle_world) in
  status 2000%Z wid requested = Some Store.cancelled
  /\ Worker.shouldCancelJob (Worker.job requested) = true
  /\ exists result w,
       process env 1000%Z 9000%Z WorkerSamples.job_data WorkerSamples.cancel_request
         WorkerSamples.idle_world
       = Some (Returns result, w)
       /\ Worker.iterations result = 3
       /\ Worker.reason result = "max_iterations"
       /\ status 9000%Z wid w = Some Store.completed.
Proof.
  cbv zeta. split; [vm_compute; reflexivity|]. split; [vm_compute; reflexivity|].
  eexists. eexists. split; [vm_compute; reflexivity|].
  split; [reflexivity|]. split; [reflexivity|]. vm_compute. reflexivity.
Qed.

(** ** Further properties *)



(** With the identity as serialisation, a snapshot saved in a store on
    the server, or in a store on the fallback, is read back unchanged. *)
Lemma save_then_get_witness :
  let state :=
    Store.createInitialState 0 "11111111-1111-4111-8111-111111111111" "write a haiku"
      ["three lines"] 3 0.7%float "generator-model" "discriminator-model" in
  Store.observe (fun s => s) Some (fun _ => false) Store.default_store true
    [(0%Z, Store.Save state); (0%Z, Store.Get (Store.id state))] Store.networked
  = [Store.Saved; Store.Got (Some state)]
  /\ Store.observe (fun s => s) Some (fun _ => false) Store.default_store true
       [(0%Z, Store.Save state); (0%Z, Store.Get (Store.id state))] Store.degraded
     = [Store.Saved; Store.Got (Some state)].
Proof.
  split.
  - exact (save_then_get (fun s => s) Some (fun _ => false) Store.default_store 0 _
             Store.networked eq_refl eq_refl (proj1 (Z.leb_le 0 86400) eq_refl)).
  - exact (save_then_get (fun s => s) Some (fun _ => false) Store.default_store 0 _
             Store.degraded eq_refl eq_refl (proj1 (Z.leb_le 0 86400) eq_refl)).
Defined.

(** ** The two backings of the snapshot store *)

Section BackingFacts.

Context {Text : Type}.

Implicit Types (d : Store.Redis_db Text) (store : Store.InMemoryStore Text).
Implicit Types (item : Store.StoreEntry Text) (c : Store.Client Text).

Lemma expired_later (t1 t2 : Z) item :
  (t1 <= t2)%Z -> Store.expired t1 item = true -> Store.expired t2 item = true.
Proof.
  unfold Store.expired. destruct (Store.expireAt item) as [e|]; [|discriminate].
  intros Hle H. apply Z.ltb_lt in H. apply Z.ltb_lt. lia.
Qed.

Lemma live_insert (now : Z) (key k : string) item d :
  Store.Redis_live now key (<[k := item]> d)
  = if decide (k = key)
    then (if Store.expired now item then None else Some item)
    else Store.Redis_live now key d.
Proof.
  unfold Store.Redis_live, Store.Redis_db in *. rewrite lookup_insert.
  destruct (decide (k = key)); reflexivity.
Qed.

Lemma live_delete (now : Z) (key k : string) d :
  Store.Redis_live now key (delete k d)
  = if decide (k = key) then None else Store.Redis_live now key d.
Proof.
  unfold Store.Redis_live, Store.Redis_db in *. rewrite lookup_delete.
  destruct (decide (k = key)); reflexivity.
Qed.

(** A key that shows no live entry now shows none later. *)
Lemma live_none_later (t1 t2 : Z) (key : string) d :
  (t1 <= t2)%Z -> Store.Redis_live t1 key d = None -> Store.Redis_live t2 key d = None.
Proof.
  unfold Store.Redis_live. intros Hle.
  destruct (d !! key) as [item|]; [|reflexivity].
  destruct (Store.expired t1 item) eqn:Hexp; [|discriminate].
  intros _. rewrite (expired_later _ _ _ Hle Hexp). reflexivity.
Qed.

Lemma agree_later (t1 t2 : Z) d store :
  (t1 <= t2)%Z -> Store.agree t1 d store -> Store.agree t2 d store.
Proof. intros Hle H key now Hnow. apply H. lia. Qed.

Lemma agree_insert (t : Z) (k : string) item d store :
  Store.agree t d store -> Store.agree t (<[k := item]> d) (<[k := item]> store).
Proof.
  intros H key now Hnow. rewrite !live_insert.
  destruct (decide (k = key)); [reflexivity | apply H; exact Hnow].
Qed.

Lemma agree_delete (t : Z) (k : string) d store :
  Store.agree t d store -> Store.agree t (delete k d) (delete k store).
Proof.
  intros H key now Hnow. rewrite !live_delete.
  destruct (decide (k = key)); [reflexivity | apply H; exact Hnow].
Qed.

(** Purging from the fallback an entry that has expired keeps the
    agreement. *)
Lemma agree_purge (t : Z) (k : string) d store :
  Store.agree t d store ->
  Store.Redis_live t k store = None ->
  Store.agree t d (delete k store).
Proof.
  intros H Hgone key now Hnow. rewrite live_delete.
  destruct (decide (k = key)) as [<-|]; [|apply H; exact Hnow].
  rewrite (H k now Hnow). apply (live_none_later t now); assumption.
Qed.

Lemma InMemoryStore_get_live (now : Z) (key : string) store :
  fst (Store.InMemoryStore_get now key store)
  = Store.value <$> Store.Redis_live now key store.
Proof.
  unfold Store.InMemoryStore_get, Store.Redis_live, Store.InMemoryStore, Store.Redis_db in *.
  destruct (store !! key) as [item|]; [|reflexivity].
  destruct (Store.expired now item); reflexivity.
Qed.

Lemma InMemoryStore_exists_live (now : Z) (key : string) store :
  fst (Store.InMemoryStore_exists now key store)
  = match Store.Redis_live now key store with Some _ => 1%Z | None => 0%Z end.
Proof.
  unfold Store.InMemoryStore_exists, Store.Redis_live, Store.InMemoryStore, Store.Redis_db in *.
  destruct (store !! key) as [item|]; [|reflexivity].
  destruct (Store.expired now item); reflexivity.
Qed.

(** What a read leaves of the fallback map: the map itself, or the map
    without the entry that the read found expired. *)
Lemma InMemoryStore_get_purges (now : Z) (key : string) store :
  snd (Store.InMemoryStore_get now key store) = store
  \/ (snd (Store.InMemoryStore_get now key store) = delete key store
      /\ Store.Redis_live now key store = None).
Proof.
  unfold Store.InMemoryStore_get, Store.Redis_live, Store.InMemoryStore, Store.Redis_db in *.
  destruct (store !! key) as [item|]; [|left; reflexivity].
  destruct (Store.expired now item); [right | left]; auto.
Qed.

Lemma InMemoryStore_exists_purges (now : Z) (key : string) store :
  snd (Store.InMemoryStore_exists now key store) = store
  \/ (snd (Store.InMemoryStore_exists now key store) = delete key store
      /\ Store.Redis_live now key store = None).
Proof.
  unfold Store.InMemoryStore_exists, Store.Redis_live, Store.InMemoryStore, Store.Redis_db in *.
  destruct (store !! key) as [item|]; [|left; reflexivity].
  destruct (Store.expired now item); [right | left]; auto.
Qed.

Lemma client_set_agree (t now ttl : Z) (key : string) (v : Text) c1 c2 :
  (0 < ttl)%Z -> (t <= now)%Z ->
  Store.backings_agree t c1 c2 ->
  Store.backings_agree now (Store.client_set now true key v (Some ttl) c1)
    (Store.client_set now true key v (Some ttl) c2).
Proof.
  intros Httl Hnow (H1 & H2 & Hagree).
  unfold Store.client_set, Store.truthy, Store.Redis_SETEX.
  rewrite H1, H2. simpl.
  assert (Hnz : (ttl =? 0)%Z = false) by (apply Z.eqb_neq; lia).
  assert (Hpos : (ttl <=? 0)%Z = false) by (apply Z.leb_gt; lia).
  rewrite Hnz, Hpos. simpl.
  repeat split; auto. simpl. unfold Store.InMemoryStore_set. simpl.
  apply agree_insert. apply (agree_later t now); assumption.
Qed.

Lemma client_get_agree (t now : Z) (key : string) c1 c2 :
  (t <= now)%Z ->
  Store.backings_agree t c1 c2 ->
  fst (Store.client_get now true key c1) = fst (Store.client_get now true key c2)
  /\ Store.backings_agree now (snd (Store.client_get now true key c1))
       (snd (Store.client_get now true key c2)).
Proof.
  intros Hnow (H1 & H2 & Hagree).
  unfold Store.client_get. rewrite H1, H2. simpl.
  pose proof (InMemoryStore_get_live now key (Store.fallback c2)) as Hlive.
  pose proof (InMemoryStore_get_purges now key (Store.fallback c2)) as Hpurge.
  destruct (Store.InMemoryStore_get now key (Store.fallback c2)) as [r f].
  simpl in *. subst r. split.
  - unfold Store.Redis_GET. rewrite (Hagree key now Hnow). reflexivity.
  - repeat split; auto. simpl.
    destruct Hpurge as [-> | [-> Hgone]].
    + apply (agree_later t now); assumption.
    + apply agree_purge; [apply (agree_later t now); assumption | exact Hgone].
Qed.

Lemma client_exists_agree (t now : Z) (key : string) c1 c2 :
  (t <= now)%Z ->
  Store.backings_agree t c1 c2 ->
  fst (Store.client_exists now true key c1) = fst (Store.client_exists now true key c2)
  /\ Store.backings_agree now (snd (Store.client_exists now true key c1))
       (snd (Store.client_exists now true key c2)).
Proof.
  intros Hnow (H1 & H2 & Hagree).
  unfold Store.client_exists. rewrite H1, H2. simpl.
  pose proof (InMemoryStore_exists_live now key (Store.fallback c2)) as Hlive.
  pose proof (InMemoryStore_exists_purges now key (Store.fallback c2)) as Hpurge.
  destruct (Store.InMemoryStore_exists now key (Store.fallback c2)) as [r f].
  simpl in *. subst r. split.
  - unfold Store.Redis_EXISTS. rewrite (Hagree key now Hnow). reflexivity.
  - repeat split; auto. simpl.
    destruct Hpurge as [-> | [-> Hgone]].
    + apply (agree_later t now); assumption.
    + apply agree_purge; [apply (agree_later t now); assumption | exact Hgone].
Qed.

Lemma InMemoryStore_del_agree (t : Z) (key : string) d store :
  Store.agree t d store ->
  Store.agree t (delete key d) (snd (Store.InMemoryStore_del key store)).
Proof.
  intros Hagree. unfold Store.InMemoryStore_del.
  destruct (store !! key) as [item|] eqn:Hl; simpl.
  - apply agree_delete. exact Hagree.
  - intros k now Hnow. rewrite live_delete.
    destruct (decide (key = k)) as [<-|]; [|apply Hagree; exact Hnow].
    unfold Store.Redis_live, Store.InMemoryStore, Store.Redis_db in *.
    rewrite Hl. reflexivity.
Qed.

Lemma client_del_agree (t now : Z) (key : string) c1 c2 :
  (t <= now)%Z ->
  Store.backings_agree t c1 c2 ->
  Store.backings_agree now (snd (Store.client_del now true key c1))
    (snd (Store.client_del now true key c2)).
Proof.
  intros Hnow (H1 & H2 & Hagree).
  unfold Store.client_del. rewrite H1, H2. simpl.
  assert (Hsrv : snd (Store.Redis_DEL now key (Store.server c1))
                 = delete key (Store.server c1)).
  { unfold Store.Redis_DEL. destruct (Store.Redis_live _ _ _); reflexivity. }
  pose proof (InMemoryStore_del_agree now key (Store.server c1) (Store.fallback c2)
                (agree_later t now _ _ Hnow Hagree)) as Hdel.
  destruct (Store.Redis_DEL now key (Store.server c1)) as [result d'].
  destruct (Store.InMemoryStore_del key (Store.fallback c1)) as [r1 f1].
  destruct (Store.InMemoryStore_del key (Store.fallback c2)) as [r2 f2].
  simpl in *. subst d'. repeat split; auto.
Qed.

End BackingFacts.

Section RefinementFacts.

Context {Text : Type}.
Variable JSON_stringify : Store.WorkflowState -> Text.
Variable JSON_parse : Text -> option Store.WorkflowState.
Variable is_empty : Text -> bool.
Variable this : Store.WorkflowStateStore.

Local Abbreviation perform := (Store.perform JSON_stringify JSON_parse is_empty this).
Local Abbreviation observe := (Store.observe JSON_stringify JSON_parse is_empty this).

(** One operation, run by a client on the server and by a client on the
    fallback that agree: the two see the same (up to what a deletion
    answers) and still agree afterwards. *)
Lemma perform_agree (t now : Z) (op : Store.Operation) (c1 c2 : Store.Client Text) :
  (0 < Store.ttlSeconds this)%Z ->
  (t <= now)%Z ->
  Store.backings_agree t c1 c2 ->
  Store.similar (fst (perform now true op c1)) (fst (perform now true op c2))
  /\ (Store.is_delete op = false ->
      fst (perform now true op c1) = fst (perform now true op c2))
  /\ Store.backings_agree now (snd (perform now true op c1)) (snd (perform now true op c2)).
Proof.
  intros Httl Hnow Hagree.
  destruct op as [state | workflowId | workflowId | workflowId]; simpl.
  - split; [reflexivity|]. split; [reflexivity|].
    unfold Store.save. apply (client_set_agree t); assumption.
  - unfold Store.get.
    destruct (client_get_agree t now (Store.getKey this workflowId) c1 c2 Hnow Hagree)
      as (Hdata & Hafter).
    destruct (Store.client_get now true _ c1) as [data1 c1'].
    destruct (Store.client_get now true _ c2) as [data2 c2'].
    simpl in Hdata, Hafter. subst data2.
    destruct data1 as [data|]; [destruct (is_empty data)|]; simpl; auto.
  - unfold Store.delete_.
    pose proof (client_del_agree t now (Store.getKey this workflowId) c1 c2 Hnow Hagree)
      as Hafter.
    destruct (Store.client_del now true _ c1) as [r1 c1'].
    destruct (Store.client_del now true _ c2) as [r2 c2'].
    simpl in *. split; [exact I|]. split; [discriminate | exact Hafter].
  - unfold Store.exists_.
    destruct (client_exists_agree t now (Store.getKey this workflowId) c1 c2 Hnow Hagree)
      as (Hres & Hafter).
    destruct (Store.client_exists now true _ c1) as [r1 c1'].
    destruct (Store.client_exists now true _ c2) as [r2 c2'].
    simpl in *. subst r2. auto.
Qed.

Lemma observe_cons (now : Z) (op : Store.Operation) (rest : list (Z * Store.Operation))
  (c : Store.Client Text) :
  observe true ((now, op) :: rest) c
  = fst (perform now true op c) :: observe true rest (snd (perform now true op c)).
Proof.
  simpl. destruct (Store.perform _ _ _ _ now true op c). reflexivity.
Qed.

Lemma observe_agree (ops : list (Z * Store.Operation)) :
  forall (t : Z) (c1 c2 : Store.Client Text),
    (0 < Store.ttlSeconds this)%Z ->
    Store.backings_agree t c1 c2 ->
    Store.chronological t ops ->
    Forall2 Store.similar (observe true ops c1) (observe true ops c2)
    /\ (forallb (fun o => negb (Store.is_delete (snd o))) ops = true ->
        observe true ops c1 = observe true ops c2).
Proof.
  induction ops as [|[now op] rest IH]; intros t c1 c2 Httl Hagree Htime.
  - split; [constructor | reflexivity].
  - destruct Htime as (Hnow & Hrest).
    destruct (perform_agree t now op c1 c2 Httl Hnow Hagree) as (Hsim & Heq & Hafter).
    destruct (IH now _ _ Httl Hafter Hrest) as (IHsim & IHeq).
    rewrite !observe_cons. split.
    + constructor; assumption.
    + simpl. intros Hall. apply andb_true_iff in Hall. destruct Hall as (Hop & Hall).
      apply negb_true_iff in Hop. rewrite (Heq Hop), (IHeq Hall). reflexivity.
Qed.

End RefinementFacts.

(** For a positive time to live and operations issued at instants that
    never go back, a store on the server and a store on the fallback,
    both empty at the start, show the same results of [save], [get] and
    [exists]; only what [delete] answers can differ, and a sequence
    without deletions is observed exactly alike. *)
Theorem backings_observed_alike :
  forall (Text : Type) (JSON_stringify : Store.WorkflowState -> Text)
         (JSON_parse : Text -> option Store.WorkflowState) (is_empty : Text -> bool)
         (this : Store.WorkflowStateStore) (ops : list (Z * Store.Operation)) (t : Z),
    (0 < Store.ttlSeconds this)%Z ->
    Store.chronological t ops ->
    Forall2 Store.similar
      (Store.observe JSON_stringify JSON_parse is_empty this true ops Store.networked)
      (Store.observe JSON_stringify JSON_parse is_empty this true ops Store.degraded)
    /\ (forallb (fun o => negb (Store.is_delete (snd o))) ops = true ->
        Store.observe JSON_stringify JSON_parse is_empty this true ops Store.networked
        = Store.observe JSON_stringify JSON_parse is_empty this true ops Store.degraded).
Proof.
  intros Text JSON_stringify JSON_parse is_empty this ops t Httl Htime.
  apply (observe_agree JSON_stringify JSON_parse is_empty this ops t); auto.
  repeat split; auto.
Qed.

(** The sample session is observed alike on both backings. *)
Lemma backings_observed_alike_witness :
  Store.observe (fun s => s) Some (fun _ => false) Store.default_store true
    StoreSamples.session Store.networked
  = Store.observe (fun s => s) Some (fun _ => false) Store.default_store true
      StoreSamples.session Store.degraded.
Proof.
  refine (proj2 (backings_observed_alike Store.WorkflowState (fun s => s) Some
                   (fun _ => false) Store.default_store StoreSamples.session 0 _ _)
            eq_refl).
  - reflexivity.
  - simpl. repeat split; lia.
Defined.

Section StoreReads.

Context {Text : Type}.
Variable JSON_stringify : Store.WorkflowState -> Text.
Variable JSON_parse : Text -> option Store.WorkflowState.
Variable is_empty : Text -> bool.
Variable this : Store.WorkflowStateStore.

Local Abbreviation save := (Store.save JSON_stringify this).
Local Abbreviation get := (Store.get JSON_parse is_empty this).
Local Abbreviation ttl := (Store.ttlSeconds this).

Local Abbreviation readable := (Store.readable JSON_stringify JSON_parse is_empty).

Lemma saved_entry_live (now now' : Z) (v : Text) :
  (now' <= now + ttl * 1000)%Z ->
  Store.expired now' {| Store.value := v; Store.expireAt := Some (now + ttl * 1000)%Z |}
  = false.
Proof. intros Hle. unfold Store.expired. simpl. apply Z.ltb_ge. lia. Qed.

(** A read that goes to the fallback map finds what the last [save] wrote
    there, whether or not the server took that write. *)
Lemma get_after_save_fallback (now now' : Z) (r1 r2 : bool) (state : Store.WorkflowState)
  (c : Store.Client Text) :
  readable state ->
  Store.usesFallback c || negb r2 = true ->
  (now' <= now + ttl * 1000)%Z ->
  fst (get now' r2 (Store.id state) (save now r1 state c)) = Some state.
Proof.
  intros (Hround & Hfull) Hmode Hlive.
  assert (Hmode' : Store.usesFallback (save now r1 state c) || negb r2 = true).
  { unfold Store.save, Store.client_set.
    destruct (Store.usesFallback c || negb r1); [exact Hmode|].
    destruct (Store.truthy _); [destruct (Store.Redis_SETEX _ _ _ _ _)|]; exact Hmode. }
  assert (Hfb : Store.fallback (save now r1 state c)
                = Store.InMemoryStore_set now (Store.getKey this (Store.id state))
                    (JSON_stringify state) (Some ttl) (Store.fallback c)).
  { unfold Store.save, Store.client_set.
    destruct (Store.usesFallback c || negb r1); [reflexivity|].
    destruct (Store.truthy _); [destruct (Store.Redis_SETEX _ _ _ _ _)|]; reflexivity. }
  unfold Store.get, Store.client_get. rewrite Hmode', Hfb.
  unfold Store.InMemoryStore_get, Store.InMemoryStore_set, Store.InMemoryStore in *.
  rewrite lookup_insert_eq. simpl. rewrite (saved_entry_live _ _ _ Hlive). simpl.
  rewrite Hfull. exact Hround.
Qed.

(** A read that goes to the server finds what the last [save] wrote when
    the server took that write. *)
Lemma get_after_save_server (now now' : Z) (state : Store.WorkflowState)
  (c : Store.Client Text) :
  readable state ->
  Store.usesFallback c = false ->
  (0 <= ttl)%Z ->
  (now' <= now + ttl * 1000)%Z ->
  fst (get now' true (Store.id state) (save now true state c)) = Some state.
Proof.
  intros (Hround & Hfull) Hmode Httl Hlive.
  unfold Store.get, Store.save, Store.client_get, Store.client_set.
  rewrite Hmode. simpl. unfold Store.truthy.
  destruct (ttl =? 0)%Z eqn:Hzero; simpl.
  - rewrite Hmode. simpl.
    unfold Store.Redis_GET, Store.Redis_live, Store.Redis_SET, Store.Redis_db in *.
    rewrite lookup_insert_eq. simpl. rewrite Hfull. exact Hround.
  - unfold Store.Redis_SETEX.
    assert (Hpos : (ttl <=? 0)%Z = false).
    { apply Z.leb_gt. apply Z.eqb_neq in Hzero. lia. }
    rewrite Hpos. simpl. rewrite Hmode. simpl.
    unfold Store.Redis_GET, Store.Redis_live, Store.Redis_db in *.
    rewrite lookup_insert_eq, (saved_entry_live _ _ _ Hlive). simpl.
    rewrite Hfull. exact Hround.
Qed.

(** A [save] that the server did not take is not seen by a later read
    that the server answers. *)
Lemma get_after_unreachable_save (now now' : Z) (workflowId : string)
  (state : Store.WorkflowState) (c : Store.Client Text) :
  Store.usesFallback c = false ->
  fst (get now' true workflowId (save now false state c))
  = fst (get now' true workflowId c).
Proof.
  intros Hmode. unfold Store.get, Store.save, Store.client_get, Store.client_set.
  rewrite Hmode. simpl. rewrite Hmode. simpl.
  destruct (Store.Redis_GET _ _ _) as [data|]; [destruct (is_empty data)|]; reflexivity.
Qed.

End StoreReads.

Section StoreWrites.

Context {Text : Type}.
Variable JSON_stringify : Store.WorkflowState -> Text.
Variable JSON_parse : Text -> option Store.WorkflowState.
Variable is_empty : Text -> bool.
Variable this : Store.WorkflowStateStore.

Local Abbreviation save := (Store.save JSON_stringify this).
Local Abbreviation get := (Store.get JSON_parse is_empty this).
Local Abbreviation update := (Store.update JSON_stringify JSON_parse is_empty this).
Local Abbreviation addIteration :=
  (Store.addIteration JSON_stringify JSON_parse is_empty this).
Local Abbreviation delete_ := (@Store.delete_ Text this).
Local Abbreviation exists_ := (@Store.exists_ Text this).
Local Abbreviation readable := (Store.readable JSON_stringify JSON_parse is_empty).
Local Abbreviation ttl := (Store.ttlSeconds this).

Lemma get_keeps_mode (now : Z) (r : bool) (workflowId : string) (c : Store.Client Text) :
  Store.usesFallback (snd (get now r workflowId c)) = Store.usesFallback c.
Proof.
  unfold Store.get, Store.client_get.
  destruct (Store.usesFallback c || negb r).
  - destruct (Store.InMemoryStore_get _ _ _) as [[data|] f]; [destruct (is_empty data)|];
      reflexivity.
  - destruct (Store.Redis_GET _ _ _) as [data|]; [destruct (is_empty data)|]; reflexivity.
Qed.

(** A snapshot written by [save] is read back at the same instant by a
    read that takes the same path. *)
Lemma get_after_save (now : Z) (r : bool) (state : Store.WorkflowState)
  (c : Store.Client Text) :
  readable state ->
  (0 <= ttl)%Z ->
  fst (get now r (Store.id state) (save now r state c)) = Some state.
Proof.
  intros Hread Httl.
  destruct (Store.usesFallback c || negb r) eqn:Hmode.
  - apply get_after_save_fallback; [exact Hread | exact Hmode | lia].
  - apply orb_false_iff in Hmode. destruct Hmode as (Hfb & Hr).
    apply negb_false_iff in Hr. subst r.
    apply get_after_save_server; [exact Hread | exact Hfb | exact Httl | lia].
Qed.

(** [update] merges the changes into the stored snapshot, stamps it and
    writes it; the snapshot is read back whenever its serialisation can
    be; on a missing snapshot nothing is written. *)
Lemma update_read_back (now : Z) (r : bool) (workflowId : string) (updates : Store.Updates)
  (c : Store.Client Text) :
  (0 <= ttl)%Z ->
  match fst (get now r workflowId c) with
  | Some current =>
      Store.id current = workflowId ->
      fst (update now r workflowId updates c) = Some (Store.merge current updates now)
      /\ (readable (Store.merge current updates now) ->
          fst (get now r workflowId (snd (update now r workflowId updates c)))
          = Some (Store.merge current updates now))
  | None =>
      update now r workflowId updates c = (None, snd (get now r workflowId c))
  end.
Proof.
  intros Httl. unfold Store.update.
  destruct (get now r workflowId c) as [[current|] c'] eqn:Hget; simpl; [|reflexivity].
  intros Hid. split; [reflexivity|]. intros Hread.
  rewrite <- Hid.
  change (Store.id current) with (Store.id (Store.merge current updates now)).
  apply get_after_save; assumption.
Qed.

(** [addIteration] on a stored snapshot appends the record at the end of
    the history, copies its number, output, feedback and score into the
    current fields and leaves the status alone; a read at the same instant
    returns what was written whenever the serialisation of that snapshot
    can be read back.  On a missing snapshot it returns null and writes
    nothing. *)
Lemma addIteration_read_back (now : Z) (r : bool) (workflowId : string)
  (iteration : IterationState) (c : Store.Client Text) :
  (0 <= ttl)%Z ->
  match fst (get now r workflowId c) with
  | Some current =>
      Store.id current = workflowId ->
      exists updated,
        fst (addIteration now r workflowId iteration c) = Some updated
        /\ Store.iterations updated = Store.iterations current ++ [iteration]
        /\ Store.currentIteration updated = number iteration
        /\ Store.currentOutput updated = Some (generatorOutput iteration)
        /\ Store.lastFeedback updated = Some (feedback iteration)
        /\ Store.currentScore updated = Some (score (feedback iteration))
        /\ Store.status updated = Store.status current
        /\ Store.updatedAt updated = now
        /\ (readable updated ->
            fst (get now r workflowId (snd (addIteration now r workflowId iteration c)))
            = Some updated)
  | None =>
      addIteration now r workflowId iteration c = (None, snd (get now r workflowId c))
  end.
Proof.
  intros Httl. unfold Store.addIteration.
  destruct (get now r workflowId c) as [[current|] c'] eqn:Hget; simpl; [|reflexivity].
  intros Hid. eexists. split; [reflexivity|].
  do 7 (split; [reflexivity|]).
  intros Hread. rewrite <- Hid.
  match goal with
  | |- context [Store.save _ _ _ _ ?u _] =>
      change (Store.id current) with (Store.id u);
      apply get_after_save; [exact Hread | exact Httl]
  end.
Qed.

(** After a deletion, reads that take the same path find nothing. *)
Lemma delete_forgets (now now' : Z) (r : bool) (workflowId : string)
  (c : Store.Client Text) :
  let c' := snd (delete_ now r workflowId c) in
  fst (get now' r workflowId c') = None
  /\ fst (exists_ now' r workflowId c') = false
  /\ fst (delete_ now' r workflowId c') = false.
Proof.
  unfold Store.delete_, Store.get, Store.exists_, Store.client_del, Store.client_get,
    Store.client_exists.
  destruct (Store.usesFallback c || negb r) eqn:Hmode.
  - assert (Hgone : snd (Store.InMemoryStore_del (Store.getKey this workflowId)
                           (Store.fallback c)) !! Store.getKey this workflowId = None).
    { generalize (Store.fallback c) (Store.getKey this workflowId). intros store key.
      unfold Store.InMemoryStore_del, Store.InMemoryStore, Store.Redis_db in *.
      destruct (store !! key) eqn:Hl; simpl; [apply lookup_delete_eq | exact Hl]. }
    destruct (Store.InMemoryStore_del _ (Store.fallback c)) as [n f]. simpl in *.
    rewrite Hmode.
    unfold Store.InMemoryStore_get, Store.InMemoryStore_exists, Store.InMemoryStore_del,
      Store.InMemoryStore in *.
    rewrite Hgone. simpl. auto.
  - assert (Hsrv : forall t, Store.Redis_live t (Store.getKey this workflowId)
                               (snd (Store.Redis_DEL now (Store.getKey this workflowId)
                                       (Store.server c))) = None).
    { intros t. unfold Store.Redis_DEL.
      destruct (Store.Redis_live now _ _); simpl; rewrite live_delete;
        rewrite decide_True; reflexivity. }
    destruct (Store.Redis_DEL now _ (Store.server c)) as [n d].
    destruct (Store.InMemoryStore_del _ (Store.fallback c)) as [n' f].
    simpl in *. rewrite Hmode.
    unfold Store.Redis_GET, Store.Redis_EXISTS, Store.Redis_DEL.
    rewrite !Hsrv. simpl.
    destruct (Store.InMemoryStore_del _ f). simpl. auto.
Qed.

End StoreWrites.

(** The write-through copy: a snapshot saved while the server answers is
    still read, within its time to live, when the server has stopped
    answering; a snapshot saved while the server does not answer is not
    seen by a read that the server answers again. *)
Theorem write_through_covers_outage :
  forall (Text : Type) (JSON_stringify : Store.WorkflowState -> Text)
         (JSON_parse : Text -> option Store.WorkflowState) (is_empty : Text -> bool)
         (this : Store.WorkflowStateStore) (now now' : Z) (state : Store.WorkflowState)
         (c : Store.Client Text),
    Store.readable JSON_stringify JSON_parse is_empty state ->
    Store.usesFallback c = false ->
    (now' <= now + Store.ttlSeconds this * 1000)%Z ->
    fst (Store.get JSON_parse is_empty this now' false (Store.id state)
           (Store.save JSON_stringify this now true state c))
    = Some state
    /\ forall workflowId,
         fst (Store.get JSON_parse is_empty this now' true workflowId
                (Store.save JSON_stringify this now false state c))
         = fst (Store.get JSON_parse is_empty this now' true workflowId c).
Proof.
  intros Text JSON_stringify JSON_parse is_empty this now now' state c Hread Hmode Hlive.
  split.
  - apply get_after_save_fallback; [exact Hread | | exact Hlive].
    rewrite Hmode. reflexivity.
  - intros workflowId. apply get_after_unreachable_save. exact Hmode.
Qed.

(** The sample snapshot, saved at instant 0 on the server, is read one
    second later from the write-through copy. *)
Lemma write_through_covers_outage_witness :
  fst (Store.get Some (fun _ => false) Store.default_store 1000 false
         (Store.id StoreSamples.snapshot)
         (Store.save (fun s => s) Store.default_store 0 true StoreSamples.snapshot
            Store.networked))
  = Some StoreSamples.snapshot.
Proof.
  refine (proj1 (write_through_covers_outage Store.WorkflowState (fun s => s) Some
                   (fun _ => false) Store.default_store 0 1000 StoreSamples.snapshot
                   Store.networked _ eq_refl _)).
  - split; reflexivity.
  - vm_compute. discriminate.
Defined.



(** Appending a first record to the sample snapshot. *)
Lemma addIteration_read_back_witness :
  exists updated,
    fst (Store.addIteration (fun s => s) Some (fun _ => false) Store.default_store 5000 true
           (Store.id StoreSamples.snapshot) (iteration_of_score 1 0.5%float)
           (Store.save (fun s => s) Store.default_store 0 true StoreSamples.snapshot
              Store.networked))
    = Some updated
    /\ Store.iterations updated = [iteration_of_score 1 0.5%float]
    /\ Store.currentIteration updated = 1
    /\ Store.currentScore updated = Some 0.5%float.
Proof.
  pose proof (addIteration_read_back (fun s => s) Some (fun _ => false)
                Store.default_store 5000 true (Store.id StoreSamples.snapshot)
                (iteration_of_score 1 0.5%float)
                (Store.save (fun s => s) Store.default_store 0 true StoreSamples.snapshot
                   Store.networked)
                (proj1 (Z.leb_le 0 86400) eq_refl)) as H.
  assert (Hget : fst (Store.get Some (fun _ => false) Store.default_store 5000 true
                        (Store.id StoreSamples.snapshot)
                        (Store.save (fun s => s) Store.default_store 0 true
                           StoreSamples.snapshot Store.networked))
                 = Some StoreSamples.snapshot) by (vm_compute; reflexivity).
  rewrite Hget in H.
  destruct (H eq_refl) as (updated & Hadd & Hiter & Hcur & _ & _ & Hscore & _).
  exists updated. split; [exact Hadd|]. split; [exact Hiter|]. split; [exact Hcur|].
  exact Hscore.
Defined.

(** ** The shape of a retry run *)

Section RunShape.

Context {Num : Type} `{JsNumber Num}.
Variable Math_random : nat -> Num.
Variable T : Type.
Variable fn : nat -> Outcome T.
Variable options : RetryOptions Num.

Local Abbreviation m := (opt_maxAttempts (merge_options options)).
Local Abbreviation loop := (retry_loop Math_random T fn options).
Local Abbreviation scheduled := (scheduled_delay Math_random options).
Local Abbreviation at_attempt := (Retry.at_attempt Math_random options).
Local Abbreviation after_attempts := (Retry.after_attempts Math_random options).

Lemma calculateDelay_scheduled (attempt : nat) (st : RetryState Num) :
  (opt_jitter (opts options) = true -> draws st = attempt - 1) ->
  fst (calculateDelay Math_random attempt (opts options) st) = scheduled attempt
  /\ (opt_jitter (opts options) = true ->
      draws (snd (calculateDelay Math_random attempt (opts options) st)) = S (attempt - 1)).
Proof.
  unfold scheduled_delay, calculateDelay, next_random.
  destruct (opt_jitter (opts options)); simpl; intros Hd.
  - rewrite (Hd eq_refl). auto.
  - split; [reflexivity | discriminate].
Qed.

Lemma retry_loop_shape (fuel : nat) :
  forall (attempt : nat) (lastError : JsThrown) (st : RetryState Num),
    1 <= attempt <= m ->
    m + 1 <= fuel + attempt ->
    at_attempt attempt st ->
    exists out st' n,
      loop fuel attempt lastError st = Some (out, st')
      /\ attempt <= n <= m
      /\ after_attempts n st'.
Proof.
  induction fuel as [|fuel IH]; intros attempt lastError st Hrange Hfuel Hhead; [lia|].
  assert (Hguard : (attempt <=? m)%nat = true) by (apply Nat.leb_le; lia).
  rewrite (retry_loop_step _ _ _ _ _ _ _ _ Hguard). cbv zeta.
  destruct Hhead as (Ha & Hs & Hc & Hd).
  assert (Hdone : after_attempts attempt (log_event (EvAttempt attempt) st)).
  { unfold Retry.after_attempts.
    rewrite attempts_made_log, sleeps_log, onRetry_calls_log. simpl.
    rewrite app_nil_r. repeat split; [lia | exact Hs | lia]. }
  destruct (fn attempt) as [v|e].
  { do 2 eexists. exists attempt. split; [reflexivity|]. split; [lia | exact Hdone]. }
  destruct (attempt =? m)%nat eqn:Hlast.
  { do 2 eexists. exists attempt. split; [reflexivity|]. split; [lia | exact Hdone]. }
  destruct (negb _).
  { do 2 eexists. exists attempt. split; [reflexivity|]. split; [lia | exact Hdone]. }
  apply Nat.eqb_neq in Hlast.
  destruct (calculateDelay_scheduled attempt (log_event (EvAttempt attempt) st) Hd)
    as (Hdelay & Hdraws).
  pose proof (calculateDelay_counts Math_random attempt (opts options)
                (log_event (EvAttempt attempt) st)) as (Hc1 & Hc2 & Hc3).
  destruct (calculateDelay Math_random attempt (opts options)
              (log_event (EvAttempt attempt) st)) as [delayMs st1].
  simpl in Hdelay, Hdraws, Hc1, Hc2, Hc3. subst delayMs.
  destruct Hdone as (Hda & Hds & Hdc).
  rewrite Hda in Hc1. rewrite Hds in Hc3.
  assert (Hseq : map scheduled (seq 1 (attempt - 1)) ++ [scheduled attempt]
                 = map scheduled (seq 1 (S attempt - 1))).
  { replace (S attempt - 1) with (S (attempt - 1)) by lia.
    rewrite seq_S, map_app. simpl. do 3 f_equal. lia. }
  unfold call_onRetry.
  destruct (onRetry options) as [callback|].
  - destruct (callback e attempt (scheduled attempt)) as [u|raised].
    + edestruct (IH (S attempt) e
                   (log_event (EvSleep (scheduled attempt))
                      (log_event (EvOnRetry e attempt (scheduled attempt)) st1)))
        as (out & st' & n & Hrun & Hn & Hafter); [lia | lia | |].
      * unfold Retry.at_attempt.
        rewrite !attempts_made_log, !sleeps_log, !onRetry_calls_log. simpl.
        rewrite app_nil_r, Hc1, Hc2, Hc3, Hseq, onRetry_calls_log. simpl.
        split; [lia|]. split; [reflexivity|]. split; [lia|].
        intros Hj. rewrite (Hdraws Hj). lia.
      * exists out, st', n. split; [exact Hrun|]. split; [lia | exact Hafter].
    + do 2 eexists. exists attempt. split; [reflexivity|]. split; [lia|].
      unfold Retry.after_attempts.
      rewrite attempts_made_log, sleeps_log, onRetry_calls_log. simpl.
      rewrite app_nil_r, Hc2, onRetry_calls_log. simpl.
      split; [lia|]. split; [exact Hc3 | lia].
  - edestruct (IH (S attempt) e (log_event (EvSleep (scheduled attempt)) st1))
      as (out & st' & n & Hrun & Hn & Hafter); [lia | lia | |].
    + unfold Retry.at_attempt.
      rewrite !attempts_made_log, !sleeps_log, !onRetry_calls_log. simpl.
      rewrite Hc1, Hc2, Hc3, Hseq, onRetry_calls_log. simpl.
      split; [lia|]. split; [reflexivity|]. split; [lia|].
      intros Hj. rewrite (Hdraws Hj). lia.
    + exists out, st', n. split; [exact Hrun|]. split; [lia | exact Hafter].
Qed.

End RunShape.

(** Every run of [retry] ends.  It makes at most [maxAttempts] calls of
    the wrapped function; between two calls it waits exactly once, and the
    waits are the scheduled delays of attempts 1, 2, ... in that order;
    the callback is invoked at most once per call.  With [maxAttempts = 0]
    the function is never called and [undefined] is thrown. *)
Theorem retry_run_shape :
  forall (Num : Type) (JS : JsNumber Num) (Math_random : nat -> Num) (T : Type)
         (fn : nat -> Outcome T) (options : RetryOptions Num),
  exists out st,
    retry Math_random T fn options = Some (out, st)
    /\ attempts_made st <= opt_maxAttempts (merge_options options)
    /\ sleeps st
       = map (scheduled_delay Math_random options) (seq 1 (attempts_made st - 1))
    /\ onRetry_calls st <= attempts_made st
    /\ (opt_maxAttempts (merge_options options) = 0 ->
        out = Throws ThrownUndefined /\ attempts_made st = 0)
    /\ (1 <= opt_maxAttempts (merge_options options) -> 1 <= attempts_made st).
Proof.
  intros Num JS Math_random T fn options. unfold retry, opts.
  destruct (opt_maxAttempts (merge_options options)) as [|m'] eqn:Hm.
  - cbn [retry_loop]. unfold opts. rewrite Hm. simpl.
    do 2 eexists. split; [reflexivity|]. repeat split; auto; lia.
  - destruct (retry_loop_shape Math_random T fn options (S m') 1 ThrownUndefined
                fresh_state) as (out & st & n & Hrun & Hn & Ha & Hs & Hc).
    + rewrite Hm. lia.
    + rewrite Hm. lia.
    + split; [reflexivity|]. split; [reflexivity|]. split; [apply Nat.le_refl|].
      intros _. reflexivity.
    + exists out, st. split; [exact Hrun|]. rewrite Hm in Hn. rewrite Ha.
      split; [lia|]. split; [exact Hs|]. split; [exact Hc|].
      split; [discriminate | lia].
Qed.

(** ** What the loop of [execute] records *)

Section LoopFacts.

Variable env : Collaborators.
Variable stopConditions : StopCondition.
Variable params : ExecuteParams.

Local Abbreviation body := (iteration_body env stopConditions params).
Local Abbreviation loop := (run_loop env stopConditions params).
Local Abbreviation maxIter := (params_maxIterations params).
Local Abbreviation recorded := (recorded env stopConditions params).
Local Abbreviation chained := (chained env params).
Local Abbreviation stops_after := (stops_after stopConditions params).
Local Abbreviation context_of_history := (context_of_history params).
Local Abbreviation loop_postcondition :=
  (loop_postcondition env stopConditions params).

Lemma recorded_initial : recorded 1 initial_state.
Proof.
  unfold Orchestrator.recorded. simpl.
  split; [reflexivity|]. split; [reflexivity|]. split; [reflexivity|]. split.
  - intros k it Hk. discriminate.
  - intros k Hk. lia.
Qed.

Lemma chained_snoc (history : list IterationState) (it : IterationState) :
  chained history ->
  number it = S (length history) ->
  produced env params (last history) it ->
  chained (history ++ [it]).
Proof.
  intros Hch Hno Hprod k it' Hk.
  destruct (decide (k < length history)) as [Hlt|Hge].
  - rewrite lookup_app_l in Hk by exact Hlt.
    destruct (Hch k it' Hk) as (Hn & Hp). split; [exact Hn|].
    destruct k as [|j]; [exact Hp|].
    rewrite lookup_app_l by lia. exact Hp.
  - assert (Hlen : k = length history).
    { apply lookup_lt_Some in Hk. rewrite length_app in Hk. simpl in Hk. lia. }
    subst k. rewrite lookup_app_r in Hk by lia.
    rewrite Nat.sub_diag in Hk. injection Hk as <-.
    split; [exact Hno|].
    destruct (length history) as [|j] eqn:Hl.
    + destruct history; [exact Hprod | discriminate].
    + rewrite lookup_app_l by lia.
      rewrite last_lookup, Hl in Hprod. exact Hprod.
Qed.

(** One pass of the loop: what it appends and what it leaves in the loop
    variables, and where an exception comes from. *)
Lemma iteration_body_records (iteration : nat) (st st' : LoopState) (out : Outcome bool) :
  1 <= iteration ->
  recorded iteration st ->
  stops_after (iterations_ st) = false ->
  body iteration st = (out, st') ->
  match out with
  | Returns stop =>
      recorded (S iteration) st'
      /\ stops_after (iterations_ st') = stop
      /\ stopReason st'
         = if stop
           then match context_of_history (iterations_ st') with
                | Some context =>
                    default threshold_reached (reason (evaluate stopConditions context))
                | None => stopReason st
                end
           else stopReason st
  | Throws e =>
      (st' = st /\ thrown_in_pass env params iteration st e)
      \/ (recorded (S iteration) st'
          /\ exists context,
               context_of_history (iterations_ st') = Some context
               /\ raises stopConditions context = Some e)
  end.
Proof.
  intros Hpos (Hlen & Hfb & Hout & Hch & Hpre) Hlast.
  unfold iteration_body, thrown_in_pass.
  destruct (generator_run _ _ _ _) as [g|e] eqn:Hg;
    [|intros [= <- <-]; left; split; [reflexivity | left; reflexivity]].
  destruct (discriminator_run _ _ _ _ _) as [d|e] eqn:Hd;
    [|intros [= <- <-]; left; split; [reflexivity | right; eauto]].
  match goal with
  | |- context [evaluate stopConditions ?c] => set (context := c)
  end.
  match goal with
  | |- context [iterations_ st ++ [?i]] => set (it := i) in *
  end.
  assert (Hctx : context_of_history (iterations_ st ++ [it]) = Some context).
  { unfold Orchestrator.context_of_history. rewrite last_snoc. reflexivity. }
  assert (Hrec : forall reason',
             recorded (S iteration)
               {| iterations_ := iterations_ st ++ [it];
                  currentOutput := output g;
                  lastFeedback := Some (result_feedback d);
                  stopReason := reason' |}).
  { intros reason'. unfold Orchestrator.recorded. simpl.
    rewrite length_app, last_snoc. simpl.
    split; [lia|]. split; [reflexivity|]. split; [reflexivity|]. split.
    - apply chained_snoc; [exact Hch | simpl; lia |].
      exists g, d. simpl. rewrite <- Hfb. auto.
    - intros k Hk.
      destruct (decide (k < length (iterations_ st))) as [Hlt|Hge].
      + rewrite take_app_le by lia. apply Hpre. exact Hlt.
      + replace k with (length (iterations_ st)) by lia.
        rewrite take_app_length. exact Hlast. }
  destruct (raises stopConditions context) as [e|] eqn:Hraise.
  - intros [= <- <-]. right. split; [apply Hrec|].
    exists context. simpl. split; [exact Hctx | exact Hraise].
  - destruct (shouldStop (evaluate stopConditions context)) eqn:Hstop;
      intros [= <- <-]; simpl; (split; [apply Hrec|]);
      unfold Orchestrator.stops_after; rewrite Hctx; auto.
Qed.

Lemma run_loop_records (fuel : nat) :
  forall (iteration : nat) (st : LoopState) (out : LoopExit),
    1 <= iteration <= maxIter + 1 ->
    recorded iteration st ->
    stops_after (iterations_ st) = false ->
    stopReason st = max_iterations ->
    loop fuel iteration st = Some out ->
    loop_postcondition out.
Proof.
  induction fuel as [|fuel IH]; intros iteration st out Hpos Hrec Hlast Hreason; simpl.
  - destruct (iteration <=? maxIter)%nat eqn:Hguard; [discriminate|].
    apply Nat.leb_gt in Hguard. intros [= <-]. simpl.
    exists (iteration - 1). replace (S (iteration - 1)) with iteration by lia.
    split; [exact Hrec|]. split; [lia|]. rewrite Hlast. split; [lia | exact Hreason].
  - destruct (iteration <=? maxIter)%nat eqn:Hguard.
    + apply Nat.leb_le in Hguard.
      destruct (body iteration st) as [[stop|e] st1] eqn:Hbody.
      * destruct (iteration_body_records _ _ _ _ (proj1 Hpos) Hrec Hlast Hbody)
          as (Hrec1 & Hstop1 & Hreason1).
        destruct stop.
        -- intros [= <-]. simpl. exists iteration.
           split; [exact Hrec1|]. split; [exact Hguard|].
           rewrite Hstop1.
           unfold Orchestrator.stops_after in Hstop1.
           destruct (context_of_history (iterations_ st1)); [exact Hreason1 | discriminate].
        -- apply IH; [lia | exact Hrec1 | exact Hstop1 | congruence].
      * intros [= <-]. simpl.
        destruct (iteration_body_records _ _ _ _ (proj1 Hpos) Hrec Hlast Hbody)
          as [(-> & Hthrown)|(Hrec1 & Hraised)].
        -- exists (iteration - 1).
           replace (S (iteration - 1)) with iteration by lia.
           split; [exact Hrec|]. split; [lia|]. left.
           split; [lia|]. split; [exact Hlast | exact Hthrown].
        -- exists iteration. split; [exact Hrec1|]. split; [exact Hguard|].
           right. exact Hraised.
    + apply Nat.leb_gt in Hguard. intros [= <-]. simpl.
      exists (iteration - 1). replace (S (iteration - 1)) with iteration by lia.
      split; [exact Hrec|]. split; [lia|]. rewrite Hlast. split; [lia | exact Hreason].
Qed.

Lemma execute_records (out : LoopExit) :
  loop maxIter 1 initial_state = Some out -> loop_postcondition out.
Proof.
  apply run_loop_records; [lia | apply recorded_initial | reflexivity | reflexivity].
Qed.

End LoopFacts.

(** The records of a result are chained through the runners: record [k+1]
    holds what the generator answered to the feedback of record [k] (to no
    feedback for the first record) and what the discriminator answered to
    that output; the result's output and final score are those of the last
    record, and the empty string and 0 when nothing was recorded. *)
Theorem execute_history_replays_the_runners :
  forall (env : Collaborators) (stopConditions : StopCondition) (params : ExecuteParams)
         (r : WorkflowResult),
    execute env stopConditions params = Some (Resolved r) ->
    chained env params (iterationHistory r)
    /\ result_output r = default "" (generatorOutput <$> last (iterationHistory r))
    /\ finalScore r
       = default 0%float ((fun it => score (feedback it)) <$> last (iterationHistory r)).
Proof.
  intros env sc params r Hexec. unfold execute in Hexec.
  destruct (run_loop _ _ _ _ _ _) as [[st|e st]|] eqn:Hrun; try discriminate.
  injection Hexec as <-.
  destruct (execute_records env sc params _ Hrun)
    as (N & (Hlen & Hfb & Hout & Hch & Hpre) & _).
  simpl. split; [exact Hch|]. split; [exact Hout|].
  rewrite Hfb. destruct (last (iterations_ st)); reflexivity.
Qed.

(** A run of two iterations under the default stop conditions: the second
    record answers the feedback of the first. *)
Lemma execute_history_replays_the_runners_witness :
  exists r,
    execute (Samples.collaborators_scoring (fun i => if (i <=? 1)%nat then 0.5 else 0.8)%float
               (fun i => negb (i <=? 1)%nat))
      (createDefaultStopConditions DefaultStopConditionsConfig_empty)
      Samples.three_iterations
    = Some (Resolved r)
    /\ result_iterations r = 2
    /\ chained (Samples.collaborators_scoring
                  (fun i => if (i <=? 1)%nat then 0.5 else 0.8)%float
                  (fun i => negb (i <=? 1)%nat))
         Samples.three_iterations (iterationHistory r).
Proof.
  eexists. split; [vm_compute; reflexivity|]. split; [reflexivity|].
  apply (execute_history_replays_the_runners
           (Samples.collaborators_scoring
              (fun i => if (i <=? 1)%nat then 0.5 else 0.8)%float
              (fun i => negb (i <=? 1)%nat))
           (createDefaultStopConditions DefaultStopConditionsConfig_empty)
           Samples.three_iterations).
  vm_compute. reflexivity.
Defined.

(** The loop stops at the first pass after which the stop conditions say
    so: no proper prefix of the returned history makes them stop; when the
    whole history does, the result carries their reason
    ([threshold_reached] when they give none); when it does not, exactly
    [maxIterations] passes were recorded and the result is a failure with
    reason [max_iterations]. *)
Theorem execute_stops_at_first_stop :
  forall (env : Collaborators) (stopConditions : StopCondition) (params : ExecuteParams)
         (r : WorkflowResult),
    execute env stopConditions params = Some (Resolved r) ->
    (forall k, k < length (iterationHistory r) ->
       stops_after stopConditions params (take k (iterationHistory r)) = false)
    /\ (if stops_after stopConditions params (iterationHistory r)
        then exists context,
               final_context params r = Some context
               /\ result_reason r
                  = default threshold_reached (reason (evaluate stopConditions context))
        else length (iterationHistory r) = params_maxIterations params
             /\ result_reason r = max_iterations
             /\ success r = false).
Proof.
  intros env sc params r Hexec. unfold execute in Hexec.
  destruct (run_loop _ _ _ _ _ _) as [[st|e st]|] eqn:Hrun; try discriminate.
  injection Hexec as <-.
  destruct (execute_records env sc params _ Hrun)
    as (N & (Hlen & Hfb & Hout & Hch & Hpre) & HN & Hend).
  simpl. split; [exact Hpre|].
  destruct (stops_after sc params (iterations_ st)).
  - change (final_context params (finish env st))
      with (context_of_history params (iterations_ st)).
    destruct (context_of_history params (iterations_ st)) as [context|]; [|contradiction].
    exists context. split; [reflexivity | exact Hend].
  - destruct Hend as (HNmax & Hreason). rewrite Hreason.
    split; [lia|]. split; reflexivity.
Qed.

(** Scores 0.5 and 0.8 with a threshold of 0.7: the first record does not
    stop the loop, the second does. *)
Lemma execute_stops_at_first_stop_witness :
  exists r,
    execute (Samples.collaborators_scoring (fun i => if (i <=? 1)%nat then 0.5 else 0.8)%float
               (fun i => negb (i <=? 1)%nat))
      (createDefaultStopConditions DefaultStopConditionsConfig_empty)
      Samples.three_iterations
    = Some (Resolved r)
    /\ stops_after (createDefaultStopConditions DefaultStopConditionsConfig_empty)
         Samples.three_iterations (take 1 (iterationHistory r)) = false.
Proof.
  eexists. split; [vm_compute; reflexivity|].
  refine (proj1 (execute_stops_at_first_stop
                   (Samples.collaborators_scoring
                      (fun i => if (i <=? 1)%nat then 0.5 else 0.8)%float
                      (fun i => negb (i <=? 1)%nat))
                   (createDefaultStopConditions DefaultStopConditionsConfig_empty)
                   Samples.three_iterations _ _) 1 _).
  - vm_compute. reflexivity.
  - vm_compute. lia.
Defined.

(** When [execute] fails, the cause of the error is the thrown value
    when that is an [Error] and a new [Error] otherwise, and it was thrown
    in one of two places.  Either a runner threw in the pass that follows
    the completed ones: then fewer than [maxIterations] passes were
    completed, none of them had stopped the loop, and the generator (given
    the feedback of the last completed pass) or the discriminator (given
    the generator's output) threw.  Or the stop condition threw when it
    was asked about the last recorded pass: then that pass is counted among
    the completed ones, of which there can be [maxIterations]. *)
Theorem execute_rejection :
  forall (env : Collaborators) (stopConditions : StopCondition) (params : ExecuteParams)
         (err : WorkflowExecutionError) (n : nat),
    execute env stopConditions params = Some (Rejected err n) ->
    n <= params_maxIterations params
    /\ error_workflowId err = randomUUID env
    /\ (exists message status statusCode,
          cause err = ThrownObject true message status statusCode)
    /\ exists (history : list IterationState) (e : JsThrown),
         length history = n
         /\ chained env params history
         /\ (forall k, k < n -> stops_after stopConditions params (take k history) = false)
         /\ cause err = as_Error e
         /\ (n < params_maxIterations params
             /\ stops_after stopConditions params history = false
             /\ (generator_run env (task params) (feedback <$> last history) (S n)
                 = Throws e
                 \/ exists generatorResult,
                      generator_run env (task params) (feedback <$> last history) (S n)
                      = Returns generatorResult
                      /\ discriminator_run env (S n) (output generatorResult)
                           (criteria params) (task params)
                         = Throws e)
             \/ exists context,
                  context_of_history params history = Some context
                  /\ raises stopConditions context = Some e).
Proof.
  intros env sc params err n Hexec. unfold execute in Hexec.
  destruct (run_loop _ _ _ _ _ _) as [[st|e st]|] eqn:Hrun; try discriminate.
  injection Hexec as <- <-.
  destruct (execute_records env sc params _ Hrun)
    as (m & (Hlen & Hfb & Hout & Hch & Hpre) & Hm & Hwhere).
  simpl in Hlen. rewrite Nat.sub_0_r in Hlen. rewrite Hlen. simpl.
  split; [exact Hm|]. split; [reflexivity|]. split.
  - destruct e as [|repr|[|] message status statusCode]; simpl; eauto.
  - exists (iterations_ st), e. split; [exact Hlen|]. split; [exact Hch|]. split.
    + intros k Hk. apply Hpre. lia.
    + split; [reflexivity|].
      destruct Hwhere as [(Hless & Hlast & Hthrown)|Hraised].
      * left. split; [exact Hless|]. split; [exact Hlast|].
        unfold thrown_in_pass in Hthrown. rewrite Hfb in Hthrown. exact Hthrown.
      * right. exact Hraised.
Qed.

(** A stop condition that throws when it is asked: the first pass is
    recorded and the run is rejected with the exception of the condition,
    although no runner threw. *)
Lemma execute_rejection_witness :
  exists err,
    execute (Samples.collaborators_scoring (fun _ => 0.5%float) (fun _ => false))
      Samples.throwing_condition Samples.three_iterations
    = Some (Rejected err 1)
    /\ 1 <= 3
    /\ cause err = ThrownObject true "condition failed" None None.
Proof.
  eexists. split; [vm_compute; reflexivity|]. split; [|reflexivity].
  refine (proj1 (execute_rejection
                   (Samples.collaborators_scoring (fun _ => 0.5%float) (fun _ => false))
                   Samples.throwing_condition Samples.three_iterations _ 1 _)).
  vm_compute. reflexivity.
Defined.

(** ** The default stop conditions *)

Lemma Stagnation_reason (this : Stagnation) (context : StopConditionContext) :
  reason (Stagnation_evaluate this context)
  = if shouldStop (Stagnation_evaluate this context) then Some stagnation else None.
Proof.
  unfold Stagnation_evaluate.
  destruct (_ <? _)%nat; [reflexivity|].
  destruct (map _ _); [reflexivity|].
  destruct (negb _); reflexivity.
Qed.

Lemma EarlyTermination_rule (this : EarlyTermination) (context : StopConditionContext) :
  shouldStop (EarlyTermination_evaluate this context)
  = (et_minIterations this <=? currentIteration context)%nat
    && PrimFloat.ltb (currentScore context) (et_scoreThreshold this)
  /\ reason (EarlyTermination_evaluate this context)
     = if shouldStop (EarlyTermination_evaluate this context)
       then Some early_termination else None.
Proof.
  unfold EarlyTermination_evaluate.
  rewrite Nat.leb_antisym.
  destruct (_ <? _)%nat; simpl; [auto|].
  destruct (PrimFloat.ltb _ _); auto.
Qed.

Lemma default_verdict (config : DefaultStopConditionsConfig)
  (context : StopConditionContext) :
  let result := evaluate (createDefaultStopConditions config) context in
  let met :=
    currentPassed context
    && PrimFloat.leb (scoreThreshold context) (currentScore context) in
  let exhausted := (maxIterations context <=? currentIteration context)%nat in
  let stagnant :=
    not_false (includeStagnation config)
    && shouldStop (Stagnation_evaluate (Stagnation_new (dflt_stagnation config)) context) in
  let hopeless :=
    not_false (includeEarlyTermination config)
    && shouldStop (EarlyTermination_evaluate
                     (EarlyTermination_new (dflt_earlyTermination config)) context) in
  shouldStop result = met || exhausted || stagnant || hopeless
  /\ reason result
     = if met then Some threshold_reached
       else if exhausted then Some max_iterations
       else if stagnant then Some stagnation
       else if hopeless then Some early_termination
       else None.
Proof.
  cbv zeta. unfold createDefaultStopConditions, defaultConditions. simpl.
  unfold Threshold_evaluate, MaxIterations_evaluate.
  destruct (currentPassed context && _); simpl; [auto|].
  destruct (_ <=? _)%nat; simpl; [auto|].
  pose proof (Stagnation_reason (Stagnation_new (dflt_stagnation config)) context) as Hs.
  destruct (EarlyTermination_rule
              (EarlyTermination_new (dflt_earlyTermination config)) context) as (_ & He).
  destruct (not_false (includeStagnation config)); simpl.
  - destruct (shouldStop (Stagnation_evaluate _ context)) eqn:Hstag; simpl.
    + rewrite Hs. auto.
    + destruct (not_false (includeEarlyTermination config)); simpl; [|auto].
      destruct (shouldStop (EarlyTermination_evaluate _ context)) eqn:Hearly; simpl;
        [rewrite He|]; auto.
  - destruct (not_false (includeEarlyTermination config)); simpl; [|auto].
    destruct (shouldStop (EarlyTermination_evaluate _ context)) eqn:Hearly; simpl;
      [rewrite He|]; auto.
Qed.

(** The composite that [createDefaultStopConditions] builds stops when one
    of its members does, and its reason follows a fixed priority: a reached
    threshold wins over exhausted iterations, which win over stagnation,
    which wins over early termination; members that the configuration
    leaves out ([includeStagnation: false], [includeEarlyTermination:
    false]) are never consulted. *)
Theorem default_conditions_priority :
  forall (config : DefaultStopConditionsConfig) (context : StopConditionContext),
    let result := evaluate (createDefaultStopConditions config) context in
    let met :=
      currentPassed context
      && PrimFloat.leb (scoreThreshold context) (currentScore context) in
    let exhausted := (maxIterations context <=? currentIteration context)%nat in
    let stagnant :=
      not_false (includeStagnation config)
      && stagnation_rule
           (default 3 (cfg_maxStagnantIterations (dflt_stagnation config)))
           (default 0.01%float (cfg_improvementThreshold (dflt_stagnation config)))
           (scores_of (iterations context)) in
    let hopeless :=
      not_false (includeEarlyTermination config)
      && (default 2 (cfg_minIterations (dflt_earlyTermination config))
          <=? currentIteration context)%nat
      && PrimFloat.ltb (currentScore context)
           (default 0.1%float (cfg_scoreThreshold (dflt_earlyTermination config))) in
    shouldStop result = met || exhausted || stagnant || hopeless
    /\ reason result
       = if met then Some threshold_reached
         else if exhausted then Some max_iterations
         else if stagnant then Some stagnation
         else if hopeless then Some early_termination
         else None.
Proof.
  intros config context. cbv zeta.
  pose proof (default_verdict config context) as H. cbv zeta in H.
  rewrite Stagnation_evaluate_rule in H.
  rewrite (proj1 (EarlyTermination_rule _ _)) in H.
  rewrite <- andb_assoc. exact H.
Qed.

Section DefaultRun.

Variable env : Collaborators.
Variable config : DefaultStopConditionsConfig.
Variable params : ExecuteParams.

Local Abbreviation defaults := (createDefaultStopConditions config).

Lemma context_of_history_take (history : list IterationState) (k : nat)
  (it : IterationState) :
  history !! k = Some it ->
  context_of_history params (take (S k) history)
  = Some {| currentIteration := number it;
            maxIterations := params_maxIterations params;
            scoreThreshold := params_scoreThreshold params;
            iterations := take (S k) history;
            currentScore := score (feedback it);
            currentPassed := passed (feedback it) |}.
Proof.
  intros Hk. unfold context_of_history.
  assert (Hlast : last (take (S k) history) = Some it).
  { rewrite last_lookup, length_take.
    pose proof (lookup_lt_Some _ _ _ Hk) as Hlt.
    replace (Init.Nat.pred (S k `min` length history)) with k by lia.
    rewrite lookup_take_lt by lia. exact Hk. }
  rewrite Hlast. reflexivity.
Qed.

(** A record whose feedback meets the threshold stops the default
    conditions. *)
Lemma met_stops (history : list IterationState) (k : nat) (it : IterationState) :
  history !! k = Some it ->
  stops_after defaults params (take (S k) history) = false ->
  passed (feedback it)
  && PrimFloat.leb (params_scoreThreshold params) (score (feedback it)) = false.
Proof.
  intros Hk. unfold stops_after. rewrite (context_of_history_take _ _ _ Hk).
  rewrite (proj1 (default_verdict config _)). simpl.
  destruct (passed (feedback it) && _); [discriminate | reflexivity].
Qed.

End DefaultRun.

(** What a result under the default stop conditions looks like; shared by
    the statements below. *)
Lemma default_run_facts :
  forall (env : Collaborators) (config : DefaultStopConditionsConfig)
         (params : ExecuteParams) (r : WorkflowResult),
    1 <= params_maxIterations params ->
    execute env (createDefaultStopConditions config) params = Some (Resolved r) ->
    exists it,
      last (iterationHistory r) = Some it
      /\ number it = result_iterations r
      /\ finalScore r = score (feedback it)
      /\ result_output r = generatorOutput it
      /\ success r
         = passed (feedback it)
           && PrimFloat.leb (params_scoreThreshold params) (score (feedback it))
      /\ (forall k earlier,
            S k < result_iterations r ->
            iterationHistory r !! k = Some earlier ->
            passed (feedback earlier)
            && PrimFloat.leb (params_scoreThreshold params) (score (feedback earlier))
            = false)
      /\ (result_reason r = threshold_reached
          \/ result_reason r = max_iterations
             /\ result_iterations r = params_maxIterations params
          \/ result_reason r = stagnation
             /\ includeStagnation config <> Some false
             /\ result_iterations r < params_maxIterations params
          \/ result_reason r = early_termination
             /\ includeEarlyTermination config <> Some false
             /\ result_iterations r < params_maxIterations params
             /\ PrimFloat.ltb (score (feedback it))
                  (default 0.1%float (cfg_scoreThreshold (dflt_earlyTermination config)))
                = true).
Proof.
  intros env config params r Hmax Hexec.
  unfold execute in Hexec.
  destruct (run_loop _ _ _ _ _ _) as [[st|e st]|] eqn:Hrun; try discriminate.
  injection Hexec as <-.
  destruct (execute_records env (createDefaultStopConditions config) params _ Hrun) as (N & (Hlen & Hfb & Hout & Hch & Hpre) & HN & Hend).
  simpl in Hlen. rewrite Nat.sub_0_r in Hlen. simpl.
  destruct (last (iterations_ st)) as [it|] eqn:Hlast.
  2:{ apply last_None in Hlast. rewrite Hlast in *. simpl in *. subst N.
      destruct Hend as (H0 & _). lia. }
  assert (Hk : iterations_ st !! (N - 1) = Some it).
  { rewrite last_lookup, Hlen in Hlast. replace (N - 1) with (Init.Nat.pred N) by lia.
    exact Hlast. }
  assert (HNpos : 1 <= N).
  { apply lookup_lt_Some in Hk. lia. }
  destruct (Hch _ _ Hk) as (Hno & _).
  assert (Hnumber : number it = N) by lia.
  assert (Hctx : context_of_history params (iterations_ st)
                 = Some {| currentIteration := number it;
                           maxIterations := params_maxIterations params;
                           scoreThreshold := params_scoreThreshold params;
                           iterations := iterations_ st;
                           currentScore := score (feedback it);
                           currentPassed := passed (feedback it) |}).
  { unfold context_of_history. rewrite Hlast. reflexivity. }
  unfold stops_after in Hend. rewrite Hctx in Hend.
  match type of Hctx with _ = Some ?c => set (context := c) in * end.
  pose proof (default_conditions_priority config context) as Hprio.
  cbv zeta in Hprio.
  remember (evaluate (createDefaultStopConditions config) context) as result eqn:Hres.
  clear Hres. subst context.
  cbn [currentPassed scoreThreshold currentScore maxIterations currentIteration] in Hprio.
  destruct Hprio as (Hstop & Hreason).
  exists it. split; [reflexivity|]. split; [lia|].
  split; [rewrite Hfb; reflexivity|]. split; [exact Hout|].
  assert (Hearlier : forall k earlier,
             S k < length (iterations_ st) ->
             iterations_ st !! k = Some earlier ->
             passed (feedback earlier)
             && PrimFloat.leb (params_scoreThreshold params) (score (feedback earlier))
             = false).
  { intros k earlier Hlt Hlook.
    apply (met_stops config params _ _ _ Hlook). apply Hpre. exact Hlt. }
  destruct result as [stop rsn msg]. cbn [shouldStop reason] in *.
  destruct stop.
  - rewrite Hend, Hreason.
    destruct (passed (feedback it) && _) eqn:Hmet; simpl.
    { split; [reflexivity|]. split; [exact Hearlier|]. left. reflexivity. }
    try rewrite Hmet in Hstop. simpl in Hstop.
    destruct (params_maxIterations params <=? number it)%nat eqn:Hex; simpl.
    { apply Nat.leb_le in Hex. split; [reflexivity|]. split; [exact Hearlier|].
      right. left. split; [reflexivity | lia]. }
    apply Nat.leb_gt in Hex. simpl in Hstop.
    destruct (not_false (includeStagnation config) && _) eqn:Hstag; simpl.
    { apply andb_true_iff in Hstag. destruct Hstag as (Hinc & _).
      split; [reflexivity|]. split; [exact Hearlier|].
      right. right. left. split; [reflexivity|]. split; [|lia].
      intros Hfalse. rewrite Hfalse in Hinc. discriminate. }
    simpl in Hstop.
    destruct (not_false (includeEarlyTermination config) && _ && _) eqn:Hearly; simpl.
    { apply andb_true_iff in Hearly. destruct Hearly as (Hinc & Hlow).
      apply andb_true_iff in Hinc. destruct Hinc as (Hinc & _).
      split; [reflexivity|]. split; [exact Hearlier|].
      right. right. right. split; [reflexivity|]. split; [|split; [lia | exact Hlow]].
      intros Hfalse. rewrite Hfalse in Hinc. discriminate. }
    discriminate.
  - destruct Hend as (HNmax & Hmaxreason).
    assert (Hex : (params_maxIterations params <=? number it)%nat = true).
    { apply Nat.leb_le. lia. }
    rewrite Hex in Hstop. rewrite orb_true_r in Hstop. discriminate.
Qed.

(** [execute] under the default stop conditions, for [maxIterations >= 1]:
    at least one pass is recorded; the result is a success exactly when the
    last feedback is marked as passed with a score of at least the
    threshold, and no earlier feedback was; the reason is one of
    [threshold_reached], [max_iterations], [stagnation] and
    [early_termination]; [max_iterations] is only reported after exactly
    [maxIterations] passes, [stagnation] and [early_termination] only
    when the configuration includes them. *)
Theorem execute_with_default_conditions :
  forall (env : Collaborators) (config : DefaultStopConditionsConfig)
         (params : ExecuteParams) (r : WorkflowResult),
    1 <= params_maxIterations params ->
    execute env (createDefaultStopConditions config) params = Some (Resolved r) ->
    exists it,
      last (iterationHistory r) = Some it
      /\ number it = result_iterations r
      /\ finalScore r = score (feedback it)
      /\ result_output r = generatorOutput it
      /\ success r
         = passed (feedback it)
           && PrimFloat.leb (params_scoreThreshold params) (score (feedback it))
      /\ (forall k earlier,
            S k < result_iterations r ->
            iterationHistory r !! k = Some earlier ->
            passed (feedback earlier)
            && PrimFloat.leb (params_scoreThreshold params) (score (feedback earlier))
            = false)
      /\ (result_reason r = threshold_reached
          \/ result_reason r = max_iterations
             /\ result_iterations r = params_maxIterations params
          \/ result_reason r = stagnation
             /\ includeStagnation config <> Some false
             /\ result_iterations r < params_maxIterations params
          \/ result_reason r = early_termination
             /\ includeEarlyTermination config <> Some false
             /\ result_iterations r < params_maxIterations params
             /\ PrimFloat.ltb (score (feedback it))
                  (default 0.1%float (cfg_scoreThreshold (dflt_earlyTermination config)))
                = true).
Proof.
  intros env config params r Hmax Hexec.
  exact (default_run_facts env config params r Hmax Hexec).
Qed.

(** Scores 0.5 and 0.8 (the second one marked as passed) with a threshold
    of 0.7 and three iterations at most: a success after two passes. *)
Lemma execute_with_default_conditions_witness :
  exists r it,
    execute (Samples.collaborators_scoring (fun i => if (i <=? 1)%nat then 0.5 else 0.8)%float
               (fun i => negb (i <=? 1)%nat))
      (createDefaultStopConditions DefaultStopConditionsConfig_empty)
      Samples.three_iterations
    = Some (Resolved r)
    /\ last (iterationHistory r) = Some it
    /\ number it = 2
    /\ success r = true.
Proof.
  eexists.
  destruct (execute_with_default_conditions
              (Samples.collaborators_scoring
                 (fun i => if (i <=? 1)%nat then 0.5 else 0.8)%float
                 (fun i => negb (i <=? 1)%nat))
              DefaultStopConditionsConfig_empty Samples.three_iterations _
              (le_S _ _ (le_S _ _ (le_n 1))) eq_refl)
    as (it & Hlast & Hno & _ & _ & Hsuccess & _).
  exists it. split; [vm_compute; reflexivity|]. split; [exact Hlast|].
  split; [exact Hno | reflexivity].
Defined.

(** ** The attempt that decides a retry run *)

Section Settling.

Context {Num : Type} `{JsNumber Num}.
Variable T : Type.
Variable fn : nat -> Outcome T.
Variable options : RetryOptions Num.

Local Abbreviation m := (opt_maxAttempts (merge_options options)).

(** Among the attempts 1..n either one settles after retried failures
    only, or all of them are retried failures. *)
Lemma settling_attempt_search (n : nat) :
  (exists k, k < n
             /\ (forall a, 1 <= a <= k -> retryable_failure T fn options a)
             /\ settles T options (S k) (fn (S k)))
  \/ (forall a, 1 <= a <= n -> retryable_failure T fn options a).
Proof.
  induction n as [|n [(k & Hk & Hfail & Hset)|Hall]].
  - right. intros a Ha. lia.
  - left. exists k. split; [lia|]. split; assumption.
  - destruct (fn (S n)) as [v|e] eqn:Hfn.
    + left. exists n. split; [lia|]. split; [exact Hall|]. rewrite Hfn. exact I.
    + destruct (shouldRetry_ options e (S n)) eqn:Hretry.
      * right. intros a Ha. destruct (decide (a = S n)) as [->|Hne].
        -- exists e. split; assumption.
        -- apply Hall. lia.
      * left. exists n. split; [lia|]. split; [exact Hall|]. rewrite Hfn. right.
        exact Hretry.
Qed.

Lemma settling_attempt_exists :
  1 <= m ->
  exists k, k < m
            /\ (forall a, 1 <= a <= k -> retryable_failure T fn options a)
            /\ settles T options (S k) (fn (S k)).
Proof.
  intros Hm. destruct (settling_attempt_search (m - 1)) as [(k & Hk & Hfail & Hset)|Hall].
  - exists k. split; [lia|]. split; assumption.
  - exists (m - 1). split; [lia|]. split; [exact Hall|].
    replace (S (m - 1)) with m by lia.
    destruct (fn m); [exact I|]. left. reflexivity.
Qed.

Variable Math_random : nat -> Num.

Lemma retry_settles :
  callback_returns options ->
  1 <= m ->
  exists k st,
    k < m
    /\ retry Math_random T fn options = Some (fn (S k), st)
    /\ (forall a, 1 <= a <= k -> retryable_failure T fn options a)
    /\ settles T options (S k) (fn (S k))
    /\ attempts_made st = S k
    /\ onRetry_calls st = expected_callbacks options k
    /\ length (sleeps st) = k.
Proof.
  intros Hcb Hm. destruct (settling_attempt_exists Hm) as (k & Hk & Hfail & Hset).
  destruct (retry_loop_settles Math_random T fn options k m 1 ThrownUndefined fresh_state)
    as (st & Hloop & Ha & Hb & Hc).
  - exact Hcb.
  - intros a Ha. apply Hfail. lia.
  - lia.
  - lia.
  - exact Hset.
  - exists k, st. split; [exact Hk|]. split; [exact Hloop|]. split; [exact Hfail|].
    split; [exact Hset|]. simpl in Ha, Hb, Hc. auto.
Qed.

End Settling.

(** With a callback that returns (or none) and [maxAttempts >= 1], the
    outcome of [retry] is the outcome of the first attempt that settles:
    the first one that returns, or fails with an error that the policy in
    force does not retry, or is attempt number [maxAttempts].  Every
    attempt before it failed with a retried error and was followed by one
    callback invocation (when a callback is configured) and one wait. *)
Theorem retry_result_is_first_settling_attempt :
  forall (Num : Type) (JS : JsNumber Num) (Math_random : nat -> Num) (T : Type)
         (fn : nat -> Outcome T) (options : RetryOptions Num),
    callback_returns options ->
    1 <= opt_maxAttempts (merge_options options) ->
    exists k st,
      k < opt_maxAttempts (merge_options options)
      /\ retry Math_random T fn options = Some (fn (S k), st)
      /\ (forall a, 1 <= a <= k -> retryable_failure T fn options a)
      /\ settles T options (S k) (fn (S k))
      /\ attempts_made st = S k
      /\ onRetry_calls st = expected_callbacks options k
      /\ length (sleeps st) = k.
Proof.
  intros Num JS Math_random T fn options Hcb Hm.
  apply retry_settles; assumption.
Qed.

(** Two rate-limit failures, then a success, with three attempts allowed
    and an observing callback. *)
Lemma retry_result_is_first_settling_attempt_witness :
  exists k st,
    k < 3
    /\ retry Samples.steady_half nat Samples.fails_twice_then_succeeds
         (Samples.options_with Samples.observing_callback)
       = Some (Samples.fails_twice_then_succeeds (S k), st)
    /\ attempts_made st = S k.
Proof.
  destruct (retry_result_is_first_settling_attempt Q Q_JsNumber Samples.steady_half nat
              Samples.fails_twice_then_succeeds
              (Samples.options_with Samples.observing_callback)
              (fun callback Hcb e a d =>
                 match Hcb in _ = c
                       return match c with Some f => f e a d = Returns tt | None => True end
                 with eq_refl => eq_refl end)
              (le_S _ _ (le_S _ _ (le_n 1))))
    as (k & st & Hk & Hrun & _ & _ & Ha & _).
  exists k, st. split; [exact Hk|]. split; [exact Hrun | exact Ha].
Defined.

(** ** The base runner *)



(** ** The worker's terminal write *)

Lemma execute_total (env : Collaborators) (stopConditions : StopCondition)
  (params : ExecuteParams) :
  exists outcome, execute env stopConditions params = Some outcome.
Proof.
  unfold execute.
  destruct (run_loop_numbered env stopConditions params (params_maxIterations params) 1
              initial_state) as (out & N & Hrun & _); [lia | lia | reflexivity |].
  rewrite Hrun. destruct out; eexists; reflexivity.
Qed.

Section WorkerFacts.

Context {Text : Type}.
Variable JSON_stringify : Store.WorkflowState -> Text.
Variable JSON_parse : Text -> option Store.WorkflowState.
Variable is_empty : Text -> bool.
Variable stateStore : Store.WorkflowStateStore.

Local Abbreviation get := (Store.get JSON_parse is_empty stateStore).
Local Abbreviation save := (Store.save JSON_stringify stateStore).
Local Abbreviation readable := (Store.readable JSON_stringify JSON_parse is_empty).
Local Abbreviation ttl := (Store.ttlSeconds stateStore).

(** A snapshot is read back from the backing in use until its time to
    live is over. *)
Lemma get_after_save_later (now now' : Z) (state : Store.WorkflowState)
  (c : Store.Client Text) :
  readable state ->
  (0 <= ttl)%Z ->
  (now' <= now + ttl * 1000)%Z ->
  fst (get now' true (Store.id state) (save now true state c)) = Some state.
Proof.
  intros Hread Httl Hlive. destruct (Store.usesFallback c) eqn:Hmode.
  - apply get_after_save_fallback; [exact Hread | rewrite Hmode; reflexivity | exact Hlive].
  - apply get_after_save_server; assumption.
Qed.

(** The terminal write of [finish_job] on a snapshot that is in the
    store. *)
Lemma finish_job_writes (finished elapsed : Z) (data : Worker.WorkflowJobData)
  (outcome : ExecuteOutcome) (w : Worker.World) (current : Store.WorkflowState) :
  (0 <= ttl)%Z ->
  fst (get finished true (Worker.workflowId data) (Worker.client w)) = Some current ->
  Store.id current = Worker.workflowId data ->
  let done :=
    Worker.finish_job JSON_stringify JSON_parse is_empty stateStore finished elapsed data
      outcome w in
  let write :=
    Worker.terminal_write JSON_stringify JSON_parse is_empty stateStore finished data
      outcome (Worker.client w) in
  Worker.job (snd done) = Worker.job w
  /\ Worker.client (snd done) = snd write
  /\ exists written,
       fst write = Some written
       /\ Store.iterations written = Store.iterations current
       /\ Store.currentIteration written = Store.currentIteration current
       /\ Store.updatedAt written = finished
       /\ match outcome with
          | Resolved result =>
              fst done
              = Returns {| Worker.success := Orchestrator.success result;
                           Worker.result_workflowId := Worker.workflowId data;
                           Worker.output := result_output result;
                           Worker.finalScore := Orchestrator.finalScore result;
                           Worker.iterations := result_iterations result;
                           Worker.reason := Worker.StopReason_text (result_reason result);
                           Worker.durationMs := elapsed |}
              /\ Store.status written = Store.completed
              /\ Store.currentOutput written = Some (result_output result)
              /\ Store.currentScore written = Some (Orchestrator.finalScore result)
              /\ Store.stopReason written
                 = Some (Worker.StopReason_text (result_reason result))
              /\ Store.completedAt written = Some finished
          | Rejected err _ =>
              fst done = Throws (thrown_error err)
              /\ Store.status written = Store.failed
              /\ Store.errorMessage written = Some (error_message err)
          end
       /\ (readable written ->
           fst (get finished true (Worker.workflowId data) (Worker.client (snd done)))
           = Some written).
Proof.
  intros Httl Hget Hid. cbv zeta.
  assert (Hupd := fun updates =>
            update_read_back JSON_stringify JSON_parse is_empty stateStore finished true
              (Worker.workflowId data) updates (Worker.client w) Httl).
  rewrite Hget in Hupd.
  unfold Worker.finish_job, Worker.terminal_write. destruct outcome as [result|err n].
  - unfold Store.complete.
    match goal with
    | |- context [Store.update _ _ _ _ _ _ _ ?u _] =>
        destruct (Hupd u Hid) as (H1 & H2)
    end.
    destruct (Store.update _ _ _ _ _ _ _ _ _) as [found c]. simpl in *.
    split; [reflexivity|]. split; [reflexivity|].
    eexists. split; [exact H1|]. do 3 (split; [reflexivity|]).
    split; [repeat split; reflexivity | exact H2].
  - unfold Store.fail.
    match goal with
    | |- context [Store.update _ _ _ _ _ _ _ ?u _] =>
        destruct (Hupd u Hid) as (H1 & H2)
    end.
    destruct (Store.update _ _ _ _ _ _ _ _ _) as [found c]. simpl in *.
    split; [reflexivity|]. split; [reflexivity|].
    eexists. split; [exact H1|]. do 3 (split; [reflexivity|]).
    split; [repeat split; reflexivity | exact H2].
Qed.

End WorkerFacts.

(** Whatever other requests did to the stored snapshot while the loop was
    running (a cancellation included), as long as a snapshot of the
    workflow is still read from the store when [execute] settles, the
    worker's terminal write decides the status: [completed] after every
    result, successful or not, with the result's output, score and reason,
    and [failed] with the error's message after a rejection, which the
    worker rethrows.  The history and the iteration counter are written
    back as they were read; in a run without interference that ends within
    the time to live, and whose first snapshot can be read back, they are
    the empty list and 0, however many iterations the result reports.  A
    later read returns the snapshot that was written whenever its
    serialisation can be read back. *)
Theorem job_terminal_write :
  forall (Text : Type) (JSON_stringify : Store.WorkflowState -> Text)
         (JSON_parse : Text -> option Store.WorkflowState) (is_empty : Text -> bool)
         (stateStore : Store.WorkflowStateStore) (env : Collaborators)
         (started finished : Z) (data : Worker.WorkflowJobData)
         (meanwhile : Worker.World -> Worker.World) (w : Worker.World)
         (current : Store.WorkflowState),
    (0 <= Store.ttlSeconds stateStore)%Z ->
    let readable := Store.readable JSON_stringify JSON_parse is_empty in
    let interrupted :=
      meanwhile (Worker.start_job JSON_stringify stateStore started data w) in
    let read := Store.get JSON_parse is_empty stateStore finished true
                  (Worker.workflowId data) in
    fst (read (Worker.client interrupted)) = Some current ->
    Store.id current = Worker.workflowId data ->
    exists outcome out w' written,
      execute env (createDefaultStopConditions DefaultStopConditionsConfig_empty)
        (Worker.job_params data)
      = Some outcome
      /\ Worker.processWorkflowJob JSON_stringify JSON_parse is_empty stateStore env
           started finished data meanwhile w
         = Some (out, w')
      /\ Worker.job w' = Worker.job interrupted
      /\ fst (Worker.terminal_write JSON_stringify JSON_parse is_empty stateStore finished
                data outcome (Worker.client interrupted))
         = Some written
      /\ Store.iterations written = Store.iterations current
      /\ Store.currentIteration written = Store.currentIteration current
      /\ match outcome with
         | Resolved result =>
             (exists jobResult,
                out = Returns jobResult
                /\ Worker.success jobResult = Orchestrator.success result
                /\ Worker.iterations jobResult = result_iterations result
                /\ Worker.durationMs jobResult = (finished - started)%Z)
             /\ Store.status written = Store.completed
             /\ Store.currentOutput written = Some (result_output result)
             /\ Store.currentScore written = Some (Orchestrator.finalScore result)
             /\ Store.stopReason written
                = Some (Worker.StopReason_text (result_reason result))
             /\ Store.completedAt written = Some finished
         | Rejected err _ =>
             out = Throws (thrown_error err)
             /\ Store.status written = Store.failed
             /\ Store.errorMessage written = Some (error_message err)
         end
      /\ (readable written -> fst (read (Worker.client w')) = Some written)
      /\ ((forall w0, meanwhile w0 = w0) ->
          (finished <= started + Store.ttlSeconds stateStore * 1000)%Z ->
          readable (Worker.initial_snapshot started data) ->
          Store.iterations written = [] /\ Store.currentIteration written = 0).
Proof.
  intros Text JSON_stringify JSON_parse is_empty stateStore env started finished data
    meanwhile w current Httl readable interrupted read Hget Hid.
  destruct (execute_total env (createDefaultStopConditions DefaultStopConditionsConfig_empty)
              (Worker.job_params data))
    as (outcome & Hexec).
  destruct (finish_job_writes JSON_stringify JSON_parse is_empty stateStore finished
              (finished - started) data outcome interrupted current Httl Hget Hid)
    as (Hjob & Hclient & written & Hwritten & Hiter & Hcur & _ & Hout & Hback).
  exists outcome.
  exists (fst (Worker.finish_job JSON_stringify JSON_parse is_empty stateStore finished
                 (finished - started) data outcome interrupted)).
  exists (snd (Worker.finish_job JSON_stringify JSON_parse is_empty stateStore finished
                 (finished - started) data outcome interrupted)).
  exists written.
  split; [exact Hexec|]. split.
  { unfold Worker.processWorkflowJob.
    change {| task := Worker.task data; criteria := Worker.criteria data;
              params_maxIterations := Worker.maxIterations data;
              params_scoreThreshold := Worker.scoreThreshold data |}
      with (Worker.job_params data).
    rewrite Hexec. fold interrupted.
    destruct (Worker.finish_job _ _ _ _ _ _ _ _ _); reflexivity. }
  split; [exact Hjob|]. split; [exact Hwritten|]. split; [exact Hiter|].
  split; [exact Hcur|]. split; [|split; [exact Hback|]].
  - destruct outcome as [result|err n].
    + destruct Hout as (Hres & Hrest). split; [|exact Hrest].
      eexists. split; [exact Hres|]. repeat split; reflexivity.
    + exact Hout.
  - intros Hquiet Hlive Hfirst. rewrite Hiter, Hcur.
    subst interrupted read. rewrite Hquiet in Hget.
    pose proof (get_after_save_later JSON_stringify JSON_parse is_empty stateStore
                  started finished (Worker.initial_snapshot started data)
                  (Worker.client w) Hfirst Httl Hlive) as Hsaved.
    change (fst (Store.get JSON_parse is_empty stateStore finished true
                   (Worker.workflowId data)
                   (Worker.client
                      (Worker.start_job JSON_stringify stateStore started data w)))
            = Some (Worker.initial_snapshot started data))
      in Hsaved.
    rewrite Hsaved in Hget. injection Hget as <-. split; reflexivity.
Qed.

(** The sample job on a quiet store: whatever the runners answer, the
    snapshot that the worker writes at the end has an empty history. *)
Lemma job_terminal_write_witness :
  exists outcome out w' written,
    execute (Samples.collaborators_scoring (fun _ => 0.5%float) (fun _ => false))
      (createDefaultStopConditions DefaultStopConditionsConfig_empty)
      (Worker.job_params WorkerSamples.job_data)
    = Some outcome
    /\ Worker.processWorkflowJob (fun s => s) Some (fun _ => false) Store.default_store
         (Samples.collaborators_scoring (fun _ => 0.5%float) (fun _ => false))
         1000 9000 WorkerSamples.job_data (fun w0 => w0) WorkerSamples.idle_world
       = Some (out, w')
    /\ fst (Store.get Some (fun _ => false) Store.default_store 9000 true
              (Worker.workflowId WorkerSamples.job_data) (Worker.client w'))
       = Some written
    /\ Store.iterations written = [].
Proof.
  destruct (job_terminal_write Store.WorkflowState (fun s => s) Some (fun _ => false)
              Store.default_store
              (Samples.collaborators_scoring (fun _ => 0.5%float) (fun _ => false))
              1000 9000 WorkerSamples.job_data (fun w0 => w0) WorkerSamples.idle_world
              (Worker.initial_snapshot 1000 WorkerSamples.job_data)
              (proj1 (Z.leb_le 0 86400) eq_refl)
              eq_refl eq_refl)
    as (outcome & out & w' & written & Hexec & Hrun & _ & _ & _ & _ & _ & Hback & Hquiet).
  exists outcome, out, w', written.
  split; [exact Hexec|]. split; [exact Hrun|].
  split; [apply Hback; split; reflexivity|].
  apply Hquiet; [reflexivity | apply (proj1 (Z.leb_le _ _)); reflexivity |].
  split; reflexivity.
Defined.

(** ** The cancellation request *)

Section CancelFacts.

Context {Text : Type}.
Variable JSON_stringify : Store.WorkflowState -> Text.
Variable JSON_parse : Text -> option Store.WorkflowState.
Variable is_empty : Text -> bool.
Variable stateStore : Store.WorkflowStateStore.

Local Abbreviation get := (Store.get JSON_parse is_empty stateStore).

(** A read that finds a snapshot leaves the client as it was. *)
Lemma get_found_unchanged (now : Z) (r : bool) (workflowId : string)
  (c : Store.Client Text) (st : Store.WorkflowState) :
  fst (get now r workflowId c) = Some st -> snd (get now r workflowId c) = c.
Proof.
  unfold Store.get, Store.client_get.
  destruct (Store.usesFallback c || negb r).
  - unfold Store.InMemoryStore_get.
    generalize (Store.getKey stateStore workflowId). intros key.
    destruct c as [mode d f]. unfold Store.with_fallback. simpl.
    unfold Store.InMemoryStore, Store.Redis_db in *.
    destruct (f !! key) as [item|]; simpl; [|discriminate].
    destruct (Store.expired now item); simpl; [discriminate|].
    destruct (is_empty (Store.value item)); simpl; [discriminate|].
    intros _. reflexivity.
  - destruct (Store.Redis_GET _ _ _) as [data|]; simpl; [|discriminate].
    destruct (is_empty data); simpl; [discriminate|]. intros _. reflexivity.
Qed.

Lemma get_found (now : Z) (r : bool) (workflowId : string)
  (c : Store.Client Text) (st : Store.WorkflowState) :
  fst (get now r workflowId c) = Some st -> get now r workflowId c = (Some st, c).
Proof.
  intros Hget. rewrite (surjective_pairing (get now r workflowId c)), Hget.
  rewrite (get_found_unchanged _ _ _ _ _ Hget). reflexivity.
Qed.

End CancelFacts.

(** [cancel_workflow] on a workflow whose snapshot is in the store.  A
    completed or failed workflow is refused and nothing changes.  A
    cancelled one is reported as cancelled and nothing changes, the job
    included.  A pending or running one is written back with the status
    [cancelled] and the reason given (or "User requested cancellation"),
    its history kept; its job is removed when it waits and marked for
    cancellation when it is active.  When the snapshot that was written
    can be read back, a second request finds it cancelled and changes
    nothing. *)
Theorem cancel_workflow_contract :
  forall (Text : Type) (JSON_stringify : Store.WorkflowState -> Text)
         (JSON_parse : Text -> option Store.WorkflowState) (is_empty : Text -> bool)
         (stateStore : Store.WorkflowStateStore) (now : Z) (workflowId : string)
         (reason : option string) (w : Worker.World) (st : Store.WorkflowState),
    (0 <= Store.ttlSeconds stateStore)%Z ->
    fst (Store.get JSON_parse is_empty stateStore now true workflowId (Worker.client w))
    = Some st ->
    Store.id st = workflowId ->
    let cancel_workflow :=
      Worker.cancel_workflow JSON_stringify JSON_parse is_empty stateStore now workflowId in
    let response := fst (cancel_workflow reason w) in
    let w' := snd (cancel_workflow reason w) in
    let read w0 :=
      fst (Store.get JSON_parse is_empty stateStore now true workflowId (Worker.client w0)) in
    match Store.status st with
    | Store.completed | Store.failed =>
        response = None /\ w' = w
    | Store.cancelled =>
        response = Some {| Worker.response_status := Store.cancelled;
                           Worker.previousStatus := None;
                           Worker.finalIteration := Store.currentIteration st |}
        /\ w' = w
    | Store.pending | Store.running =>
        response = Some {| Worker.response_status := Store.cancelled;
                           Worker.previousStatus := Some (Store.status st);
                           Worker.finalIteration := Store.currentIteration st |}
        /\ Worker.job w' = snd (Worker.cancelJob (Worker.job w))
        /\ (Worker.state (Worker.job w) = Worker.active ->
            Worker.shouldCancelJob (Worker.job w') = true)
        /\ (Worker.state (Worker.job w) = Worker.waiting ->
            Worker.state (Worker.job w') = Worker.removed)
        /\ exists written,
             fst (Store.cancel JSON_stringify JSON_parse is_empty stateStore now true
                    workflowId (Some (default "User requested cancellation" reason))
                    (Worker.client w))
             = Some written
             /\ Store.status written = Store.cancelled
             /\ Store.stopReason written
                = Some (default "User requested cancellation" reason)
             /\ Store.completedAt written = Some now
             /\ Store.iterations written = Store.iterations st
             /\ Store.currentOutput written = Store.currentOutput st
             /\ (Store.readable JSON_stringify JSON_parse is_empty written ->
                 read w' = Some written
                 /\ forall reason',
                      cancel_workflow reason' w'
                      = (Some {| Worker.response_status := Store.cancelled;
                                 Worker.previousStatus := None;
                                 Worker.finalIteration := Store.currentIteration st |},
                         w'))
    end.
Proof.
  intros Text JSON_stringify JSON_parse is_empty stateStore now workflowId reason w st
    Httl Hget Hid. cbv zeta.
  pose proof (get_found JSON_parse is_empty stateStore _ _ _ _ _ Hget) as Hsame.
  assert (Hsettled : forall (w0 : Worker.World) (s : Store.WorkflowState) reason0,
             fst (Store.get JSON_parse is_empty stateStore now true workflowId
                    (Worker.client w0)) = Some s ->
             Store.status s = Store.cancelled ->
             Worker.cancel_workflow JSON_stringify JSON_parse is_empty stateStore now
               workflowId reason0 w0
             = (Some {| Worker.response_status := Store.cancelled;
                        Worker.previousStatus := None;
                        Worker.finalIteration := Store.currentIteration s |}, w0)).
  { intros w0 s reason0 Hg Hs.
    unfold Worker.cancel_workflow.
    rewrite (get_found JSON_parse is_empty stateStore _ _ _ _ _ Hg), Hs.
    destruct w0; reflexivity. }
  destruct (Store.status st) eqn:Hstatus.
  3,4: unfold Worker.cancel_workflow; rewrite Hsame, Hstatus; simpl;
       split; [reflexivity|]; destruct w; reflexivity.
  3: rewrite (Hsettled w st reason Hget Hstatus); simpl; split; reflexivity.
  all: pose proof (update_read_back JSON_stringify JSON_parse is_empty stateStore now true
                     workflowId
                     {| Store.upd_status := Some Store.cancelled;
                        Store.upd_currentOutput := None;
                        Store.upd_currentScore := None;
                        Store.upd_stopReason :=
                          Some (default "User cancelled"
                                  (Some (default "User requested cancellation" reason)));
                        Store.upd_errorMessage := None;
                        Store.upd_completedAt := Some now |}
                     (Worker.client w) Httl) as Hupd;
    rewrite Hget in Hupd; destruct (Hupd Hid) as (Hwritten & Hafter); clear Hupd;
    assert (Hrun : Worker.cancel_workflow JSON_stringify JSON_parse is_empty stateStore now
                     workflowId reason w
                   = (Some {| Worker.response_status := Store.cancelled;
                              Worker.previousStatus := Some (Store.status st);
                              Worker.finalIteration := Store.currentIteration st |},
                      {| Worker.client :=
                           snd (Store.cancel JSON_stringify JSON_parse is_empty stateStore
                                  now true workflowId
                                  (Some (default "User requested cancellation" reason))
                                  (Worker.client w));
                         Worker.job := snd (Worker.cancelJob (Worker.job w)) |}))
      by (unfold Worker.cancel_workflow; rewrite Hsame, Hstatus;
          destruct (Store.cancel _ _ _ _ _ _ _ _ _) as [x c'];
          destruct (Worker.cancelJob _) as [y j]; reflexivity);
    rewrite Hrun; simpl; rewrite Hstatus;
    (split; [reflexivity|]);
    (split; [reflexivity|]);
    (split; [intros Hactive; unfold Worker.cancelJob; rewrite Hactive;
             unfold Worker.shouldCancelJob; simpl;
             destruct (Worker.progress (Worker.job w)); reflexivity|]);
    (split; [intros Hwait; unfold Worker.cancelJob; rewrite Hwait; reflexivity|]);
    eexists; (split; [exact Hwritten|]);
    do 5 (split; [reflexivity|]);
    intros Hread; specialize (Hafter Hread);
    (split; [exact Hafter|]);
    intros reason';
    match goal with
    | |- Worker.cancel_workflow _ _ _ _ _ _ _ ?w0 = _ =>
        exact (Hsettled w0 _ reason' Hafter eq_refl)
    end.
Qed.

(** The sample job: a first request cancels the running workflow and
    marks the active job. *)
Lemma cancel_workflow_contract_witness :
  Worker.shouldCancelJob
    (Worker.job
       (WorkerSamples.cancel_request
          (Worker.start_job (fun s => s) Store.default_store 1000 WorkerSamples.job_data
             WorkerSamples.idle_world)))
  = true.
Proof.
  pose proof (cancel_workflow_contract Store.WorkflowState (fun s => s) Some (fun _ => false)
                Store.default_store 1500 (Worker.workflowId WorkerSamples.job_data) None
                (Worker.start_job (fun s => s) Store.default_store 1000
                   WorkerSamples.job_data WorkerSamples.idle_world)
                (Worker.initial_snapshot 1000 WorkerSamples.job_data)
                (proj1 (Z.leb_le 0 86400) eq_refl)
                eq_refl eq_refl) as H.
  cbv zeta in H. simpl Store.status in H.
  destruct H as (_ & _ & Hmarked & _).
  apply Hmarked. reflexivity.
Defined.

(** ** The in-process rate limiter *)

Section RateLimitFacts.

Import RateLimit.

Variable this : RateLimitConfig.

Local Abbreviation windowMs := (windowSeconds this * 1000)%Z.
Local Abbreviation check_ := (RateLimiter_check this).

Lemma cleanup_lookup (later : Z) (key : string) (store : InMemoryRateLimitStore) :
  cleanup later windowMs store !! key
  = match store !! key with
    | Some entry => if window_over later windowMs entry then None else Some entry
    | None => None
    end.
Proof.
  unfold cleanup, InMemoryRateLimitStore in *.
  destruct (store !! key) as [entry|] eqn:Hlook.
  - destruct (window_over later windowMs entry) eqn:Hover.
    + apply map_lookup_filter_None. right. intros x Hx. simpl.
      rewrite Hlook in Hx. injection Hx as <-. rewrite Hover. discriminate.
    + apply map_lookup_filter_Some. split; [exact Hlook | exact Hover].
  - apply map_lookup_filter_None. left. exact Hlook.
Qed.

(** A request of a client without a running window opens one and is let
    through. *)
Lemma check_opens_window (now : Z) (sweep : option Z) (clientId : string)
  (store : InMemoryRateLimitStore) :
  match store !! clientId with
  | Some entry => window_over now windowMs entry = true
  | None => True
  end ->
  fst (check_ now sweep clientId store)
  = {| allowed := true; remaining := (maxRequests this - 1)%Z; limit := maxRequests this;
       resetInSeconds := windowSeconds this; current := 1%Z |}
  /\ snd (check_ now sweep clientId store) !! clientId
     = Some {| count := 1%Z; windowStart := now |}.
Proof.
  unfold RateLimiter_check, check, InMemoryRateLimitStore in *.
  destruct (store !! clientId) as [entry|].
  - intros ->. simpl. split; [reflexivity | apply lookup_insert_eq].
  - intros _. simpl. split; [reflexivity | apply lookup_insert_eq].
Qed.

(** A request inside the running window of its client is let through
    while the count is below the limit, and then counted. *)
Lemma check_in_window (now : Z) (sweep : option Z) (clientId : string)
  (store : InMemoryRateLimitStore) (c opened : Z) :
  store !! clientId = Some {| count := c; windowStart := opened |} ->
  within_window this opened (now, sweep) ->
  allowed (fst (check_ now sweep clientId store)) = (c <? maxRequests this)%Z
  /\ snd (check_ now sweep clientId store) !! clientId
     = Some {| count := if (c <? maxRequests this)%Z then (c + 1)%Z else c;
               windowStart := opened |}.
Proof.
  intros Hlook (Hnow & Hsweep). simpl in Hnow, Hsweep.
  assert (Hkept : match sweep with
                  | Some later => cleanup later windowMs store
                  | None => store
                  end !! clientId = Some {| count := c; windowStart := opened |}).
  { destruct sweep as [later|]; [|exact Hlook].
    rewrite cleanup_lookup, Hlook. unfold window_over. simpl.
    destruct (windowMs <=? later - opened)%Z eqn:Hle; [|reflexivity].
    apply Z.leb_le in Hle. lia. }
  unfold RateLimiter_check, check. rewrite Hlook. unfold window_over. simpl.
  destruct (windowMs <=? now - opened)%Z eqn:Hle; [apply Z.leb_le in Hle; lia|].
  rewrite (Z.ltb_antisym (maxRequests this) c).
  destruct (maxRequests this <=? c)%Z; simpl.
  - split; [reflexivity | exact Hkept].
  - split; [reflexivity|]. unfold InMemoryRateLimitStore in *. rewrite Hkept.
    apply lookup_insert_eq.
Qed.

Lemma serve_in_window (clientId : string) (opened : Z) (requests : list (Z * option Z)) :
  forall (store : InMemoryRateLimitStore) (c : Z),
    store !! clientId = Some {| count := c; windowStart := opened |} ->
    Forall (within_window this opened) requests ->
    map allowed (serve this clientId requests store)
    = repeat true (length requests `min` Z.to_nat (maxRequests this - c))
      ++ repeat false (length requests - Z.to_nat (maxRequests this - c)).
Proof.
  induction requests as [|[now sweep] rest IH]; intros store c Hlook Hall;
    [reflexivity|].
  inversion Hall as [|x l Hhead Hrest]; subst.
  destruct (check_in_window now sweep clientId store c opened Hlook Hhead)
    as (Hallowed & Hafter).
  cbn [serve]. destruct (check_ now sweep clientId store) as [result store'].
  simpl in Hallowed, Hafter. cbn [map]. rewrite Hallowed.
  rewrite (IH _ _ Hafter Hrest).
  destruct (c <? maxRequests this)%Z eqn:Hroom.
  - apply Z.ltb_lt in Hroom.
    replace (Z.to_nat (maxRequests this - c))
      with (S (Z.to_nat (maxRequests this - (c + 1)))) by lia.
    reflexivity.
  - apply Z.ltb_ge in Hroom.
    replace (Z.to_nat (maxRequests this - c)) with 0 by lia.
    simpl. rewrite Nat.min_0_r, Nat.sub_0_r. reflexivity.
Qed.

(** What a request answers depends on the entry of its client only. *)
Lemma check_result_entry (now : Z) (sweep1 sweep2 : option Z) (clientId : string)
  (store1 store2 : InMemoryRateLimitStore) :
  match store1 !! clientId, store2 !! clientId with
  | Some e1, Some e2 => e1 = e2
  | Some e1, None => window_over now windowMs e1 = true
  | None, Some e2 => window_over now windowMs e2 = true
  | None, None => True
  end ->
  fst (check_ now sweep1 clientId store1) = fst (check_ now sweep2 clientId store2).
Proof.
  unfold RateLimiter_check, check, InMemoryRateLimitStore in *.
  destruct (store1 !! clientId) as [e1|], (store2 !! clientId) as [e2|].
  - intros <-. destruct (window_over now windowMs e1); [reflexivity|].
    destruct (maxRequests this <=? count e1)%Z; reflexivity.
  - intros ->. reflexivity.
  - intros ->. reflexivity.
  - reflexivity.
Qed.

(** A request of one client changes the entry of another client only by
    sweeping it away once its window is over. *)
Lemma check_other_entry (now : Z) (sweep : option Z) (clientId other : string)
  (store : InMemoryRateLimitStore) :
  clientId <> other ->
  snd (check_ now sweep clientId store) !! other
  = match sweep with
    | Some later => cleanup later windowMs store !! other
    | None => store !! other
    end.
Proof.
  intros Hne. unfold RateLimiter_check, check.
  destruct sweep as [later|]; simpl;
    (destruct (store !! clientId) as [entry|]; simpl;
     [destruct (window_over now windowMs entry); simpl;
      [apply lookup_insert_ne; exact Hne|];
      destruct (maxRequests this <=? count entry)%Z; simpl; [reflexivity|];
      try match goal with
          | |- context [match ?x with Some _ => _ | None => _ end] => destruct x
          end;
      first [reflexivity | apply lookup_insert_ne; exact Hne]
     | apply lookup_insert_ne; exact Hne]).
Qed.

End RateLimitFacts.

(** The quota of a window.  A request of a client that has no running
    window opens one and is let through, whatever the limit is; of the
    requests that follow inside that window, the first [maxRequests - 1]
    are let through and all later ones are refused. *)
Theorem window_quota :
  forall (this : RateLimit.RateLimitConfig) (clientId : string) (opened : Z)
         (sweep : option Z) (rest : list (Z * option Z))
         (store : RateLimit.InMemoryRateLimitStore),
    match store !! clientId with
    | Some entry =>
        RateLimit.window_over opened (RateLimit.windowSeconds this * 1000) entry = true
    | None => True
    end ->
    Forall (RateLimit.within_window this opened) rest ->
    map RateLimit.allowed (RateLimit.serve this clientId ((opened, sweep) :: rest) store)
    = true
      :: repeat true (length rest `min` Z.to_nat (RateLimit.maxRequests this - 1))
      ++ repeat false (length rest - Z.to_nat (RateLimit.maxRequests this - 1)).
Proof.
  intros this clientId opened sweep rest store Hfresh Hall.
  destruct (check_opens_window this opened sweep clientId store Hfresh) as (Hfirst & Hafter).
  cbn [RateLimit.serve].
  destruct (RateLimit.RateLimiter_check this opened sweep clientId store)
    as [result store'].
  simpl in Hfirst, Hafter. cbn [map]. rewrite Hfirst. simpl RateLimit.allowed.
  f_equal. apply (serve_in_window this clientId opened rest store' 1 Hafter Hall).
Qed.

(** Eleven requests of one client within a minute, with a limit of ten
    per minute: the eleventh is refused. *)
Lemma window_quota_witness :
  map RateLimit.allowed
    (RateLimit.serve RateLimit.workflowRateLimiter "client"
       ((0%Z, None) :: repeat (1000%Z, None) 10) ∅)
  = repeat true 10 ++ [false].
Proof.
  refine (window_quota RateLimit.workflowRateLimiter "client" 0 None
            (repeat (1000%Z, None) 10) ∅ I _).
  simpl. repeat (apply List.Forall_cons; [split; [reflexivity | exact I]|]).
  apply List.Forall_nil.
Defined.

(** Without a raw client, [peek] answers what [check] would answer, but
    then deletes the entry of the client instead of restoring the count:
    the client's next request opens a new window and is let through,
    whatever has been counted before. *)
Theorem peek_erases_window :
  forall (this : RateLimit.RateLimitConfig) (now now' : Z) (sweep sweep' : option Z)
         (clientId : string) (store : RateLimit.InMemoryRateLimitStore),
    let peeked := RateLimit.RateLimiter_peek this now sweep clientId store in
    fst peeked = fst (RateLimit.RateLimiter_check this now sweep clientId store)
    /\ snd peeked !! clientId = None
    /\ fst (RateLimit.RateLimiter_check this now' sweep' clientId (snd peeked))
       = {| RateLimit.allowed := true;
            RateLimit.remaining := (RateLimit.maxRequests this - 1)%Z;
            RateLimit.limit := RateLimit.maxRequests this;
            RateLimit.resetInSeconds := RateLimit.windowSeconds this;
            RateLimit.current := 1%Z |}.
Proof.
  intros this now now' sweep sweep' clientId store. cbv zeta.
  unfold RateLimit.RateLimiter_peek. fold (RateLimit.RateLimiter_check this).
  change (RateLimit.check now sweep clientId (RateLimit.maxRequests this)
            (RateLimit.windowSeconds this) store)
    with (RateLimit.RateLimiter_check this now sweep clientId store).
  destruct (RateLimit.RateLimiter_check this now sweep clientId store)
    as [result store'].
  simpl.
  assert (Hgone : RateLimit.reset clientId store' !! clientId = None).
  { unfold RateLimit.reset, RateLimit.InMemoryRateLimitStore in *.
    apply lookup_delete_eq. }
  split; [reflexivity|]. split; [exact Hgone|].
  apply check_opens_window. rewrite Hgone. exact I.
Qed.

(** Clients do not affect each other: with a clock that does not go
    back, what a request of one client answers is the same whether or not
    a request of another client has been served before it. *)
Theorem clients_isolated :
  forall (this : RateLimit.RateLimitConfig) (now now' : Z) (sweep sweep' : option Z)
         (clientId other : string) (store : RateLimit.InMemoryRateLimitStore),
    clientId <> other ->
    (forall later, sweep = Some later -> (later <= now')%Z) ->
    fst (RateLimit.RateLimiter_check this now' sweep' other
           (snd (RateLimit.RateLimiter_check this now sweep clientId store)))
    = fst (RateLimit.RateLimiter_check this now' sweep' other store).
Proof.
  intros this now now' sweep sweep' clientId other store Hne Hclock.
  apply check_result_entry.
  rewrite (check_other_entry this now sweep clientId other store Hne).
  destruct sweep as [later|].
  - rewrite cleanup_lookup.
    unfold RateLimit.InMemoryRateLimitStore in *.
    destruct (store !! other) as [entry|]; [|exact I].
    destruct (RateLimit.window_over later _ entry) eqn:Hover; [|reflexivity].
    unfold RateLimit.window_over in *. apply Z.leb_le in Hover. apply Z.leb_le.
    specialize (Hclock later eq_refl). lia.
  - unfold RateLimit.InMemoryRateLimitStore in *.
    destruct (store !! other); [reflexivity | exact I].
Qed.

(** Two clients of the workflow limiter. *)
Lemma clients_isolated_witness :
  fst (RateLimit.RateLimiter_check RateLimit.workflowRateLimiter 2000 None "bob"
         (snd (RateLimit.RateLimiter_check RateLimit.workflowRateLimiter 1000
                 (Some 1000%Z) "alice" ∅)))
  = fst (RateLimit.RateLimiter_check RateLimit.workflowRateLimiter 2000 None "bob" ∅).
Proof.
  apply (clients_isolated RateLimit.workflowRateLimiter 1000 2000 (Some 1000%Z) None
           "alice" "bob" ∅).
  - discriminate.
  - intros later [= <-]. apply (proj1 (Z.leb_le _ _)). reflexivity.
Defined.

(** ** The orchestrator on its own runners *)

Section RunnerFacts.

Context {Num : Type} `{JsNumber Num}.
Variable JSON_parse : string -> option Json.value.
Variable buildGeneratorSystemPrompt : string.
Variable buildGeneratorUserPrompt : string -> option DiscriminatorFeedback -> nat -> string.
Variable buildDiscriminatorSystemPrompt : string.
Variable buildDiscriminatorUserPrompt : string -> list string -> string -> string.

Lemma parseResponse_in_range (response : string) :
  feedback_valid (parseResponse JSON_parse response) = true.
Proof.
  unfold parseResponse. destruct (first_result _) as [f|] eqn:Hfirst.
  - exact (strategies_valid _ _ _ Hfirst).
  - reflexivity.
Qed.

(** A completion of a runner that the orchestrator has built is the
    answer of the provider to one of at most three attempts. *)
Lemma executeCompletion_returns (Math_random : nat -> Num)
  (provider : Runner.CompletionRequest Num -> nat -> Outcome Runner.CompletionResponse)
  (model : string) (maxTokens : nat) (systemPrompt userPrompt : string) (elapsed : Z)
  (result : Runner.RunnerResult) (st : RetryState Num) :
  let this := Runner.BaseRunner_new (Runners.runner_config provider model maxTokens) in
  Runner.executeCompletion Math_random this systemPrompt userPrompt elapsed
  = Some (Returns result, st) ->
  exists attempt response,
    1 <= attempt <= 3
    /\ provider {| Runner.req_model := model;
                   Runner.req_systemPrompt := systemPrompt;
                   Runner.req_userPrompt := userPrompt;
                   Runner.req_maxTokens := maxTokens;
                   Runner.req_temperature := None |} attempt
       = Returns response
    /\ result = Runner.result_of elapsed response.
Proof.
  intros this Hrun.
  set (call := provider {| Runner.req_model := model;
                           Runner.req_systemPrompt := systemPrompt;
                           Runner.req_userPrompt := userPrompt;
                           Runner.req_maxTokens := maxTokens;
                           Runner.req_temperature := None |}).
  destruct (retry_settles Runner.CompletionResponse call
              (Runner.with_onRetry (Runner.retryOptions this) Runner.log_retry)
              Math_random)
    as (k & st' & Hk & Hretry & _).
  - intros callback Hcb e a d. injection Hcb as <-. reflexivity.
  - simpl. lia.
  - simpl in Hk. unfold Runner.executeCompletion in Hrun.
    change (Runner.provider this (Runner.request_of this systemPrompt userPrompt))
      with call in Hrun.
    rewrite Hretry in Hrun.
    destruct (call (S k)) as [response|e] eqn:Hcall; [|discriminate].
    injection Hrun as <- _. exists (S k), response.
    split; [lia|]. split; [exact Hcall | reflexivity].
Qed.

End RunnerFacts.

(** [execute] of an orchestrator that its constructor has built, with any
    stop condition: every record of a result holds the content of an
    answer that the provider gave to the generator within three attempts,
    and the feedback that [parseResponse] makes of an answer that the
    provider gave to the discriminator (asked about that very content)
    within three attempts.  Hence every recorded feedback satisfies the
    schema, and the final score lies between 0 and 1. *)
Theorem execute_on_runners :
  forall (Num : Type) (JS : JsNumber Num) (JSON_parse : string -> option Json.value)
         (generatorSystemPrompt : string)
         (generatorUserPrompt : string -> option DiscriminatorFeedback -> nat -> string)
         (discriminatorSystemPrompt : string)
         (discriminatorUserPrompt : string -> list string -> string -> string)
         (config : Runners.OrchestratorConfig) (world : Runners.Surroundings)
         (stopConditions : StopCondition) (params : ExecuteParams) (r : WorkflowResult),
    execute
      (Runners.collaborators JSON_parse generatorSystemPrompt generatorUserPrompt
         discriminatorSystemPrompt discriminatorUserPrompt config world)
      stopConditions params
    = Some (Resolved r) ->
    (forall k it,
       iterationHistory r !! k = Some it ->
       exists attempt attempt' answer answer',
         1 <= attempt <= 3 /\ 1 <= attempt' <= 3
         /\ Runners.complete world (S k) true
              {| Runner.req_model := Runners.generatorModel config;
                 Runner.req_systemPrompt := generatorSystemPrompt;
                 Runner.req_userPrompt :=
                   generatorUserPrompt (task params)
                     (match k with
                      | O => None
                      | S j => feedback <$> iterationHistory r !! j
                      end) (S k);
                 Runner.req_maxTokens := 4096;
                 Runner.req_temperature := None |} attempt
            = Returns answer
         /\ generatorOutput it = Runner.response_content answer
         /\ Runners.complete world (S k) false
              {| Runner.req_model := Runners.discriminatorModel config;
                 Runner.req_systemPrompt := discriminatorSystemPrompt;
                 Runner.req_userPrompt :=
                   discriminatorUserPrompt (task params) (criteria params)
                     (generatorOutput it);
                 Runner.req_maxTokens := 2048;
                 Runner.req_temperature := None |} attempt'
            = Returns answer'
         /\ feedback it = parseResponse JSON_parse (Runner.response_content answer'))
    /\ Forall (fun it => feedback_valid (feedback it) = true) (iterationHistory r)
    /\ score_in_range (finalScore r) = true.
Proof.
  intros Num JS JSON_parse gsp gup dsp dup config world sc params r Hexec.
  set (env := Runners.collaborators JSON_parse gsp gup dsp dup config world) in *.
  unfold execute in Hexec.
  destruct (run_loop _ _ _ _ _ _) as [[st|e st]|] eqn:Hrun; try discriminate.
  injection Hexec as <-.
  destruct (execute_records env sc params _ Hrun)
    as (N & (Hlen & Hfb & Hout & Hch & Hpre) & _).
  simpl.
  assert (Hrecords : forall k it,
             iterations_ st !! k = Some it ->
             exists attempt attempt' answer answer',
               1 <= attempt <= 3 /\ 1 <= attempt' <= 3
               /\ Runners.complete world (S k) true
                    {| Runner.req_model := Runners.generatorModel config;
                       Runner.req_systemPrompt := gsp;
                       Runner.req_userPrompt :=
                         gup (task params)
                           (match k with
                            | O => None
                            | S j => feedback <$> iterations_ st !! j
                            end) (S k);
                       Runner.req_maxTokens := 4096;
                       Runner.req_temperature := None |} attempt
                  = Returns answer
               /\ generatorOutput it = Runner.response_content answer
               /\ Runners.complete world (S k) false
                    {| Runner.req_model := Runners.discriminatorModel config;
                       Runner.req_systemPrompt := dsp;
                       Runner.req_userPrompt :=
                         dup (task params) (criteria params) (generatorOutput it);
                       Runner.req_maxTokens := 2048;
                       Runner.req_temperature := None |} attempt'
                  = Returns answer'
               /\ feedback it = parseResponse JSON_parse (Runner.response_content answer')).
  { intros k it Hk. destruct (Hch k it Hk) as (Hno & g & d & Hg & Hd & Hit).
    rewrite Hno in Hg, Hd.
    assert (Hprev : feedback <$> match k with
                                 | O => None
                                 | S j => iterations_ st !! j
                                 end
                    = match k with
                      | O => None
                      | S j => feedback <$> iterations_ st !! j
                      end) by (destruct k; reflexivity).
    rewrite Hprev in Hg. clear Hprev.
    subst env. simpl in Hg, Hd.
    unfold Runners.GeneratorRunner_run in Hg.
    unfold Runners.DiscriminatorRunner_run in Hd.
    destruct (Runner.executeCompletion _ _ _ _ _) as [[[result|e] st1]|] eqn:Hgen in Hg;
      try discriminate.
    destruct (Runner.executeCompletion _ _ _ _ _) as [[[result'|e'] st2]|] eqn:Hdis in Hd;
      try discriminate.
    simpl in Hg, Hd. injection Hg as <-. injection Hd as <-.
    apply executeCompletion_returns in Hgen.
    destruct Hgen as (attempt & answer & Ha & Hcall & ->).
    apply executeCompletion_returns in Hdis.
    destruct Hdis as (attempt' & answer' & Ha' & Hcall' & ->).
    pose proof (f_equal generatorOutput Hit) as Hgo. simpl in Hgo.
    pose proof (f_equal feedback Hit) as Hfd. simpl in Hfd.
    simpl in Hcall'. rewrite <- Hgo in Hcall'.
    exists attempt, attempt', answer, answer'.
    split; [exact Ha|]. split; [exact Ha'|]. split; [exact Hcall|].
    split; [exact Hgo|]. split; [exact Hcall' | exact Hfd]. }
  split; [exact Hrecords|]. split.
  - apply Forall_lookup. intros k it Hk.
    destruct (Hrecords k it Hk) as (_ & _ & _ & answer' & _ & _ & _ & _ & _ & ->).
    apply parseResponse_in_range.
  - rewrite Hfb. destruct (last (iterations_ st)) as [it|] eqn:Hlast; simpl.
    + rewrite last_lookup in Hlast.
      destruct (Hrecords _ it Hlast) as (_ & _ & _ & answer' & _ & _ & _ & _ & _ & ->).
      apply parseResponse_in_range.
    + reflexivity.
Qed.

(** A provider that answers with prose, and a parser that rejects it: the
    run ends with the score of the fallback feedback. *)
Lemma execute_on_runners_witness :
  exists r,
    execute
      (Runners.collaborators (fun _ => None) "system" (fun _ _ _ => "user")
         "system" (fun _ _ _ => "user") Samples.models Samples.prose_world)
      (createDefaultStopConditions DefaultStopConditionsConfig_empty)
      Samples.three_iterations
    = Some (Resolved r)
    /\ result_iterations r = 3
    /\ score_in_range (finalScore r) = true.
Proof.
  eexists. split; [vm_compute; reflexivity|]. split; [reflexivity|].
  refine (proj2 (proj2 (execute_on_runners Q Q_JsNumber (fun _ => None) "system"
                          (fun _ _ _ => "user") "system" (fun _ _ _ => "user")
                          Samples.models Samples.prose_world
                          (createDefaultStopConditions DefaultStopConditionsConfig_empty)
                          Samples.three_iterations _ _))).
  vm_compute. reflexivity.
Defined.

(** ** Composites under change *)

Lemma Composite_evaluate_app (l1 l2 : list StopCondition) (context : StopConditionContext) :
  Composite_evaluate (l1 ++ l2) context
  = if shouldStop (Composite_evaluate l1 context)
    then Composite_evaluate l1 context
    else Composite_evaluate l2 context.
Proof.
  induction l1 as [|c l1 IH]; simpl; [reflexivity|].
  destruct (shouldStop (evaluate c context)); simpl; [reflexivity | exact IH].
Qed.

(** [addCondition] gives the new member the last say: the composite
    answers as before whenever it stopped before, and otherwise as the
    new member alone.  [removeCondition] changes nothing when the removed
    members would not have stopped.  Removing the member named
    "stagnation" (or "early_termination") from the default composite
    gives the composite that [createDefaultStopConditions] builds with
    [includeStagnation: false] (or [includeEarlyTermination: false]). *)
Theorem composite_add_remove :
  (forall (conditions : list StopCondition) (condition : StopCondition)
          (context : StopConditionContext),
      Composite_evaluate (addCondition conditions condition) context
      = if shouldStop (Composite_evaluate conditions context)
        then Composite_evaluate conditions context
        else Composite_evaluate [condition] context)
  /\ (forall (conditions : list StopCondition) (n : string)
             (context : StopConditionContext),
        Forall (fun c => name c = n -> shouldStop (evaluate c context) = false) conditions ->
        Composite_evaluate (removeCondition conditions n) context
        = Composite_evaluate conditions context)
  /\ (forall config : DefaultStopConditionsConfig,
        removeCondition (defaultConditions config) "stagnation"
        = defaultConditions
            {| dflt_stagnation := dflt_stagnation config;
               dflt_earlyTermination := dflt_earlyTermination config;
               includeStagnation := Some false;
               includeEarlyTermination := includeEarlyTermination config |}
        /\ removeCondition (defaultConditions config) "early_termination"
           = defaultConditions
               {| dflt_stagnation := dflt_stagnation config;
                  dflt_earlyTermination := dflt_earlyTermination config;
                  includeStagnation := includeStagnation config;
                  includeEarlyTermination := Some false |}).
Proof.
  split; [|split].
  - intros conditions condition context. apply Composite_evaluate_app.
  - intros conditions n context Hquiet. unfold removeCondition.
    induction Hquiet as [|c l Hc Hl IH]; [reflexivity|].
    rewrite filter_cons. destruct (decide (name c ≠ n)) as [Hne|Heq]; simpl.
    + destruct (shouldStop (evaluate c context)); [reflexivity | exact IH].
    + assert (Hname : name c = n) by (destruct (decide (name c = n)); tauto).
      rewrite (Hc Hname). exact IH.
  - intros config. unfold removeCondition, defaultConditions. simpl.
    destruct (not_false (includeStagnation config));
      destruct (not_false (includeEarlyTermination config)); split; reflexivity.
Qed.

(** ** The [Result] utilities *)

(** [flatMap] with [ok] obeys the monad laws and [map] is [flatMap]
    followed by [ok]; an error passes through [map] and [flatMap]
    untouched.  [fromPromise] followed by [unwrap] returns what the
    promise resolved to, but throws an [Error] whatever the promise
    rejected with: the rejection itself when it is an [Error], and a new
    [Error] of its text otherwise. *)
Theorem Result_laws :
  (forall (T U E : Type) (x : T) (f : T -> ResultUtil.Result U E),
      ResultUtil.flatMap (ResultUtil.ok x) f = f x)
  /\ (forall (T E : Type) (r : ResultUtil.Result T E),
        ResultUtil.flatMap r ResultUtil.ok = r)
  /\ (forall (T U V E : Type) (r : ResultUtil.Result T E)
             (f : T -> ResultUtil.Result U E) (g : U -> ResultUtil.Result V E),
        ResultUtil.flatMap (ResultUtil.flatMap r f) g
        = ResultUtil.flatMap r (fun x => ResultUtil.flatMap (f x) g))
  /\ (forall (T U E : Type) (r : ResultUtil.Result T E) (f : T -> U),
        ResultUtil.map r f = ResultUtil.flatMap r (fun x => ResultUtil.ok (f x)))
  /\ (forall (T U E : Type) (e : E) (f : T -> ResultUtil.Result U E),
        ResultUtil.flatMap (ResultUtil.err e) f = ResultUtil.err e)
  /\ (forall (T : Type) (promise : Outcome T),
        ResultUtil.unwrap (ResultUtil.fromPromise promise)
        = match promise with
          | Returns data => Returns data
          | Throws error => Throws (as_Error error)
          end)
  /\ (forall (T : Type) (promise : Outcome T) (error : JsThrown),
        ResultUtil.fromPromise promise = ResultUtil.err error ->
        exists message status statusCode,
          error = ThrownObject true message status statusCode)
  /\ (forall (T : Type) (r : ResultUtil.Result T JsThrown) (d : T),
        ResultUtil.unwrapOr r d
        = match ResultUtil.unwrap r with Returns data => data | Throws _ => d end).
Proof.
  split; [intros; reflexivity|].
  split; [intros T E r; destruct r; reflexivity|].
  split; [intros T U V E r f g; destruct r; reflexivity|].
  split; [intros T U E r f; destruct r; reflexivity|].
  split; [intros; reflexivity|].
  split; [intros T promise; destruct promise; reflexivity|].
  split.
  - intros T promise error. destruct promise as [data|e]; [discriminate|].
    intros [= <-]. destruct e as [|repr|[|] message status statusCode]; simpl; eauto.
  - intros T r d. destruct r; reflexivity.
Qed.

(** ** Unparseable evaluations *)

Lemma execute_success_reason (env : Collaborators) (stopConditions : StopCondition)
  (params : ExecuteParams) (r : WorkflowResult) :
  execute env stopConditions params = Some (Resolved r) ->
  success r = StopReason_eqb (result_reason r) threshold_reached.
Proof.
  unfold execute. destruct (run_loop _ _ _ _ _ _) as [[st|e st]|]; try discriminate.
  intros [= <-]. reflexivity.
Qed.

(** Under the default stop conditions, a run whose last evaluation could
    not be parsed by any strategy is never a success and never an early
    termination: its final score is the 0.3 of the fallback feedback and
    its reason is [max_iterations] or [stagnation]. *)
Theorem unparseable_evaluation_is_not_a_success :
  forall (env : Collaborators) (params : ExecuteParams) (r : WorkflowResult)
         (it : IterationState) (JSON_parse : string -> option Json.value)
         (response : string),
    1 <= params_maxIterations params ->
    execute env (createDefaultStopConditions DefaultStopConditionsConfig_empty) params
    = Some (Resolved r) ->
    last (iterationHistory r) = Some it ->
    tryParseDirectJson JSON_parse response = None ->
    tryParseCodeBlock JSON_parse response = None ->
    tryExtractBalancedJson JSON_parse response = None ->
    feedback it = parseResponse JSON_parse response ->
    success r = false
    /\ finalScore r = 0.3%float
    /\ (result_reason r = max_iterations
        /\ result_iterations r = params_maxIterations params
        \/ result_reason r = stagnation).
Proof.
  intros env params r it JSON_parse response Hmax Hexec Hlast H1 H2 H3 Hfeedback.
  assert (Hfallback : feedback it = createFallbackFeedback response).
  { rewrite Hfeedback. unfold parseResponse. simpl. rewrite H1, H2, H3. reflexivity. }
  pose proof (execute_success_reason _ _ _ _ Hexec) as Hsuccess.
  destruct (default_run_facts env DefaultStopConditionsConfig_empty params r Hmax Hexec)
    as (it' & Hlast' & _ & Hscore & _ & Hpassed & _ & Hreason).
  rewrite Hlast in Hlast'. injection Hlast' as <-.
  rewrite Hfallback in Hscore, Hpassed, Hreason. simpl in Hscore, Hpassed, Hreason.
  split; [exact Hpassed|]. split; [exact Hscore|].
  destruct Hreason as [Hr|[(Hr & Hn)|[(Hr & _)|(_ & _ & _ & Hlow)]]].
  - rewrite Hr, Hpassed in Hsuccess. discriminate.
  - left. split; assumption.
  - right. exact Hr.
  - vm_compute in Hlow. discriminate.
Qed.

(** A provider that answers with prose: three iterations, no success. *)
Lemma unparseable_evaluation_is_not_a_success_witness :
  exists r it,
    execute
      (Runners.collaborators (fun _ => None) "system" (fun _ _ _ => "user")
         "system" (fun _ _ _ => "user") Samples.models Samples.prose_world)
      (createDefaultStopConditions DefaultStopConditionsConfig_empty)
      Samples.three_iterations
    = Some (Resolved r)
    /\ last (iterationHistory r) = Some it
    /\ success r = false.
Proof.
  eexists. eexists. split; [vm_compute; reflexivity|]. split; [vm_compute; reflexivity|].
  refine (proj1 (unparseable_evaluation_is_not_a_success
                   (Runners.collaborators (fun _ => None) "system" (fun _ _ _ => "user")
                      "system" (fun _ _ _ => "user") Samples.models Samples.prose_world)
                   Samples.three_iterations _ _ (fun _ => None) "Looks good to me."
                   (le_S _ _ (le_S _ _ (le_n 1))) _ _ _ _ _ _));
    vm_compute; reflexivity.
Defined.

(** ** The balanced candidate of strategy 3 *)

Lemma substring_drop (n m : nat) :
  forall s : string, String.substring n m s = String.substring 0 m (Str.drop n s).
Proof.
  induction n as [|n IH]; intros s; [reflexivity|].
  destruct s as [|c s]; simpl.
  - destruct m; reflexivity.
  - apply IH.
Qed.

Lemma substring_nothing (s : string) : String.substring 0 0 s = EmptyString.
Proof. destruct s; reflexivity. Qed.

Lemma indexOf_brace (response : string) (start : nat) :
  Str.indexOf "{" response = Some start ->
  exists rest, Str.drop start response = String "{" rest.
Proof.
  intros Hindex. unfold Str.indexOf in Hindex.
  apply String.index_correct1 in Hindex. simpl String.length in Hindex.
  rewrite substring_drop in Hindex.
  destruct (Str.drop start response) as [|c rest]; [discriminate|].
  simpl in Hindex. destruct rest; injection Hindex as ->; eauto.
Qed.

(** The depth-counting loop stops at the first index at which the depth
    is back to zero. *)
Lemma find_closing_some (remaining : string) :
  forall (i : nat) (depth : Z) (stop : nat),
    (1 <= depth)%Z ->
    find_closing remaining i depth = Some stop ->
    exists k,
      stop = i + k
      /\ (brace_depth (String.substring 0 (S k) remaining) + depth = 0)%Z
      /\ forall n, n <= k ->
           (1 <= brace_depth (String.substring 0 n remaining) + depth)%Z.
Proof.
  induction remaining as [|c rest IH]; intros i depth stop Hdepth; [discriminate|].
  cbn [find_closing].
  assert (Hshort : forall n delta,
             (forall n', n' <= n - 1 ->
                (1 <= brace_depth (String.substring 0 n' rest) + (depth + delta))%Z) ->
             ((if Ascii.eqb c "{" then 1 else if Ascii.eqb c "}" then -1 else 0)
              = delta)%Z ->
             (1 <= brace_depth (String.substring 0 n (String c rest)) + depth)%Z).
  { intros n delta Hrest Hdelta. destruct n as [|n]; [simpl; lia|].
    change (String.substring 0 (S n) (String c rest))
      with (String c (String.substring 0 n rest)).
    cbn [brace_depth]. rewrite Hdelta.
    assert (Hn := Hrest n ltac:(lia)). lia. }
  destruct (Ascii.eqb c "{") eqn:Hopen.
  - intros Hfind.
    assert (Hdeeper : (1 <= depth + 1)%Z) by lia.
    destruct (IH _ _ _ Hdeeper Hfind) as (k & -> & Hzero & Hpos).
    exists (S k). split; [lia|]. split.
    + change (String.substring 0 (S (S k)) (String c rest))
        with (String c (String.substring 0 (S k) rest)).
      simpl. rewrite Hopen. lia.
    + intros n Hn. apply (Hshort n 1%Z); [|reflexivity].
      intros n' Hn'. apply Hpos. lia.
  - destruct (Ascii.eqb c "}") eqn:Hclose.
    + destruct (depth - 1 =? 0)%Z eqn:Hzero.
      * apply Z.eqb_eq in Hzero. intros [= <-]. exists 0. split; [lia|]. split.
        -- simpl. rewrite Hopen, Hclose, substring_nothing. simpl. lia.
        -- intros n Hn. replace n with 0 by lia. simpl. lia.
      * apply Z.eqb_neq in Hzero. intros Hfind.
        assert (Hless : (1 <= depth - 1)%Z) by lia.
        destruct (IH _ _ _ Hless Hfind) as (k & -> & Hbal & Hpos).
        exists (S k). split; [lia|]. split.
        -- change (String.substring 0 (S (S k)) (String c rest))
             with (String c (String.substring 0 (S k) rest)).
           simpl. rewrite Hopen, Hclose. lia.
        -- intros n Hn. apply (Hshort n (-1)%Z); [|reflexivity].
           intros n' Hn'. specialize (Hpos n'). lia.
    + intros Hfind. destruct (IH _ _ _ Hdepth Hfind) as (k & -> & Hbal & Hpos).
      exists (S k). split; [lia|]. split.
      * change (String.substring 0 (S (S k)) (String c rest))
          with (String c (String.substring 0 (S k) rest)).
        simpl. rewrite Hopen, Hclose. lia.
      * intros n Hn. apply (Hshort n 0%Z); [|reflexivity].
        intros n' Hn'. specialize (Hpos n'). lia.
Qed.

Lemma find_closing_none (remaining : string) :
  forall (i : nat) (depth : Z),
    (1 <= depth)%Z ->
    find_closing remaining i depth = None ->
    forall n, (1 <= brace_depth (String.substring 0 n remaining) + depth)%Z.
Proof.
  induction remaining as [|c rest IH]; intros i depth Hdepth Hfind n.
  - destruct n; simpl; lia.
  - cbn [find_closing] in Hfind. destruct n as [|n]; [simpl; lia|].
    change (String.substring 0 (S n) (String c rest))
      with (String c (String.substring 0 n rest)).
    simpl. destruct (Ascii.eqb c "{").
    + assert (Hdeeper : (1 <= depth + 1)%Z) by lia.
      specialize (IH _ _ Hdeeper Hfind n). lia.
    + destruct (Ascii.eqb c "}").
      * destruct (depth - 1 =? 0)%Z eqn:Hzero; [discriminate|].
        apply Z.eqb_neq in Hzero.
        assert (Hless : (1 <= depth - 1)%Z) by lia.
        specialize (IH _ _ Hless Hfind n). lia.
      * specialize (IH _ _ Hdepth Hfind n). lia.
Qed.

(** Strategy 3 hands to the parser the shortest text that starts at the
    first opening brace of the response and in which the braces balance,
    counting every brace, those inside JSON strings included; when no such
    text exists it gives up without calling the parser. *)
Theorem balanced_extraction :
  forall (JSON_parse : string -> option Json.value) (response : string) (start : nat),
    Str.indexOf "{" response = Some start ->
    match find_closing (Str.drop start response) start 0 with
    | Some stop =>
        start <= stop
        /\ brace_depth (Str.substring start (stop + 1) response) = 0%Z
        /\ (forall n, 1 <= n <= stop - start ->
              (1 <= brace_depth (String.substring start n response))%Z)
        /\ tryExtractBalancedJson JSON_parse response
           = parse_and_validate JSON_parse (Str.substring start (stop + 1) response)
    | None =>
        (forall n, 1 <= n -> (1 <= brace_depth (String.substring start n response))%Z)
        /\ tryExtractBalancedJson JSON_parse response = None
    end.
Proof.
  intros JSON_parse response start Hindex.
  destruct (indexOf_brace response start Hindex) as (rest & Hdrop).
  assert (Hprefix : forall n,
             String.substring start (S n) response
             = String "{" (String.substring 0 n rest)).
  { intros n. rewrite substring_drop, Hdrop. reflexivity. }
  unfold tryExtractBalancedJson. rewrite Hindex, Hdrop.
  cbn [find_closing]. change (Ascii.eqb "{" "{") with true. cbv iota.
  change (0 + 1)%Z with 1%Z.
  destruct (find_closing rest (S start) 1) as [stop|] eqn:Hfind.
  - destruct (find_closing_some rest (S start) 1 stop ltac:(lia) Hfind)
      as (k & -> & Hzero & Hpos).
    split; [lia|]. split; [|split; [|reflexivity]].
    + unfold Str.substring.
      replace (S start + k + 1 - start) with (S (S k)) by lia.
      rewrite Hprefix. simpl. lia.
    + intros n Hn. destruct n as [|n]; [lia|].
      rewrite Hprefix. simpl. specialize (Hpos n). lia.
  - split; [|reflexivity].
    intros n Hn. destruct n as [|n]; [lia|].
    rewrite Hprefix. simpl.
    pose proof (find_closing_none rest (S start) 1 ltac:(lia) Hfind n). lia.
Qed.

(** A response with prose around a nested object. *)
Lemma balanced_extraction_witness :
  brace_depth (Str.substring 8 14 "Verdict {a:{}} done") = 0%Z.
Proof.
  pose proof (balanced_extraction (fun _ => None) "Verdict {a:{}} done" 8 eq_refl) as H.
  assert (Hstop : find_closing (Str.drop 8 "Verdict {a:{}} done") 8 0 = Some 13)
    by (vm_compute; reflexivity).
  rewrite Hstop in H. exact (proj1 (proj2 H)).
Defined.

(** ** The end of a snapshot's time to live *)

Section ExpiryFacts.

Context {Text : Type}.
Variable JSON_stringify : Store.WorkflowState -> Text.
Variable JSON_parse : Text -> option Store.WorkflowState.
Variable is_empty : Text -> bool.
Variable this : Store.WorkflowStateStore.

Local Abbreviation save := (Store.save JSON_stringify this).
Local Abbreviation get := (Store.get JSON_parse is_empty this).
Local Abbreviation ttl := (Store.ttlSeconds this).

Lemma get_after_expiry (now now' : Z) (r : bool) (state : Store.WorkflowState)
  (c : Store.Client Text) :
  (0 < ttl)%Z ->
  (now + ttl * 1000 < now')%Z ->
  fst (get now' r (Store.id state) (save now r state c)) = None.
Proof.
  intros Httl Hlate.
  assert (Hzero : (ttl =? 0)%Z = false) by (apply Z.eqb_neq; lia).
  assert (Hpos : (ttl <=? 0)%Z = false) by (apply Z.leb_gt; lia).
  assert (Hover : (now + ttl * 1000 <? now')%Z = true) by (apply Z.ltb_lt; lia).
  destruct c as [mode d f].
  unfold Store.get, Store.save, Store.client_get, Store.client_set, Store.truthy,
    Store.Redis_SETEX, Store.with_fallback, Store.with_server. simpl.
  rewrite Hzero, Hpos.
  generalize (Store.getKey this (Store.id state)). intros key.
  destruct (mode || negb r) eqn:Hmode; simpl; rewrite Hmode.
  - unfold Store.InMemoryStore_get, Store.InMemoryStore_set, Store.InMemoryStore,
      Store.Redis_db in *.
    rewrite lookup_insert_eq. unfold Store.expired. simpl. rewrite Hover. reflexivity.
  - unfold Store.Redis_GET, Store.Redis_live, Store.InMemoryStore, Store.Redis_db in *.
    rewrite lookup_insert_eq. unfold Store.expired. simpl. rewrite Hover. reflexivity.
Qed.

Lemma get_without_expiry (now now' : Z) (state : Store.WorkflowState)
  (c : Store.Client Text) :
  Store.readable JSON_stringify JSON_parse is_empty state ->
  ttl = 0%Z ->
  (now < now')%Z ->
  fst (get now' true (Store.id state) (save now true state c))
  = if Store.usesFallback c then None else Some state.
Proof.
  intros (Hround & Hfull) Httl Hlate.
  assert (Hover : (now + 0 * 1000 <? now')%Z = true) by (apply Z.ltb_lt; lia).
  destruct c as [mode d f].
  unfold Store.get, Store.save, Store.client_get, Store.client_set, Store.truthy,
    Store.Redis_SET, Store.with_fallback, Store.with_server. simpl.
  rewrite Httl. simpl Z.eqb. cbv iota.
  generalize (Store.getKey this (Store.id state)). intros key.
  destruct mode; simpl.
  - unfold Store.InMemoryStore_get, Store.InMemoryStore_set, Store.InMemoryStore,
      Store.Redis_db in *.
    rewrite lookup_insert_eq. unfold Store.expired. simpl. rewrite Hover. reflexivity.
  - unfold Store.Redis_GET, Store.Redis_live, Store.InMemoryStore, Store.Redis_db in *.
    rewrite lookup_insert_eq. unfold Store.expired. simpl. rewrite Hfull. exact Hround.
Qed.

End ExpiryFacts.

(** With a positive time to live, a snapshot is gone for [get] once the
    clock has passed the instant of the save by that time, on the server
    and on the fallback alike.  With a time to live of zero the two
    backings part: the server keeps the snapshot for good, the fallback
    loses it with the next tick of the clock. *)
Theorem snapshot_expiry :
  forall (Text : Type) (JSON_stringify : Store.WorkflowState -> Text)
         (JSON_parse : Text -> option Store.WorkflowState) (is_empty : Text -> bool)
         (this : Store.WorkflowStateStore) (now now' : Z) (state : Store.WorkflowState)
         (c : Store.Client Text),
    Store.readable JSON_stringify JSON_parse is_empty state ->
    (now < now')%Z ->
    ((0 < Store.ttlSeconds this)%Z ->
     (now + Store.ttlSeconds this * 1000 < now')%Z ->
     forall r,
       fst (Store.get JSON_parse is_empty this now' r (Store.id state)
              (Store.save JSON_stringify this now r state c))
       = None)
    /\ (Store.ttlSeconds this = 0%Z ->
        fst (Store.get JSON_parse is_empty this now' true (Store.id state)
               (Store.save JSON_stringify this now true state c))
        = if Store.usesFallback c then None else Some state).
Proof.
  intros Text JSON_stringify JSON_parse is_empty this now now' state c Hread Hlate.
  split.
  - intros Httl Hover r. apply get_after_expiry; assumption.
  - intros Httl. apply get_without_expiry; assumption.
Qed.

(** A store with a time to live of zero, on the server: the sample
    snapshot is still read a day later. *)
Lemma snapshot_expiry_witness :
  fst (Store.get Some (fun _ => false)
         (Store.WorkflowStateStore_new
            {| Store.opt_ttlSeconds := Some 0%Z; Store.opt_keyPrefix := None |})
         86400000 true (Store.id StoreSamples.snapshot)
         (Store.save (fun s => s)
            (Store.WorkflowStateStore_new
               {| Store.opt_ttlSeconds := Some 0%Z; Store.opt_keyPrefix := None |})
            0 true StoreSamples.snapshot Store.networked))
  = Some StoreSamples.snapshot.
Proof.
  refine (proj2 (snapshot_expiry Store.WorkflowState (fun s => s) Some (fun _ => false)
                   (Store.WorkflowStateStore_new
                      {| Store.opt_ttlSeconds := Some 0%Z; Store.opt_keyPrefix := None |})
                   0 86400000 StoreSamples.snapshot Store.networked _ _) eq_refl).
  - split; reflexivity.
  - reflexivity.
Defined.
